(** * videoTracker canvas scripts: a shallow embedding and its properties

    The repository is a set of stand-alone Python scripts that read a JSON
    canvas document, scan C++ headers with regular expressions and write the
    document back.  This development embeds

    - the fragment of Python's [str] and [re] the scripts rely on,
    - the canvas document (nodes, edges, metadata),
    - [add_shell_nodes.py], [update_existing_canvas.py],
      [update_all_nodes.py], [update_node_titles.py] and, of
      [generate_uml_canvas.py], the classes, the layout and the document,

    and then states and proves the properties of the specification.

    Conventions.  Text is a list of 8-bit characters; the character classes
    [\w] and [\s] are Python's on the ASCII range.  Coordinates are integers
    (the scripts only add and multiply integral values).  The file system,
    the stream of fresh identifiers and the iteration order of a Python
    [set] are explicit parameters of the functions that use them.  Standard
    output is the list of printed lines. *)

From Stdlib Require Import Ascii String DecimalString.
From Stdlib Require Import List Bool Arith ZArith Lia Permutation Sorted.
Import ListNotations.

Set Implicit Arguments.

(* ================================================================== *)
(** * Python strings *)
(* ================================================================== *)

Module PyStr.

Definition str := list ascii.

(** A string literal. *)
Definition lit (x : string) : str := list_ascii_of_string x.

Definition str_eqb (a b : str) : bool :=
  if list_eq_dec ascii_dec a b then true else false.

Definition code (c : ascii) : nat := nat_of_ascii c.

Definition between (lo hi : nat) (c : ascii) : bool :=
  (lo <=? code c) && (code c <=? hi).

Definition is_digit (c : ascii) : bool := between 48 57 c.
Definition is_upper (c : ascii) : bool := between 65 90 c.
Definition is_lower (c : ascii) : bool := between 97 122 c.

(** [\w]: letters, digits and the underscore. *)
Definition is_word (c : ascii) : bool :=
  is_digit c || is_upper c || is_lower c || Ascii.eqb c "_".

(** [\s] and [str.isspace]: TAB, LF, VT, FF, CR, FS, GS, RS, US and SPACE. *)
Definition is_space (c : ascii) : bool :=
  between 9 13 c || between 28 32 c.

Definition newline : ascii := ascii_of_nat 10.

Definition lower_char (c : ascii) : ascii :=
  if is_upper c then ascii_of_nat (code c + 32) else c.

(** [s.lower()] *)
Definition lower (s : str) : str := map lower_char s.

(** [s.lstrip()], [s.rstrip()], [s.strip()] with a predicate for the
    characters to remove. *)
Fixpoint lstrip_by (p : ascii -> bool) (s : str) : str :=
  match s with
  | [] => []
  | c :: t => if p c then lstrip_by p t else s
  end.

Definition rstrip_by (p : ascii -> bool) (s : str) : str :=
  rev (lstrip_by p (rev s)).

Definition strip (s : str) : str := rstrip_by is_space (lstrip_by is_space s).

(** [s.strip(chars)] *)
Definition strip_chars (chars : str) (s : str) : str :=
  let p := fun c => existsb (Ascii.eqb c) chars in
  rstrip_by p (lstrip_by p s).

(** [s.startswith(p)]; on success the text after the prefix. *)
Fixpoint strip_prefix (p s : str) : option str :=
  match p, s with
  | [], _ => Some s
  | _ :: _, [] => None
  | a :: p', b :: s' => if Ascii.eqb a b then strip_prefix p' s' else None
  end.

Definition startswith (p s : str) : bool :=
  match strip_prefix p s with Some _ => true | None => false end.

(** The first occurrence of [sub] in [s]: the text before it and the text
    after it. *)
Fixpoint find_sub (sub s : str) : option (str * str) :=
  match strip_prefix sub s with
  | Some after => Some ([], after)
  | None =>
      match s with
      | [] => None
      | c :: t =>
          match find_sub sub t with
          | Some (before, after) => Some (c :: before, after)
          | None => None
          end
      end
  end.

(** [sub in s] *)
Definition contains (sub s : str) : bool :=
  match find_sub sub s with Some _ => true | None => false end.

(** [s.replace(old, new)] for a non-empty [old]: the occurrences are
    replaced from left to right and do not overlap.  [skip] counts the
    characters of a replaced occurrence still to be dropped. *)
Fixpoint replace_aux (old new : str) (skip : nat) (s : str) : str :=
  match s with
  | [] => []
  | c :: t =>
      match skip with
      | S k => replace_aux old new k t
      | O =>
          if startswith old s
          then new ++ replace_aux old new (length old - 1) t
          else c :: replace_aux old new 0 t
      end
  end.

Definition replace (old new s : str) : str :=
  match old with
  | [] => s
  | _ => replace_aux old new 0 s
  end.

(** [s.split(c)] for a one-character separator. *)
Fixpoint split_on (c : ascii) (s : str) : list str :=
  match s with
  | [] => [[]]
  | x :: t =>
      if Ascii.eqb x c then [] :: split_on c t
      else match split_on c t with
           | h :: r => (x :: h) :: r
           | [] => [[x]]
           end
  end.

(** ["\n".join(lines)] *)
Fixpoint join_lines (lines : list str) : str :=
  match lines with
  | [] => []
  | [l] => l
  | l :: rest => l ++ newline :: join_lines rest
  end.

(** [s.count(c)] *)
Definition count_char (c : ascii) (s : str) : nat :=
  length (filter (Ascii.eqb c) s).

(** [x in xs] for a list or a set of strings. *)
Definition mem (x : str) (xs : list str) : bool := existsb (str_eqb x) xs.

(** [any(kw in s for kw in kws)] *)
Definition any_in (kws : list str) (s : str) : bool :=
  existsb (fun kw => contains kw s) kws.

(** [str(n)] for a natural number. *)
Definition str_of_nat (n : nat) : str :=
  lit (NilZero.string_of_uint (Nat.to_uint n)).

(** [str(z)] for an integer. *)
Definition str_of_Z (z : Z) : str :=
  match z with
  | Zneg p => "-"%char :: str_of_nat (Pos.to_nat p)
  | _ => str_of_nat (Z.to_nat z)
  end.

(** String order of Python: lexicographic by character code. *)
Fixpoint str_leb (a b : str) : bool :=
  match a, b with
  | [], _ => true
  | _ :: _, [] => false
  | x :: a', y :: b' =>
      if code x <? code y then true
      else if code y <? code x then false
      else str_leb a' b'
  end.

(** Dictionaries written as literals: the pairs in order; [d.get(k)]. *)
Fixpoint lookup {V : Type} (k : str) (d : list (str * V)) : option V :=
  match d with
  | [] => None
  | (k', v) :: rest => if str_eqb k k' then Some v else lookup k rest
  end.

End PyStr.

Import PyStr.

(* ================================================================== *)
(** * Python regular expressions *)
(* ================================================================== *)

(** The backtracking matcher of Python's [re], for the operators the
    scripts use.  A match is searched in the order [re] tries the
    alternatives: the left branch of [|] first, one more iteration first for
    a greedy repetition and one less first for a lazy one. *)
Module Re.

Inductive regex : Type :=
| Eps : regex                          (* the empty pattern *)
| Cls : (ascii -> bool) -> regex       (* one character of a class *)
| Seq : regex -> regex -> regex
| Alt : regex -> regex -> regex        (* r1|r2 *)
| Star : bool -> regex -> regex        (* r* when true, r*? when false *)
| Grp : nat -> regex -> regex          (* capturing group number n *)
| WordB : regex                        (* \b *)
| Eol : regex.                         (* $ under re.MULTILINE *)

Definition Chr (c : ascii) : regex := Cls (Ascii.eqb c).
Definition Plus (r : regex) : regex := Seq r (Star true r).   (* r+ *)
Definition Opt (r : regex) : regex := Alt r Eps.              (* r? *)

Fixpoint Lit (s : str) : regex :=                             (* re.escape(s) *)
  match s with
  | [] => Eps
  | c :: t => Seq (Chr c) (Lit t)
  end.

Fixpoint Seqs (rs : list regex) : regex :=
  match rs with
  | [] => Eps
  | [r] => r
  | r :: rest => Seq r (Seqs rest)
  end.

Definition word : regex := Cls is_word.                       (* \w *)
Definition space : regex := Cls is_space.                     (* \s *)
Definition dot : regex := Cls (fun c => negb (Ascii.eqb c newline)).  (* . *)
Definition any : regex := Cls (fun _ => true).                (* . under re.DOTALL *)
Definition none_of (cs : str) : regex :=                      (* [^...] *)
  Cls (fun c => negb (existsb (Ascii.eqb c) cs)).
Definition one_of (cs : str) : regex :=                       (* [...] *)
  Cls (fun c => existsb (Ascii.eqb c) cs).

(** The state of a match attempt: the text already passed (latest character
    first), the text ahead and the groups captured so far. *)
Record mstate : Type := MState {
  passed : str;
  ahead : str;
  groups : list (nat * str)
}.

Definition set_group (n : nat) (v : str) (st : mstate) : mstate :=
  MState (passed st) (ahead st) ((n, v) :: groups st).

Definition is_word_opt (c : option ascii) : bool :=
  match c with Some x => is_word x | None => false end.

Definition at_word_boundary (st : mstate) : bool :=
  xorb (is_word_opt (hd_error (passed st))) (is_word_opt (hd_error (ahead st))).

Definition at_eol (st : mstate) : bool :=
  match ahead st with
  | [] => true
  | c :: _ => Ascii.eqb c newline
  end.

Definition cont := mstate -> option mstate.

(** Repetition of [body].  An iteration that consumes nothing is not
    repeated; [fuel] is the length of the text ahead, which bounds the
    number of iterations that consume something. *)
Fixpoint star_loop (body : mstate -> cont -> option mstate) (greedy : bool)
                   (fuel : nat) (st : mstate) (k : cont) : option mstate :=
  match fuel with
  | O => k st
  | S fuel' =>
      let again (_ : unit) :=
        body st (fun st' =>
          if length (ahead st') <? length (ahead st)
          then star_loop body greedy fuel' st' k
          else None) in
      if greedy
      then match again tt with Some m => Some m | None => k st end
      else match k st with Some m => Some m | None => again tt end
  end.

Fixpoint rmatch (r : regex) (st : mstate) (k : cont) : option mstate :=
  match r with
  | Eps => k st
  | Cls p =>
      match ahead st with
      | c :: t => if p c then k (MState (c :: passed st) t (groups st)) else None
      | [] => None
      end
  | Seq r1 r2 => rmatch r1 st (fun st1 => rmatch r2 st1 k)
  | Alt r1 r2 =>
      match rmatch r1 st k with
      | Some m => Some m
      | None => rmatch r2 st k
      end
  | Star greedy r1 => star_loop (rmatch r1) greedy (length (ahead st)) st k
  | Grp n r1 =>
      rmatch r1 st (fun st1 =>
        k (set_group n (firstn (length (ahead st) - length (ahead st1)) (ahead st)) st1))
  | WordB => if at_word_boundary st then k st else None
  | Eol => if at_eol st then k st else None
  end.

(** A match: the state where it starts and the state where it ends. *)
Definition rmatch_at (r : regex) (left right : str) : option mstate :=
  rmatch r (MState left right []) Some.

(** [re.search(r, s)]: the match at the leftmost position that has one. *)
Fixpoint search_at (r : regex) (left right : str) : option (mstate * mstate) :=
  match rmatch_at r left right with
  | Some e => Some (MState left right [], e)
  | None =>
      match right with
      | [] => None
      | c :: t => search_at r (c :: left) t
      end
  end.

Definition search (r : regex) (s : str) : option (mstate * mstate) :=
  search_at r [] s.

Definition matches (r : regex) (s : str) : bool :=
  match search r s with Some _ => true | None => false end.

(** [m.group(n)] for a group that took part in the match. *)
Fixpoint assoc (n : nat) (gs : list (nat * str)) : option str :=
  match gs with
  | [] => None
  | (i, v) :: rest => if Nat.eqb n i then Some v else assoc n rest
  end.

Definition group (n : nat) (m : mstate * mstate) : option str :=
  assoc n (groups (snd m)).

(** [re.search(r, s).group(n)], when there is a match. *)
Definition search_group (n : nat) (r : regex) (s : str) : option str :=
  match search r s with
  | Some m => group n m
  | None => None
  end.

(** [m.start()] and [m.end()] as the texts around the match. *)
Definition before (m : mstate * mstate) : str := rev (passed (fst m)).
Definition after (m : mstate * mstate) : str := ahead (snd m).

(** [re.sub(r, repl, s)]: the matches are replaced from left to right and do
    not overlap.  (No pattern of the scripts passed to [re.sub] matches the
    empty text; an empty match is replaced and the scan moves on by one
    character.) *)
Fixpoint sub_loop (r : regex) (repl : str) (fuel : nat) (left right : str) : str :=
  match fuel with
  | O => right
  | S fuel' =>
      match rmatch_at r left right with
      | Some e =>
          if length (ahead e) <? length right
          then repl ++ sub_loop r repl fuel' (passed e) (ahead e)
          else match right with
               | [] => repl
               | c :: t => repl ++ c :: sub_loop r repl fuel' (c :: left) t
               end
      | None =>
          match right with
          | [] => []
          | c :: t => c :: sub_loop r repl fuel' (c :: left) t
          end
      end
  end.

Definition sub (r : regex) (repl : str) (s : str) : str :=
  sub_loop r repl (S (length s)) [] s.

(** [re.finditer(r, s)]: the matches from left to right, not overlapping. *)
Fixpoint finditer_loop (r : regex) (fuel : nat) (left right : str)
  : list (mstate * mstate) :=
  match fuel with
  | O => []
  | S fuel' =>
      match rmatch_at r left right with
      | Some e =>
          (MState left right [], e) ::
          (if length (ahead e) <? length right
           then finditer_loop r fuel' (passed e) (ahead e)
           else match right with
                | [] => []
                | c :: t => finditer_loop r fuel' (c :: left) t
                end)
      | None =>
          match right with
          | [] => []
          | c :: t => finditer_loop r fuel' (c :: left) t
          end
      end
  end.

Definition finditer (r : regex) (s : str) : list (mstate * mstate) :=
  finditer_loop r (S (length s)) [] s.

End Re.

Import Re.

(* ================================================================== *)
(** * The environment of a run and the canvas document *)
(* ================================================================== *)

Module Env.

(** What a path holds: nothing, something that cannot be read as UTF-8 text
    (a directory, a protected or an undecodable file), or text. *)
Inductive file : Type :=
| Missing : file
| Unreadable : file
| Readable : str -> file.

Definition filesystem := str -> file.

(** [path.exists()] *)
Definition exists_ (fs : filesystem) (path : str) : bool :=
  match fs path with
  | Missing => false
  | _ => true
  end.

(** [base / name] of pathlib, for the relative names the scripts build. *)
Definition join (base name : str) : str := base ++ "/"%char :: name.

Definition SRC_DIR : str :=
  lit "/Users/jaufre/works/of_v0.12.1_osx_release/apps/myApps/videoTracker/src".

(** The first path of a list that exists. *)
Fixpoint first_existing (fs : filesystem) (paths : list str) : option str :=
  match paths with
  | [] => None
  | p :: rest => if exists_ fs p then Some p else first_existing fs rest
  end.

End Env.

Module Canvas.

(** The JSON canvas document: an object with a [nodes] array, an [edges]
    array and possibly a [metadata] object.  [text] is present on text
    nodes only; [color] and [styleAttributes] are optional. *)
Record node : Type := Node {
  node_id : str;
  node_type : str;
  node_text : option str;
  node_x : Z;
  node_y : Z;
  node_width : Z;
  node_height : Z;
  node_color : option str;
  node_style : option (list (str * str))
}.

Record edge : Type := Edge {
  edge_id : str;
  fromNode : str;
  fromSide : str;
  toNode : str;
  toSide : str;
  edge_color : option str
}.

Record meta : Type := Meta {
  version : str;
  frontmatter : list (str * str)
}.

Record canvas : Type := Doc {
  nodes : list node;
  edges : list edge;
  metadata : option meta
}.

(** [node.get("type") == "text"] *)
Definition is_text (n : node) : bool := str_eqb (node_type n) (lit "text").

(** [node.get] of the key [text], with the empty text as the default. *)
Definition text_of (n : node) : str :=
  match node_text n with
  | Some t => t
  | None => []
  end.

(** [node["text"] = t] *)
Definition set_text (t : str) (n : node) : node :=
  Node (node_id n) (node_type n) (Some t) (node_x n) (node_y n)
       (node_width n) (node_height n) (node_color n) (node_style n).

Definition set_nodes (ns : list node) (c : canvas) : canvas :=
  Doc ns (edges c) (metadata c).

End Canvas.

(* ================================================================== *)
(** * The line scanner shared by the method extractors *)
(* ================================================================== *)

(** [extract_public_methods] of [add_shell_nodes.py] and
    [extract_all_public_methods] and [extract_public_methods] of
    [update_node_titles.py] run the same loop over the lines of a header and
    differ in what they do with a line of a public section; that step is
    the parameter [harvest], which receives the lines up to the current one
    (latest first) and the methods found so far. *)
Module Scanner.

Definition braces (line : str) : Z :=
  Z.of_nat (count_char "{" line) - Z.of_nat (count_char "}" line).

(** [\bclass\s+\w+] *)
Definition class_re : regex :=
  Seqs [WordB; Lit (lit "class"); Plus space; Plus word].

(** [\bpublic\s*:] *)
Definition public_re : regex :=
  Seqs [WordB; Lit (lit "public"); Star true space; Chr ":"].

(** [\b(private|protected)\s*:] *)
Definition private_re : regex :=
  Seqs [WordB; Grp 1 (Alt (Lit (lit "private")) (Lit (lit "protected")));
        Star true space; Chr ":"].

(** [re.search(r'\bclass\s+\w+', line) and '{' in line] *)
Definition is_class_start (line : str) : bool :=
  matches class_re line && contains (lit "{") line.

Definition is_public (line : str) : bool := matches public_re line.
Definition is_private (line : str) : bool := matches private_re line.

Record scan_state : Type := Scan {
  methods : list str;
  in_public_section : bool;
  in_class : bool;
  brace_depth : Z
}.

Definition scan_init : scan_state := Scan [] false false 0.

Section Loop.

Variable harvest : list str -> list str -> list str.

(** The body of [for line in lines]; [seen] holds the current line and
    the lines before it, latest first. *)
Definition scan_line (seen : list str) (line : str) (st : scan_state) : scan_state :=
  if is_class_start line then
    Scan (methods st) false true (braces line)
  else if negb (in_class st) then st
  else
    let depth := (brace_depth st + braces line)%Z in
    if (depth <=? 0)%Z then
      Scan (methods st) (in_public_section st) false depth
    else if is_public line then
      Scan (methods st) true (in_class st) depth
    else if is_private line then
      Scan (methods st) false (in_class st) depth
    else if in_public_section st then
      Scan (harvest seen (methods st)) (in_public_section st) (in_class st) depth
    else
      Scan (methods st) (in_public_section st) (in_class st) depth.

Fixpoint scan (seen : list str) (lines : list str) (st : scan_state) : scan_state :=
  match lines with
  | [] => st
  | line :: rest => scan (line :: seen) rest (scan_line (line :: seen) line st)
  end.

Definition scan_lines (lines : list str) : list str :=
  methods (scan [] lines scan_init).

End Loop.

(** A line comment, [//.*?$] under [re.MULTILINE], and a block comment under
    [re.DOTALL]: the opening mark, as few characters as possible, the
    closing mark. *)
Definition line_comment_re : regex :=
  Seqs [Lit (lit "//"); Star false dot; Eol].
Definition block_comment_re : regex :=
  Seqs [Lit (lit "/*"); Star false any; Lit (lit "*/")].

(** A double-quoted and a single-quoted literal: the quote, any characters
    other than the quote, the quote. *)
Definition dquote : ascii := ascii_of_nat 34.
Definition squote : ascii := ascii_of_nat 39.
Definition dstring_re : regex :=
  Seqs [Chr dquote; Star true (none_of [dquote]); Chr dquote].
Definition sstring_re : regex :=
  Seqs [Chr squote; Star true (none_of [squote]); Chr squote].

Definition remove_comments (content : str) : str :=
  Re.sub block_comment_re [] (Re.sub line_comment_re [] content).

Definition remove_comments_and_strings (content : str) : str :=
  Re.sub sstring_re [squote; squote]
    (Re.sub dstring_re [dquote; dquote] (remove_comments content)).

(** The tail of a method declaration: optional blanks, a parenthesis, any
    characters other than the closing parenthesis, the closing parenthesis,
    optional blanks, and optionally [const] and blanks. *)
Definition params_re : list regex :=
  [Star true space; Chr "("; Star true (none_of (lit ")")); Chr ")";
   Star true space; Opt (Seq (Lit (lit "const")) (Star true space))].

Definition override_re : regex := Opt (Seq (Lit (lit "override")) (Star true space)).

(** Optionally [= 0] with blanks around. *)
Definition pure_re : regex :=
  Opt (Seqs [Chr "="; Star true space; Chr "0"; Star true space]).

End Scanner.

(* ================================================================== *)
(** * add_shell_nodes.py *)
(* ================================================================== *)

Module AddShellNodes.

Import Env Canvas Scanner.

Record class_info : Type := ClassInfo {
  description : str;
  is_abstract : bool;
  file : str;
  predefined : list str          (* the key "methods" *)
}.

Definition SHELL_CLASSES : list (str * class_info) :=
  [ (lit "Shell",
     ClassInfo (lit "Base class for different UI interaction modes") true
       (lit "shell/Shell.h")
       (map lit ["setup"; "update"; "draw"; "exit"; "handleKeyPress";
                 "handleMousePress"; "handleMouseDrag"; "handleMouseRelease";
                 "handleWindowResize"; "setActive"; "isActive"; "getName";
                 "getDescription"]%string));
    (lit "EditorShell",
     ClassInfo (lit "Wraps existing ImGui-based editor interface with tiled windows")
       false (lit "shell/EditorShell.h")
       (map lit ["setup"; "update"; "draw"; "exit"; "handleKeyPress";
                 "handleMousePress"; "handleWindowResize"; "setDrawGUICallback";
                 "setHandleKeyPressCallback"]%string));
    (lit "CommandShell",
     ClassInfo (lit "Custom-rendered terminal interface with REPL (Hydra/Strudel style)")
       false (lit "shell/CommandShell.h")
       (map lit ["setup"; "update"; "draw"; "exit"; "handleKeyPress";
                 "handleMousePress"; "handleMouseDrag"; "handleMouseRelease";
                 "handleWindowResize"; "setEmbeddedMode"; "isEmbeddedMode";
                 "setEmbeddedBounds"; "appendOutput"]%string));
    (lit "CodeShell",
     ClassInfo (lit "Live-coding shell with code editor and REPL (Strudel/Tidal/Hydra style)")
       false (lit "shell/CodeShell.h")
       (map lit ["setup"; "update"; "draw"; "exit"; "handleKeyPress";
                 "handleMousePress"; "handleMouseDrag"; "handleMouseRelease";
                 "handleWindowResize"; "refreshScriptFromState";
                 "executeSelection"; "executeAll"]%string));
    (lit "CLIShell",
     ClassInfo (lit "Batch CLI mode for non-interactive command execution")
       false (lit "shell/CLIShell.h")
       (map lit ["setup"; "update"; "draw"; "exit"; "handleKeyPress";
                 "executeCommand"; "executeFromStdin"; "executeFromFile";
                 "shouldExit"]%string)) ].

Definition ABSTRACT_WIDTH : Z := 320.
Definition ABSTRACT_HEIGHT : Z := 140.
Definition REGULAR_WIDTH : Z := 280.
Definition REGULAR_HEIGHT : Z := 100.
Definition NODE_SPACING_Y : Z := 150.

(** The method pattern: a word boundary, the name (group 1), the tail of a
    declaration, optionally [override] and [= 0], then [;] or an opening
    brace. *)
Definition method_re : regex :=
  Seqs ([WordB; Grp 1 (Plus word)] ++ params_re ++
        [override_re; pure_re; one_of (lit ";{")]).

(** The step of the loop for a line of a public section. *)
Definition harvest (seen : list str) (methods : list str) : list str :=
  match seen with
  | [] => methods
  | line :: _ =>
      match search_group 1 method_re line with
      | Some method_name =>
          if negb (str_eqb method_name [])
             && negb (mem method_name [lit "~"; lit "operator"])
             && negb (mem method_name methods)
          then methods ++ [method_name]
          else methods
      | None => methods
      end
  end.

(** The scan of a header that could be read. *)
Definition scan_header (content : str) : list str :=
  scan_lines harvest (split_on newline (remove_comments content)).

Definition extract_public_methods (fs : filesystem) (header_path : str) : list str :=
  match fs header_path with
  | Missing => []
  | Unreadable => []
  | Readable content => scan_header content
  end.

Definition key_words : list str :=
  map lit ["handle"; "execute"; "setup"; "update"; "draw"; "set"; "get"]%string.

Definition is_priority (method : str) : bool := any_in key_words (lower method).

Definition get_key_methods (all_methods : list str) (info : class_info) : list str :=
  match all_methods with
  | [] => firstn 8 (predefined info)
  | _ =>
      let priority := filter is_priority all_methods in
      let other := filter (fun m => negb (is_priority m)) all_methods in
      let result := firstn 6 priority in
      let result :=
        if length result <? 8
        then result ++ firstn (8 - length result) other
        else result in
      firstn 8 result
  end.

Definition title (class_name : str) (has_cpp : bool) : str :=
  if has_cpp then lit "# " ++ class_name ++ lit ".cpp/h"
  else lit "# " ++ class_name ++ lit ".h".

Definition method_line (method : str) : str :=
  lit "- `" ++ method ++ lit "()`".

Definition format_node_text (class_name : str) (info : class_info)
                            (methods : list str) (has_cpp : bool) : str :=
  let lines := [title class_name has_cpp; []] in
  let lines :=
    match description info with
    | [] => lines
    | d => lines ++ [lit "*" ++ d ++ lit "*"; []]
    end in
  let lines :=
    match methods with
    | [] => lines
    | _ => lines ++ lit "**Key Methods:**" :: map method_line methods
    end in
  join_lines lines.

(** [#\s*Shell\.] *)
Definition shell_re : regex :=
  Seqs [Chr "#"; Star true space; Lit (lit "Shell"); Chr "."].

(** [#\s*(\w+)\.] *)
Definition class_title_re : regex :=
  Seqs [Chr "#"; Star true space; Grp 1 (Plus word); Chr "."].

Fixpoint find_shell_node_position (ns : list node) : option (Z * Z) :=
  match ns with
  | [] => None
  | n :: rest =>
      if is_text n && matches shell_re (text_of n)
      then Some (node_x n, node_y n)
      else find_shell_node_position rest
  end.

(** The set [existing_classes], as the list of the names found. *)
Fixpoint existing_classes (ns : list node) : list str :=
  match ns with
  | [] => []
  | n :: rest =>
      if is_text n then
        match search_group 1 class_title_re (text_of n) with
        | Some name => name :: existing_classes rest
        | None => existing_classes rest
        end
      else existing_classes rest
  end.

Definition missing_shells (existing : list str) : list str :=
  filter (fun name => negb (mem name existing)) (map fst SHELL_CLASSES).

(** The node made for one missing class, at place [i] of [missing_shells]. *)
Definition new_shell_node (fs : filesystem) (fresh_id : str) (base_x base_y : Z)
                          (i : nat) (class_name : str) (info : class_info) : node :=
  let header_path := join SRC_DIR (file info) in
  let cpp_path := join SRC_DIR (replace (lit ".h") (lit ".cpp") (file info)) in
  let has_cpp := exists_ fs cpp_path in
  let all_methods := extract_public_methods fs header_path in
  let key_methods := get_key_methods all_methods info in
  let node_text := format_node_text class_name info key_methods has_cpp in
  let width := if is_abstract info then ABSTRACT_WIDTH else REGULAR_WIDTH in
  let height := if is_abstract info then ABSTRACT_HEIGHT else REGULAR_HEIGHT in
  Node fresh_id (lit "text") (Some node_text)
       base_x (base_y + Z.of_nat i * NODE_SPACING_Y) width height
       None (Some []).

(** The loop [for i, class_name in enumerate(missing_shells)]; [ids k] is
    the result of the k-th call of [generate_node_id], [made] the number of
    nodes created so far. *)
Fixpoint shell_loop (fs : filesystem) (ids : nat -> str) (base_x base_y : Z)
                    (i : nat) (made : nat) (todo : list str) : list node :=
  match todo with
  | [] => []
  | class_name :: rest =>
      if str_eqb class_name (lit "Shell") then
        shell_loop fs ids base_x base_y (S i) made rest
      else
        match lookup class_name SHELL_CLASSES with
        | Some info =>
            new_shell_node fs (ids made) base_x base_y i class_name info
            :: shell_loop fs ids base_x base_y (S i) (S made) rest
        | None => shell_loop fs ids base_x base_y (S i) made rest
        end
  end.

Definition new_nodes (fs : filesystem) (ids : nat -> str) (c : canvas) : list node :=
  let existing := existing_classes (nodes c) in
  let '(shell_x, shell_y) :=
    match find_shell_node_position (nodes c) with
    | Some pos => pos
    | None => (2140, -4320)%Z
    end in
  shell_loop fs ids shell_x (shell_y + 400)%Z 0 0 (missing_shells existing).

(** The document written by a run on the document [c]. *)
Definition add_shell_nodes (fs : filesystem) (ids : nat -> str) (c : canvas) : canvas :=
  set_nodes (nodes c ++ new_nodes fs ids c) c.

End AddShellNodes.

(* ================================================================== *)
(** * update_existing_canvas.py *)
(* ================================================================== *)

Module UpdateExistingCanvas.

Import Env Canvas.

(** The set literal [ALL_CLASSES], in the order it is written. *)
Definition ALL_CLASSES : list str :=
  map lit
    ["ofBaseApp"; "ofApp";
     "Clock"; "ModuleFactory"; "ModuleRegistry"; "ConnectionManager";
     "ParameterRouter"; "SessionManager"; "ProjectManager";
     "AudioRouter"; "VideoRouter"; "EventRouter"; "CommandExecutor";
     "Engine"; "EngineState"; "PatternRuntime"; "ScriptManager";
     "Module";
     "TrackerSequencer"; "MultiSampler"; "MediaPlayer"; "VoiceProcessor";
     "AudioMixer"; "VideoMixer"; "AudioOutput"; "VideoOutput";
     "Oscilloscope"; "Spectrogram";
     "ModuleGUI";
     "GUIManager"; "ViewManager"; "TrackerSequencerGUI"; "MultiSamplerGUI";
     "AudioMixerGUI"; "VideoMixerGUI"; "AudioOutputGUI"; "VideoOutputGUI";
     "OscilloscopeGUI"; "SpectrogramGUI"; "ClockGUI"; "MenuBar";
     "Console"; "CommandBar"; "FileBrowser"; "AssetLibraryGUI"; "AddMenu";
     "BaseCell"; "NumCell"; "BoolCell"; "MenuCell"; "ParameterCell"; "CellGrid";
     "Pattern"; "PatternChain"; "SampleRef"; "Voice"; "ParameterDescriptor";
     "Port"; "TriggerEvent"; "Envelope"; "VoiceManager";
     "AssetLibrary"; "MediaConverter"; "InputRouter"; "ExpressionParser"]%string.

Definition LAYER_POSITIONS : list (str * (Z * Z)) :=
  [ (lit "application", (-900, -700));
    (lit "core", (-120, -1000));
    (lit "module_base", (980, -900));
    (lit "modules", (1080, -920));
    (lit "gui_base", (2000, -570));
    (lit "gui_classes", (2100, -600));
    (lit "cell_system", (3000, -400));
    (lit "data_structures", (3500, -400));
    (lit "utilities", (4000, -400)) ]%Z.

Definition in_layer (layer : string) (names : list string) : list (str * str) :=
  map (fun n => (lit n, lit layer)) names.

Definition CLASS_TO_LAYER : list (str * str) :=
  (in_layer "application" ["ofBaseApp"; "ofApp"]%string ++
   in_layer "core"
     ["Clock"; "ModuleFactory"; "ModuleRegistry"; "ConnectionManager";
      "ParameterRouter"; "SessionManager"; "ProjectManager"; "AudioRouter";
      "VideoRouter"; "EventRouter"; "CommandExecutor"; "Engine";
      "EngineState"; "PatternRuntime"; "ScriptManager"]%string ++
   in_layer "module_base" ["Module"]%string ++
   in_layer "modules"
     ["TrackerSequencer"; "MultiSampler"; "MediaPlayer"; "VoiceProcessor";
      "AudioMixer"; "VideoMixer"; "AudioOutput"; "VideoOutput";
      "Oscilloscope"; "Spectrogram"]%string ++
   in_layer "gui_base" ["ModuleGUI"]%string ++
   in_layer "gui_classes"
     ["GUIManager"; "ViewManager"; "TrackerSequencerGUI"; "MultiSamplerGUI";
      "AudioMixerGUI"; "VideoMixerGUI"; "AudioOutputGUI"; "VideoOutputGUI";
      "OscilloscopeGUI"; "SpectrogramGUI"; "ClockGUI"; "MenuBar"; "Console";
      "CommandBar"; "FileBrowser"; "AssetLibraryGUI"; "AddMenu"]%string ++
   in_layer "cell_system"
     ["BaseCell"; "NumCell"; "BoolCell"; "MenuCell"; "ParameterCell"; "CellGrid"]%string ++
   in_layer "data_structures"
     ["Pattern"; "PatternChain"; "SampleRef"; "Voice"; "ParameterDescriptor";
      "Port"; "TriggerEvent"; "Envelope"; "VoiceManager"]%string ++
   in_layer "utilities"
     ["AssetLibrary"; "MediaConverter"; "InputRouter"; "ExpressionParser"]%string)%list.

(** [d[k] = v] on a dictionary kept in insertion order. *)
Fixpoint dict_set {V : Type} (k : str) (v : V) (d : list (str * V)) : list (str * V) :=
  match d with
  | [] => [(k, v)]
  | (k', v') :: rest =>
      if str_eqb k k' then (k, v) :: rest else (k', v') :: dict_set k v rest
  end.

Definition clean_name (text : str) : str :=
  strip (replace (lit ".cpp") []
          (replace (lit ".cpp/h") []
            (replace (lit ".h") []
              (replace (lit " (abstract)") [] text)))).

Fixpoint get_existing_nodes_from (ns : list node) (existing : list (str * node))
  : list (str * node) :=
  match ns with
  | [] => existing
  | n :: rest =>
      if is_text n
      then get_existing_nodes_from rest
             (dict_set (clean_name (strip (text_of n))) n existing)
      else get_existing_nodes_from rest existing
  end.

Definition get_existing_nodes (c : canvas) : list (str * node) :=
  get_existing_nodes_from (nodes c) [].

(** The layer of an existing node, as [create_missing_node] computes it. *)
Definition layer_of_node (n : node) : str :=
  let name :=
    strip (replace (lit ".cpp/h") []
            (replace (lit ".h") []
              (replace (lit " (abstract)") [] (text_of n)))) in
  match lookup name CLASS_TO_LAYER with
  | Some l => l
  | None => []
  end.

Definition abstract_classes : list str :=
  map lit ["Module"; "ModuleGUI"; "BaseCell"; "ofBaseApp"]%string.

Definition layer_is (layer : str) (name : string) : bool := str_eqb layer (lit name).

Definition create_missing_node (fresh_id : str) (class_name layer : str)
                               (existing_nodes : list (str * node)) : node :=
  let '(x_base, y_base) :=
    match lookup layer LAYER_POSITIONS with
    | Some pos => pos
    | None => (0, 0)%Z
    end in
  let existing_in_layer :=
    filter (fun n => str_eqb (layer_of_node n) layer) (map snd existing_nodes) in
  let is_abstract := mem class_name abstract_classes in
  let count := Z.of_nat (length existing_in_layer) in
  let col := (count mod 2)%Z in
  let row := (count / 2)%Z in
  let '(x, y) :=
    (if layer_is layer "core" then (x_base + col * 340, y_base + row * 80)
     else if layer_is layer "modules" then (x_base + col * 280, y_base + row * 80)
     else if layer_is layer "gui_classes" then (x_base + col * 280, y_base + row * 80)
     else if layer_is layer "application" then (x_base, y_base - count * 100)
     else if layer_is layer "module_base" then (x_base, y_base)
     else if layer_is layer "gui_base" then (x_base, y_base)
     else if layer_is layer "cell_system" then (x_base + count * 300, y_base)
     else if layer_is layer "data_structures" then (x_base, y_base + count * 100)
     else if layer_is layer "utilities" then (x_base, y_base + count * 100)
     else (x_base, y_base + count * 100))%Z in
  let text :=
    if is_abstract
    then lit "*" ++ class_name ++ lit "*" ++ newline :: lit "(abstract)"
    else class_name in
  Node fresh_id (lit "text") (Some text) x y
       (if is_abstract then 300 else 260)%Z
       (if is_abstract then 200 else 60)%Z
       None (Some []).

(** The loop [for class_name in missing_classes]: the new nodes, in the
    order they are appended. *)
Fixpoint add_missing (ids : nat -> str) (made : nat) (todo : list str)
                     (existing_nodes : list (str * node)) : list node :=
  match todo with
  | [] => []
  | class_name :: rest =>
      let layer :=
        match lookup class_name CLASS_TO_LAYER with
        | Some l => l
        | None => lit "utilities"
        end in
      let new_node := create_missing_node (ids made) class_name layer existing_nodes in
      new_node :: add_missing ids (S made) rest (dict_set class_name new_node existing_nodes)
  end.

(** [set_iter] gives the order in which Python iterates over the set
    [ALL_CLASSES - existing_class_names]. *)
Definition missing_classes (set_iter : list str -> list str)
                           (existing_nodes : list (str * node)) : list str :=
  set_iter (filter (fun name => negb (mem name (map fst existing_nodes))) ALL_CLASSES).

Definition new_nodes (set_iter : list str -> list str) (ids : nat -> str)
                     (c : canvas) : list node :=
  let existing_nodes := get_existing_nodes c in
  add_missing ids 0 (missing_classes set_iter existing_nodes) existing_nodes.

Definition default_metadata : meta := Meta (lit "1.0-1.0") [].

(** The document written by a run of [main] on the document [c]. *)
Definition main (set_iter : list str -> list str) (ids : nat -> str) (c : canvas) : canvas :=
  Doc (nodes c ++ new_nodes set_iter ids c)
      []
      (match metadata c with
       | Some m => Some m
       | None => Some default_metadata
       end).

End UpdateExistingCanvas.

(* ================================================================== *)
(** * What update_all_nodes.py and update_node_titles.py have in common *)
(* ================================================================== *)

(** The two scripts hold identical copies of the definitions of this
    module. *)
Module Shared.

Import Env Canvas Scanner.

Definition CLASS_TO_FILE : list (str * str) :=
  [ (lit "ofApp", lit "ofApp");
    (lit "ofBaseApp", lit "ofBaseApp");
    (lit "TriggerEvent", lit "modules/Module");
    (lit "Port", lit "modules/Module");
    (lit "SampleRef", lit "modules/MultiSampler");
    (lit "Voice", lit "modules/MultiSampler") ].

Definition INTERACTION_KEYWORDS : list str :=
  map lit ["get"; "set"; "connect"; "disconnect"; "register"; "add"; "remove";
           "create"; "execute"; "load"; "save"; "subscribe"; "unsubscribe";
           "route"; "process"; "update"; "notify"; "find"; "query"]%string.

Definition EXCLUDE_METHODS : list str :=
  map lit ["getType"; "getName"; "getInstanceName"; "setInstanceName";
           "toJson"; "fromJson"; "serialize"; "deserialize";
           "setup"; "update"; "draw"; "audioOut"; "videoOut";
           "getWidth"; "getHeight"; "setWidth"; "setHeight";
           "getX"; "getY"; "setX"; "setY"; "getPosition"; "setPosition";
           "getColor"; "setColor"; "isVisible"; "setVisible";
           "getParent"; "setParent"; "getChildren"; "addChild"; "removeChild"]%string.

Definition subdirs : list str :=
  map lit ["core"; "modules"; "gui"; "utils"; "data"; "input"; "shell"]%string.

Definition struct_names : list str :=
  map lit ["TriggerEvent"; "Port"; "SampleRef"; "Voice"]%string.

(** The loop that looks for the closing brace, started with the count 1 on
    the text after a match: the number of characters it passes. *)
Fixpoint brace_scan (brace_count : nat) (s : str) : nat :=
  match brace_count, s with
  | O, _ => O
  | _, [] => O
  | S below, c :: t =>
      if Ascii.eqb c "{" then S (brace_scan (S brace_count) t)
      else if Ascii.eqb c "}" then S (brace_scan below t)
      else S (brace_scan brace_count t)
  end.

(** [content[start_pos:i-1]], as a part of the text after the match. *)
Definition brace_body (after_match : str) : str :=
  firstn (brace_scan 1 after_match - 1) after_match.

(** Appends the names that pass [keep] and are not yet in the list. *)
Fixpoint collect (keep : list str -> str -> bool) (names : list (option str))
                 (methods : list str) : list str :=
  match names with
  | [] => methods
  | Some name :: rest =>
      collect keep rest
        (if negb (str_eqb name []) && keep methods name && negb (mem name methods)
         then methods ++ [name] else methods)
  | None :: rest => collect keep rest methods
  end.

Definition not_special (name : str) : bool :=
  negb (mem name [lit "~"; lit "operator"]).

(** The method pattern of [extract_struct_members]: the name (group 1), the
    tail of a declaration, optionally [= 0], then [;] or an opening brace. *)
Definition member_re : regex :=
  Seqs ([Grp 1 (Plus word)] ++ params_re ++ [pure_re; one_of (lit ";{")]).

Definition struct_re (struct_name : str) : regex :=
  Seqs [WordB; Lit (lit "struct"); Plus space; Lit struct_name; WordB].

Definition struct_members (struct_name content : str) : list str :=
  match search (struct_re struct_name) content with
  | None => []
  | Some m =>
      let struct_body := brace_body (after m) in
      collect (fun _ name => not_special name && negb (mem name EXCLUDE_METHODS))
              (map (group 1) (finditer member_re struct_body)) []
  end.

Definition extract_struct_members (fs : filesystem) (header_path struct_name : str)
  : list str :=
  match fs header_path with
  | Missing => []
  | Unreadable => []
  | Readable content => struct_members struct_name content
  end.

Definition high_words : list str :=
  map lit ["connect"; "disconnect"; "register"; "execute"; "route";
           "subscribe"; "unsubscribe"]%string.
Definition module_words : list str :=
  map lit ["module"; "manager"; "router"; "registry"; "factory";
           "connection"; "state"]%string.
Definition notify_words : list str := map lit ["notify"; "on"; "set"]%string.
Definition store_words : list str :=
  map lit ["load"; "save"; "serialize"; "deserialize"]%string.

Inductive priority : Type := High | Medium | Other.

(** The branch of the classification loop a method takes. *)
Definition classify (method : str) : priority :=
  let method_lower := lower method in
  if any_in high_words method_lower then High
  else if startswith (lit "get") method && any_in module_words method_lower then Medium
  else if any_in notify_words method_lower then Medium
  else if any_in store_words method_lower then Medium
  else Other.

Definition is_high (m : str) : bool :=
  match classify m with High => true | _ => false end.
Definition is_medium (m : str) : bool :=
  match classify m with Medium => true | _ => false end.
Definition is_other (m : str) : bool :=
  match classify m with Other => true | _ => false end.

Definition get_key_interaction_methods (class_name : str) (all_methods : list str)
  : list str :=
  match all_methods with
  | [] => []
  | _ =>
      let priority_methods := filter is_high all_methods in
      let medium_priority := filter is_medium all_methods in
      let other_methods := filter is_other all_methods in
      let result := firstn 6 priority_methods in
      let result :=
        if length result <? 8
        then result ++ firstn (8 - length result) medium_priority
        else result in
      let result :=
        if length result <? 8
        then result ++ firstn (8 - length result) other_methods
        else result in
      let result :=
        match result with
        | [] => firstn 8 all_methods
        | _ => result
        end in
      firstn 8 result
  end.

(** The title pattern [#\s*(\w+)\.(?:cpp/)?h] and the pattern of a name
    between asterisks. *)
Definition title_re : regex :=
  Seqs [Chr "#"; Star true space; Grp 1 (Plus word); Chr ".";
        Opt (Lit (lit "cpp/")); Chr "h"].

Definition starred_re : regex :=
  Seqs [Chr "*"; Grp 1 (Plus word); Chr "*"].

Definition first_line (text : str) : str :=
  strip (hd [] (split_on newline text)).

(** The description read from the documentation comment that precedes the
    class, when there is one and it is not empty. *)
Definition doc_re : regex :=
  Seqs [Lit (lit "/**"); Star true space; Grp 1 (Star false any);
        Star true space; Lit (lit "*/")].

Definition doc_description (class_name before_class : str) : option str :=
  match last (map Some (finditer doc_re before_class)) None with
  | None => None
  | Some last_block =>
      let doc_text := match group 1 last_block with Some g => g | None => [] end in
      let lines :=
        filter (fun l => negb (str_eqb l []))
               (map strip (split_on newline doc_text)) in
      match lines with
      | [] => None
      | first_line :: _ =>
          let desc :=
            match find_sub (lit " - ") first_line with
            | Some (_, rest) => rest
            | None =>
                match strip_prefix class_name first_line with
                | Some rest => strip_chars (lit " -") rest
                | None => first_line
                end
            end in
          let desc := Re.sub (Seq (Chr "*") (Star true space)) [] desc in
          let desc := strip (Re.sub (Plus space) (lit " ") desc) in
          let desc :=
            if 120 <? length desc then firstn 117 desc ++ lit "..." else desc in
          match desc with
          | [] => None
          | _ => Some desc
          end
      end
  end.

(** The two patterns tried to find the definition of the class. *)
Definition class_or_struct_re (class_name : str) : regex :=
  Seqs [WordB; Grp 1 (Alt (Lit (lit "class")) (Lit (lit "struct")));
        Plus space; Lit class_name; WordB].
Definition struct_or_class_re (class_name : str) : regex :=
  Seqs [Grp 1 (Alt (Lit (lit "struct")) (Lit (lit "class")));
        Plus space; Lit class_name; WordB].

Definition find_definition (class_name content : str) : option (mstate * mstate) :=
  match search (class_or_struct_re class_name) content with
  | Some m => Some m
  | None => search (struct_or_class_re class_name) content
  end.

Definition method_line (method : str) : str :=
  lit "- `" ++ method ++ lit "()`".

Definition title (class_name : str) (has_cpp : bool) : str :=
  if has_cpp then lit "# " ++ class_name ++ lit ".cpp/h"
  else lit "# " ++ class_name ++ lit ".h".

(** What a pass of the loop over the nodes did to a node. *)
Inductive outcome : Type := NotText | Skipped | NotFound | Updated.

Definition count_outcome (o : outcome) (os : list outcome) : nat :=
  length (filter (fun o' =>
                    match o, o' with
                    | NotFound, NotFound => true
                    | Updated, Updated => true
                    | NotText, NotText => true
                    | Skipped, Skipped => true
                    | _, _ => false
                    end) os).

(** The pieces of the printed texts that are not ASCII, as UTF-8. *)
Definition warning_sign : str := map ascii_of_nat [226; 154; 160; 239; 184; 143].
Definition check_mark : str := map ascii_of_nat [226; 156; 147].
Definition done_mark : str := map ascii_of_nat [226; 156; 133].

Definition CANVAS_PATH (home : str) : str :=
  home ++ lit "/works/notes/Programming/videoTracker/videoTracker UML Diagram.canvas".

Definition warn_no_class (text : str) : str :=
  lit "  Warning: Could not extract class name from node: " ++ firstn 50 text ++ lit "...".

Definition warn_no_header (class_name : str) : str :=
  lit "  " ++ warning_sign ++ lit "  " ++ class_name ++
  lit ": Header file not found, using fallback description".

Definition say_processing (class_name : str) : str :=
  lit "  Processing " ++ class_name ++ lit "...".

Definition say_result (all_methods key_methods : list str) (description : str) : str :=
  match key_methods, description with
  | _ :: _, _ =>
      lit "    " ++ check_mark ++ lit " Found " ++ str_of_nat (length all_methods) ++
      lit " methods, selected " ++ str_of_nat (length key_methods) ++ lit " key methods"
  | [], _ :: _ =>
      lit "    " ++ check_mark ++ lit " Added description: " ++
      firstn 50 description ++ lit "..."
  | [], [] =>
      lit "    " ++ warning_sign ++ lit "  No methods or description found"
  end.

(** The run of a script whose loop body is [update_node]: the document
    written and the texts printed. *)
Definition run (update_node : node -> node * list str * outcome)
               (home : str) (c : canvas) : canvas * list str :=
  let results := map update_node (nodes c) in
  let outcomes := map snd results in
  let updated_count := count_outcome NotFound outcomes + count_outcome Updated outcomes in
  let not_found_count := count_outcome NotFound outcomes in
  (set_nodes (map (fun r => fst (fst r)) results) c,
   [lit "Reading canvas: " ++ CANVAS_PATH home;
    lit "Found " ++ str_of_nat (length (nodes c)) ++ lit " nodes"] ++
   flat_map (fun r => snd (fst r)) results ++
   [newline :: done_mark ++ lit " Canvas updated successfully!";
    lit "   Updated " ++ str_of_nat updated_count ++ lit " nodes";
    lit "   Files not found: " ++ str_of_nat not_found_count]).

End Shared.

(* ================================================================== *)
(** * update_all_nodes.py *)
(* ================================================================== *)

Module UpdateAllNodes.

Import Env Canvas Scanner Shared.

(** The paths [find_class_file] tries, in order.  In the branch for a
    mapped name without a directory, the loop over the sub-directories
    uses the extension left by the loop before it, [.hpp]. *)
Definition class_file_candidates (class_name : str) : list str :=
  (match lookup class_name CLASS_TO_FILE with
   | Some base_name =>
       if contains (lit "/") base_name
       then [join SRC_DIR (base_name ++ lit ".h")]
       else
         map (fun ext => join SRC_DIR (base_name ++ ext)) [lit ".h"; lit ".hpp"] ++
         map (fun subdir => join (join SRC_DIR subdir) (base_name ++ lit ".hpp")) subdirs
   | None => []
   end) ++
  map (fun ext => join SRC_DIR (class_name ++ ext)) [lit ".h"; lit ".hpp"] ++
  flat_map (fun subdir =>
              map (fun ext => join (join SRC_DIR subdir) (class_name ++ ext))
                  [lit ".h"; lit ".hpp"]) subdirs.

Definition find_class_file (fs : filesystem) (class_name : str) : option str :=
  first_existing fs (class_file_candidates class_name).

Definition cpp_file_candidates (class_name : str) : list str :=
  (match lookup class_name CLASS_TO_FILE with
   | Some base_name =>
       if contains (lit "/") base_name
       then [join SRC_DIR (replace (lit ".h") (lit ".cpp") base_name)]
       else
         join SRC_DIR (base_name ++ lit ".cpp") ::
         map (fun subdir => join (join SRC_DIR subdir) (base_name ++ lit ".cpp")) subdirs
   | None => []
   end) ++
  join SRC_DIR (class_name ++ lit ".cpp") ::
  map (fun subdir => join (join SRC_DIR subdir) (class_name ++ lit ".cpp")) subdirs.

Definition find_cpp_file (fs : filesystem) (class_name : str) : option str :=
  first_existing fs (cpp_file_candidates class_name).

Definition fallbacks : list (str * str) :=
  map (fun kv => (lit (fst kv), lit (snd kv)))
  [ ("EngineState", "Immutable snapshot of engine state for rendering");
    ("Engine", "Central headless core managing modules and execution");
    ("ConnectionManager", "Unified connection management for audio/video/parameters");
    ("ModuleRegistry", "Centralized storage and lookup for module instances");
    ("ModuleFactory", "Factory for creating module instances");
    ("ParameterRouter", "Routes parameter changes between modules");
    ("SessionManager", "Manages saving and loading application sessions");
    ("ProjectManager", "Manages project files and assets");
    ("PatternRuntime", "Runtime system for pattern evaluation");
    ("ScriptManager", "Generates and manages Lua scripts from state");
    ("Clock", "Central timing system for audio/video synchronization");
    ("CommandExecutor", "Executes commands with undo/redo support");
    ("AudioRouter", "Routes audio signals between modules");
    ("VideoRouter", "Routes video signals between modules");
    ("EventRouter", "Manages event subscriptions between modules");
    ("AssetLibrary", "Manages media assets and references");
    ("MediaConverter", "Converts between media formats");
    ("InputRouter", "Routes input events to modules");
    ("ExpressionParser", "Parses mathematical expressions");
    ("Oscilloscope", "Audio visualization module displaying waveform oscilloscope");
    ("Spectrogram", "Audio visualization module displaying frequency spectrum");
    ("MediaPlayer", "Module for playing audio and video media files");
    ("VoiceProcessor", "Processes individual voice instances in MultiSampler");
    ("AudioOutput", "Master audio output module routing to system audio");
    ("AudioMixer", "Mixes multiple audio signals into a single output");
    ("TrackerSequencer", "Pattern-based step sequencer for triggering modules");
    ("Sequencer", "Base class for sequencer modules");
    ("MultiSampler", "Multi-voice sampler instrument with polyphonic playback");
    ("VideoOutput", "Master video output module routing to display");
    ("VideoMixer", "Mixes multiple video signals into a single output");
    ("MenuBar", "Top menu bar with file operations and view controls");
    ("ClockGUI", "GUI panel for Clock timing controls");
    ("Console", "Command-line console interface for executing commands");
    ("ViewManager", "Manages visibility and layout of GUI panels");
    ("TrackerSequencerGUI", "GUI panel for TrackerSequencer module");
    ("CommandBar", "Command palette interface for quick command access");
    ("MultiSamplerGUI", "GUI panel for MultiSampler module");
    ("ofApp", "Main application class inheriting from ofBaseApp");
    ("Pattern", "Data structure representing a sequence pattern");
    ("PatternChain", "Chain of patterns with repeat counts and enabled states");
    ("VoiceManager", "Manages voice pool allocation and polyphony for MultiSampler");
    ("ParameterDescriptor", "Metadata descriptor for module parameters");
    ("Envelope", "ADSR envelope generator for audio synthesis");
    ("TriggerEvent", "Event data for discrete step triggers with parameters");
    ("Port", "Describes an input or output port on a module for routing");
    ("SampleRef", "Contains shared audio data and video path for efficient memory usage");
    ("Voice", "Represents an active playback instance in MultiSampler");
    ("ofBaseApp", "Base class from openFrameworks framework (external dependency)");
    ("Module", "Unified base class for all modules (sequencers, instruments, effects, utilities)");
    ("Shell", "Base class for different UI interaction modes");
    ("EditorShell", "Wraps existing ImGui-based editor interface with tiled windows");
    ("CommandShell", "Custom-rendered terminal interface with REPL (Hydra/Strudel style)");
    ("CodeShell", "Live-coding shell with code editor and REPL (Strudel/Tidal/Hydra style)");
    ("CLIShell", "Batch CLI mode for non-interactive command execution") ]%string.

Definition get_fallback_description (class_name : str) : str :=
  match lookup class_name fallbacks with
  | Some d => d
  | None => []
  end.

(** The part of [extract_class_description] that works on the text read:
    the comment is looked for in the 500 characters before the class. *)
Definition class_description (class_name content : str) : str :=
  match find_definition class_name content with
  | None => get_fallback_description class_name
  | Some m =>
      let start := before m in
      let before_class := skipn (length start - 500) start in
      match doc_description class_name before_class with
      | Some desc => desc
      | None => get_fallback_description class_name
      end
  end.

Definition extract_class_description (fs : filesystem) (header_path class_name : str)
  : str :=
  match fs header_path with
  | Missing => get_fallback_description class_name
  | Unreadable => get_fallback_description class_name
  | Readable content => class_description class_name content
  end.

(** The pattern that opens the class: a word boundary, [class], blanks, the
    name (group 1), optional blanks and the opening brace. *)
Definition class_open_re : regex :=
  Seqs [WordB; Lit (lit "class"); Plus space; Grp 1 (Plus word);
        Star true space; Chr "{"].

(** The public sections of a class body: from the end of each [public:] to
    the next [private:] or [protected:], or to the end of the body. *)
Definition public_sections (class_body : str) : list str :=
  map (fun m =>
         let rest := after m in
         match search private_re rest with
         | Some next_private => before next_private
         | None => rest
         end)
      (finditer public_re class_body).

(** The return types of the first method pattern: [bool], [void], [int],
    [float], or [std::] and a name, optionally with template arguments
    between angle brackets. *)
Definition return_type_re : regex :=
  Alt (Lit (lit "bool"))
   (Alt (Lit (lit "void"))
    (Alt (Lit (lit "int"))
     (Alt (Lit (lit "float"))
      (Seqs [Lit (lit "std::"); Plus word;
             Opt (Seqs [Star true space; Chr "<"; Star true space;
                        Plus (none_of (lit ">")); Star true space; Chr ">"])])))).

Definition pattern_with_type : regex :=
  Seqs ([WordB; Grp 1 return_type_re; Plus space; Grp 2 (Plus word)] ++
        params_re ++ [override_re; pure_re; one_of (lit ";{")]).

Definition pattern_direct : regex :=
  Seqs ([WordB; Grp 1 (Plus word)] ++ params_re ++
        [override_re; pure_re; one_of (lit ";{")]).

Definition section_methods (class_name public_section : str) (methods : list str)
  : list str :=
  let methods :=
    collect (fun _ name =>
               not_special name && negb (mem name EXCLUDE_METHODS)
               && negb (str_eqb name class_name))
            (map (group 2) (finditer pattern_with_type public_section)) methods in
  collect (fun _ name =>
             negb (mem name ([lit "~"; lit "operator"; lit "bool"; lit "void";
                              lit "int"; lit "float"; lit "string"; lit "std";
                              class_name]))
             && negb (mem name EXCLUDE_METHODS))
          (map (group 1) (finditer pattern_direct public_section)) methods.

Definition all_public_methods (content : str) : list str :=
  let content_no_comments := remove_comments_and_strings content in
  match search class_open_re content_no_comments with
  | None => []
  | Some class_match =>
      let class_name := match group 1 class_match with Some g => g | None => [] end in
      let class_body := brace_body (after class_match) in
      fold_left (fun methods section => section_methods class_name section methods)
                (public_sections class_body) []
  end.

Definition extract_all_public_methods (fs : filesystem) (header_path : str) : list str :=
  match fs header_path with
  | Missing => []
  | Unreadable => []
  | Readable content => all_public_methods content
  end.

Definition extract_struct_members := Shared.extract_struct_members.
Definition get_key_interaction_methods := Shared.get_key_interaction_methods.

Definition format_node_text (class_name : str) (methods : list str)
                            (has_cpp : bool) (description : str) : str :=
  let description :=
    match description with
    | [] => get_fallback_description class_name
    | _ => description
    end in
  let lines := [title class_name has_cpp; []] in
  let lines :=
    match description with
    | [] => lines
    | _ => lines ++ [lit "*" ++ description ++ lit "*"]
    end in
  let lines := lines ++ [[]] in
  join_lines (lines ++ map method_line methods).

(** The third way to read a class name: the first line, stripped, without
    its markers. *)
Definition bare_name (text : str) : str :=
  strip (replace (lit "#") []
          (replace (lit ".cpp") []
            (replace (lit ".cpp/h") []
              (replace (lit ".h") []
                (replace (lit " (abstract)") [] (first_line text)))))).

(** The class name read from the text of a node: the title pattern, then
    the name between asterisks, then the bare name. *)
Definition class_name_of (text : str) : str :=
  match search_group 1 title_re text with
  | Some name => name
  | None =>
      match search_group 1 starred_re text with
      | Some name => name
      | None => bare_name text
      end
  end.

(** The text written into a node whose class name is [class_name], for a
    header that was found. *)
Definition text_from_header (fs : filesystem) (class_name header_path : str)
  : str * (list str * list str * str) :=
  let has_cpp := match find_cpp_file fs class_name with Some _ => true | None => false end in
  let all_methods :=
    if mem class_name struct_names
    then extract_struct_members fs header_path class_name
    else extract_all_public_methods fs header_path in
  let key_methods := get_key_interaction_methods class_name all_methods in
  let description := extract_class_description fs header_path class_name in
  let description :=
    match description with
    | [] => get_fallback_description class_name
    | _ => description
    end in
  (format_node_text class_name key_methods has_cpp description,
   (all_methods, key_methods, description)).

(** The body of the loop [for node in nodes]. *)
Definition update_node (fs : filesystem) (n : node) : node * list str * outcome :=
  if negb (is_text n) then (n, [], NotText)
  else
    let text := strip (text_of n) in
    match class_name_of text with
    | [] => (n, [warn_no_class text], Skipped)
    | class_name =>
        match find_class_file fs class_name with
        | None =>
            let description := get_fallback_description class_name in
            (set_text (format_node_text class_name [] false description) n,
             [warn_no_header class_name], NotFound)
        | Some header_path =>
            let '(new_text, (all_methods, key_methods, description)) :=
              text_from_header fs class_name header_path in
            (set_text new_text n,
             [say_processing class_name; say_result all_methods key_methods description],
             Updated)
        end
    end.

Definition update_all_nodes (home : str) (fs : filesystem) (c : canvas)
  : canvas * list str :=
  run (update_node fs) home c.

End UpdateAllNodes.

(* ================================================================== *)
(** * update_node_titles.py *)
(* ================================================================== *)

Module UpdateNodeTitles.

Import Env Canvas Scanner Shared.

(** [class_name[0].lower() + class_name[1:]], or the empty text for an empty
    name. *)
Definition lower_first (class_name : str) : str :=
  match class_name with
  | [] => []
  | c :: rest => lower_char c :: rest
  end.

(** The paths [find_class_file] tries, in order. *)
Definition class_file_candidates (class_name : str) : list str :=
  (match lookup class_name CLASS_TO_FILE with
   | Some base_name =>
       if contains (lit "/") base_name
       then [join SRC_DIR (base_name ++ lit ".h")]
       else
         map (fun ext => join SRC_DIR (base_name ++ ext)) [lit ".h"; lit ".hpp"] ++
         map (fun subdir => join (join SRC_DIR subdir) (base_name ++ lit ".hpp")) subdirs
   | None => []
   end) ++
  map (fun ext => join SRC_DIR (class_name ++ ext)) [lit ".h"; lit ".hpp"] ++
  flat_map (fun subdir =>
              map (fun ext => join (join SRC_DIR subdir) (class_name ++ ext))
                  [lit ".h"; lit ".hpp"]) subdirs ++
  flat_map (fun variant =>
              flat_map (fun subdir =>
                          map (fun ext => join (join SRC_DIR subdir) (variant ++ ext))
                              [lit ".h"; lit ".hpp"]) subdirs)
           [class_name; lower class_name; lower_first class_name].

Definition find_class_file (fs : filesystem) (class_name : str) : option str :=
  first_existing fs (class_file_candidates class_name).

Definition cpp_file_candidates (class_name : str) : list str :=
  (match lookup class_name CLASS_TO_FILE with
   | Some base_name =>
       join SRC_DIR (base_name ++ lit ".cpp") ::
       map (fun subdir => join (join SRC_DIR subdir) (base_name ++ lit ".cpp")) subdirs
   | None => []
   end) ++
  join SRC_DIR (class_name ++ lit ".cpp") ::
  map (fun subdir => join (join SRC_DIR subdir) (class_name ++ lit ".cpp")) subdirs.

Definition find_cpp_file (fs : filesystem) (class_name : str) : option str :=
  first_existing fs (cpp_file_candidates class_name).

Definition extract_struct_members := Shared.extract_struct_members.
Definition get_key_interaction_methods := Shared.get_key_interaction_methods.

(** The name of the class a line belongs to: the nearest line, from the
    current one backwards, that matches [\bclass\s+(\w+)]. *)
Definition class_name_re : regex :=
  Seqs [WordB; Lit (lit "class"); Plus space; Grp 1 (Plus word)].

Fixpoint enclosing_class (seen : list str) : option str :=
  match seen with
  | [] => None
  | line :: earlier =>
      match search class_name_re line with
      | Some m => group 1 m
      | None => enclosing_class earlier
      end
  end.

(** The simplified method pattern of [extract_all_public_methods]. *)
Definition method_re : regex :=
  Seqs ([WordB; Grp 1 (Plus word)] ++ params_re ++ [pure_re; one_of (lit ";{")]).

Definition harvest_all (seen : list str) (methods : list str) : list str :=
  match seen with
  | [] => methods
  | line :: _ =>
      match search_group 1 method_re line with
      | Some method_name =>
          if negb (str_eqb method_name []) && not_special method_name
             && negb (mem method_name EXCLUDE_METHODS)
          then
            match enclosing_class seen with
            | Some class_name =>
                if negb (str_eqb class_name []) && str_eqb method_name class_name
                then methods
                else if mem method_name methods then methods
                else methods ++ [method_name]
            | None =>
                if mem method_name methods then methods else methods ++ [method_name]
            end
          else methods
      | None => methods
      end
  end.

Definition all_public_methods (content : str) : list str :=
  scan_lines harvest_all (split_on newline (remove_comments_and_strings content)).

Definition extract_all_public_methods (fs : filesystem) (header_path : str) : list str :=
  match fs header_path with
  | Missing => []
  | Unreadable => []
  | Readable content => all_public_methods content
  end.

(** The list [method_patterns] of [extract_public_methods].  Group 1 is the
    return type, group 2 the name. *)
Definition type_re : regex :=
  Seqs [Plus word;
        Star true (Seqs [Star true space; Lit (lit "::"); Star true space; Plus word]);
        Star true (Seq (Star true space)
                       (Cls (fun c => existsb (Ascii.eqb c) (lit "*&<>,") || is_space c)))].

Definition std_type_re : regex :=
  Seqs [Lit (lit "std::"); Plus word;
        Opt (Seqs [Star true space; Chr "<"; Star true space;
                   Plus (none_of (lit ">")); Star true space; Chr ">"]);
        Opt (Seq (Star true space) (one_of (lit "*&")))].

Definition declared (ret : regex) : regex :=
  Seqs ([Grp 1 ret; Plus space; Grp 2 (Plus word)] ++ params_re ++ [pure_re; Chr ";"]).

Definition inlined (ret : regex) : regex :=
  Seqs ([Grp 1 ret; Plus space; Grp 2 (Plus word)] ++ params_re ++
        [Star true space; Chr "{"]).

Definition method_patterns : list regex :=
  [declared type_re; inlined type_re;
   declared std_type_re; inlined std_type_re;
   declared (Lit (lit "void")); inlined (Lit (lit "void"))].

(** The first pattern of the list that matches the line decides. *)
Fixpoint first_match (patterns : list regex) (line : str) : option (mstate * mstate) :=
  match patterns with
  | [] => None
  | r :: rest =>
      match search r line with
      | Some m => Some m
      | None => first_match rest line
      end
  end.

Definition harvest_public (seen : list str) (methods : list str) : list str :=
  match seen with
  | [] => methods
  | line :: _ =>
      match first_match method_patterns line with
      | Some m =>
          match group 2 m with
          | Some method_name =>
              if negb (str_eqb method_name [])
                 && negb (mem method_name [lit "~"; lit "operator"; lit "ConnectionManager"])
                 && any_in INTERACTION_KEYWORDS (lower method_name)
                 && negb (mem method_name EXCLUDE_METHODS)
                 && negb (mem method_name methods)
              then methods ++ [method_name]
              else methods
          | None => methods
          end
      | None => methods
      end
  end.

Definition scan_header (content : str) : list str :=
  scan_lines harvest_public (split_on newline (remove_comments_and_strings content)).

Definition extract_public_methods (fs : filesystem) (header_path : str) : list str :=
  match fs header_path with
  | Missing => []
  | Unreadable => []
  | Readable content => scan_header content
  end.

Definition fallbacks : list (str * str) :=
  map (fun kv => (lit (fst kv), lit (snd kv)))
  [ ("EngineState", "Immutable snapshot of engine state for rendering");
    ("Engine", "Central headless core managing modules and execution");
    ("ConnectionManager", "Unified connection management for audio/video/parameters");
    ("ModuleRegistry", "Centralized storage and lookup for module instances");
    ("ModuleFactory", "Factory for creating module instances");
    ("ParameterRouter", "Routes parameter changes between modules");
    ("SessionManager", "Manages saving and loading application sessions");
    ("ProjectManager", "Manages project files and assets");
    ("PatternRuntime", "Runtime system for pattern evaluation");
    ("ScriptManager", "Generates and manages Lua scripts from state");
    ("Clock", "Central timing system for audio/video synchronization");
    ("CommandExecutor", "Executes commands with undo/redo support");
    ("AudioRouter", "Routes audio signals between modules");
    ("VideoRouter", "Routes video signals between modules");
    ("EventRouter", "Manages event subscriptions between modules");
    ("AssetLibrary", "Manages media assets and references");
    ("MediaConverter", "Converts between media formats");
    ("InputRouter", "Routes input events to modules");
    ("ExpressionParser", "Parses mathematical expressions");
    ("TriggerEvent", "Event data for discrete step triggers with parameters");
    ("Port", "Describes an input or output port on a module for routing");
    ("SampleRef", "Contains shared audio data and video path for efficient memory usage");
    ("Voice", "Represents an active playback instance in MultiSampler");
    ("ofBaseApp", "Base class from openFrameworks framework (external dependency)") ]%string.

Definition get_fallback_description (class_name : str) : str :=
  match lookup class_name fallbacks with
  | Some d => d
  | None => []
  end.

(** The part of [extract_class_description] that works on the text read:
    the comment is looked for in all the text before the class. *)
Definition class_description (class_name content : str) : str :=
  match find_definition class_name content with
  | None => get_fallback_description class_name
  | Some m =>
      match doc_description class_name (before m) with
      | Some desc => desc
      | None => get_fallback_description class_name
      end
  end.

Definition extract_class_description (fs : filesystem) (header_path class_name : str)
  : str :=
  match fs header_path with
  | Missing => get_fallback_description class_name
  | Unreadable => get_fallback_description class_name
  | Readable content => class_description class_name content
  end.

Definition format_node_text (class_name : str) (methods : list str)
                            (has_cpp : bool) (description : str) : str :=
  let lines := [title class_name has_cpp; []] in
  let lines :=
    match description, methods with
    | _ :: _, _ => lines ++ [lit "*" ++ description ++ lit "*"; []]
    | [], [] => lines ++ [lit "*(Class definition found)*"; []]
    | [], _ :: _ => lines
    end in
  let lines :=
    match methods, description with
    | _ :: _, _ => lines ++ lit "**Key Methods:**" :: map method_line methods
    | [], [] => lines ++ [lit "*(No public methods found)*"]
    | [], _ :: _ => lines
    end in
  join_lines lines.

(** The third way to read a class name: the first line, stripped, without
    its markers. *)
Definition bare_name (text : str) : str :=
  strip (replace (lit ".cpp") []
          (replace (lit ".cpp/h") []
            (replace (lit ".h") []
              (replace (lit " (abstract)") [] (first_line text))))).

(** The class name read from the text of a node: the title pattern, then
    the name between asterisks, then the bare name. *)
Definition class_name_of (text : str) : str :=
  match search_group 1 title_re text with
  | Some name => name
  | None =>
      match search_group 1 starred_re text with
      | Some name => name
      | None => bare_name text
      end
  end.

Definition text_from_header (fs : filesystem) (class_name header_path : str)
  : str * (list str * list str * str) :=
  let has_cpp := match find_cpp_file fs class_name with Some _ => true | None => false end in
  let all_methods :=
    if mem class_name struct_names
    then extract_struct_members fs header_path class_name
    else extract_all_public_methods fs header_path in
  let key_methods := get_key_interaction_methods class_name all_methods in
  let description := extract_class_description fs header_path class_name in
  (format_node_text class_name key_methods has_cpp description,
   (all_methods, key_methods, description)).

(** The body of the loop [for node in nodes] of [main]. *)
Definition update_node (fs : filesystem) (n : node) : node * list str * outcome :=
  if negb (is_text n) then (n, [], NotText)
  else
    let text := strip (text_of n) in
    match class_name_of text with
    | [] => (n, [warn_no_class text], Skipped)
    | class_name =>
        match find_class_file fs class_name with
        | None =>
            let description := get_fallback_description class_name in
            (set_text (format_node_text class_name [] false description) n,
             [warn_no_header class_name], NotFound)
        | Some header_path =>
            let '(new_text, (all_methods, key_methods, description)) :=
              text_from_header fs class_name header_path in
            (set_text new_text n,
             [say_processing class_name; say_result all_methods key_methods description],
             Updated)
        end
    end.

Definition main (home : str) (fs : filesystem) (c : canvas) : canvas * list str :=
  run (update_node fs) home c.

End UpdateNodeTitles.

(* ================================================================== *)
(** * generate_uml_canvas.py: the classes and their layout *)
(* ================================================================== *)

Module GenerateUmlCanvas.

Record layer_info : Type := LayerInfo {
  classes_of : list str;
  layer_x : Z;
  layer_y : Z;
  layer_color : str;
  layer_label : str
}.

Definition UML_LAYERS : list (str * layer_info) :=
  [ (lit "application",
     LayerInfo (map lit ["ofApp"; "ofBaseApp"]%string) 0 0
               (lit "#95A5A6") (lit "Application Layer"));
    (lit "core_systems",
     LayerInfo (map lit ["Clock"; "ModuleFactory"; "ModuleRegistry";
                         "ConnectionManager"; "ParameterRouter"; "SessionManager";
                         "ProjectManager"; "AudioRouter"; "VideoRouter";
                         "EventRouter"; "CommandExecutor"; "Engine"; "EngineState";
                         "PatternRuntime"; "ScriptManager"]%string) 800 0
               (lit "#4A90E2") (lit "Core Systems"));
    (lit "module_base",
     LayerInfo (map lit ["Module"]%string) 1600 0 (lit "#50C878") (lit "Module Base"));
    (lit "modules",
     LayerInfo (map lit ["TrackerSequencer"; "MultiSampler"; "MediaPlayer";
                         "VoiceProcessor"; "AudioMixer"; "VideoMixer"; "AudioOutput";
                         "VideoOutput"; "Oscilloscope"; "Spectrogram"]%string) 2400 0
               (lit "#50C878") (lit "Modules"));
    (lit "gui_base",
     LayerInfo (map lit ["ModuleGUI"]%string) 3200 0 (lit "#FF6B6B") (lit "GUI Base"));
    (lit "gui_classes",
     LayerInfo (map lit ["GUIManager"; "ViewManager"; "TrackerSequencerGUI";
                         "MultiSamplerGUI"; "AudioMixerGUI"; "VideoMixerGUI";
                         "AudioOutputGUI"; "VideoOutputGUI"; "OscilloscopeGUI";
                         "SpectrogramGUI"; "ClockGUI"; "MenuBar"; "Console";
                         "CommandBar"; "FileBrowser"; "AssetLibraryGUI";
                         "AddMenu"]%string) 4000 0
               (lit "#FF6B6B") (lit "GUI Classes"));
    (lit "cell_system",
     LayerInfo (map lit ["BaseCell"; "NumCell"; "BoolCell"; "MenuCell";
                         "ParameterCell"; "CellGrid"]%string) 4800 0
               (lit "#FFA500") (lit "Cell System"));
    (lit "data_structures",
     LayerInfo (map lit ["Pattern"; "PatternChain"; "SampleRef"; "Voice";
                         "ParameterDescriptor"; "Port"; "TriggerEvent"; "Envelope";
                         "VoiceManager"]%string) 5600 0
               (lit "#7B68EE") (lit "Data Structures"));
    (lit "utilities",
     LayerInfo (map lit ["AssetLibrary"; "MediaConverter"; "InputRouter";
                         "ExpressionParser"]%string) 6400 0
               (lit "#9B59B6") (lit "Utilities")) ]%Z.

(** Child to parent; [None] is Python's [None]. *)
Definition INHERITANCE : list (str * option str) :=
  map (fun kv => (lit (fst kv), option_map lit (snd kv)))
  [ ("ofApp", Some "ofBaseApp");
    ("TrackerSequencer", Some "Module");
    ("MultiSampler", Some "Module");
    ("AudioMixer", Some "Module");
    ("VideoMixer", Some "Module");
    ("AudioOutput", Some "Module");
    ("VideoOutput", Some "Module");
    ("Oscilloscope", Some "Module");
    ("Spectrogram", Some "Module");
    ("MediaPlayer", None);
    ("VoiceProcessor", Some "ofxSoundObject");
    ("TrackerSequencerGUI", Some "ModuleGUI");
    ("MultiSamplerGUI", Some "ModuleGUI");
    ("AudioMixerGUI", Some "ModuleGUI");
    ("VideoMixerGUI", Some "ModuleGUI");
    ("AudioOutputGUI", Some "ModuleGUI");
    ("VideoOutputGUI", Some "ModuleGUI");
    ("OscilloscopeGUI", Some "ModuleGUI");
    ("SpectrogramGUI", Some "ModuleGUI");
    ("NumCell", Some "BaseCell");
    ("BoolCell", Some "BaseCell");
    ("MenuCell", Some "BaseCell");
    ("Clock", Some "ofxSoundOutput") ]%string.

Definition NODE_SPACING_Y : Z := 150.
Definition LAYER_HEADER_HEIGHT : Z := 120.

Record UMLClass : Type := Class {
  name : str;
  class_id : str;                 (* the attribute node_id *)
  layer : str;
  is_abstract : bool;
  x : Z;
  y : Z;
  parent_class : option str;
  children : list str
}.

Definition set_position (px py : Z) (c : UMLClass) : UMLClass :=
  Class (name c) (class_id c) (layer c) (is_abstract c) px py
        (parent_class c) (children c).

(** [_find_layer] *)
Fixpoint find_layer_in (layers : list (str * layer_info)) (class_name : str) : str :=
  match layers with
  | [] => lit "utilities"
  | (layer_name, info) :: rest =>
      if mem class_name (classes_of info) then layer_name
      else find_layer_in rest class_name
  end.

Definition find_layer (class_name : str) : str := find_layer_in UML_LAYERS class_name.

Definition abstract_classes : list str :=
  map lit ["Module"; "ModuleGUI"; "BaseCell"; "ofBaseApp"]%string.

(** [UMLClass(name)], with the identifier [fresh_id] drawn for it. *)
Definition new_class (fresh_id : str) (class_name : str) : UMLClass :=
  Class class_name (lit "class-" ++ fresh_id) (find_layer class_name)
        (mem class_name abstract_classes) 0 0
        (match lookup class_name INHERITANCE with
         | Some parent => parent
         | None => None
         end)
        [].

(** The same record for every layer that [UML_LAYERS] does not hold:
    [UML_LAYERS.get(layer_name, {})] and then [.get("x", 0)], [.get("y", 0)]. *)
Definition x_base (layer_name : str) : Z :=
  match lookup layer_name UML_LAYERS with
  | Some info => layer_x info
  | None => 0
  end.

Definition y_base (layer_name : str) : Z :=
  (match lookup layer_name UML_LAYERS with
   | Some info => layer_y info
   | None => 0
   end + LAYER_HEADER_HEIGHT)%Z.

(** The sort key [(not c.is_abstract, c.name)] and the order of Python on
    such pairs: [False] before [True], then the order of strings. *)
Definition key_leb (a b : UMLClass) : bool :=
  match is_abstract a, is_abstract b with
  | true, false => true
  | false, true => false
  | _, _ => str_leb (name a) (name b)
  end.

(** [list.sort(key=...)] is stable: an element stays before the later
    elements with an equal key. *)
Section Sort.

Variable T : Type.
Variable leb : T -> T -> bool.

Fixpoint insert_sorted (a : T) (l : list T) : list T :=
  match l with
  | [] => [a]
  | b :: rest => if leb a b then a :: l else b :: insert_sorted a rest
  end.

Fixpoint stable_sort (l : list T) : list T :=
  match l with
  | [] => []
  | a :: rest => insert_sorted a (stable_sort rest)
  end.

End Sort.

(** The objects of the dictionary are told apart by their place in
    [classes.values()]; every key of the dictionary holds an object of its
    own, as [parse_class_definitions] builds them. *)
Definition obj : Type := (nat * UMLClass)%type.

(** [by_layer[cls.layer].append(cls)] on a [defaultdict(list)]. *)
Fixpoint push (o : obj) (groups : list (str * list obj)) : list (str * list obj) :=
  match groups with
  | [] => [(layer (snd o), [o])]
  | (l, g) :: rest =>
      if str_eqb (layer (snd o)) l then (l, g ++ [o]) :: rest
      else (l, g) :: push o rest
  end.

Definition by_layer (objs : list obj) : list (str * list obj) :=
  fold_left (fun groups o => push o groups) objs [].

(** [for i, cls in enumerate(layer_classes)]: the position given to each
    object of a sorted layer, [i] being the place of the first one. *)
Fixpoint place (layer_name : str) (i : nat) (sorted : list obj) : list (nat * (Z * Z)) :=
  match sorted with
  | [] => []
  | (ident, _) :: rest =>
      (ident, (x_base layer_name, y_base layer_name + Z.of_nat i * NODE_SPACING_Y)%Z)
      :: place layer_name (S i) rest
  end.

Definition sort_layer (layer_classes : list obj) : list obj :=
  stable_sort (fun a b => key_leb (snd a) (snd b)) layer_classes.

Definition place_layer (group : str * list obj) : list (nat * (Z * Z)) :=
  place (fst group) 0 (sort_layer (snd group)).

Fixpoint position_of (ident : nat) (placed : list (nat * (Z * Z))) : option (Z * Z) :=
  match placed with
  | [] => None
  | (i, p) :: rest => if Nat.eqb ident i then Some p else position_of ident rest
  end.

Definition objects (classes : list (str * UMLClass)) : list obj :=
  combine (seq 0 (length classes)) (map snd classes).

(** The dictionary after [layout_classes(classes)]: the same keys, every
    object with the position the loop wrote into it. *)
Definition layout_classes (classes : list (str * UMLClass)) : list (str * UMLClass) :=
  let placed := flat_map place_layer (by_layer (objects classes)) in
  map (fun entry =>
         let '(ident, (key, c)) := entry in
         match position_of ident placed with
         | Some (px, py) => (key, set_position px py c)
         | None => (key, c)
         end)
      (combine (seq 0 (length classes)) classes).

(** [parse_class_definitions]: [set_iter] is the order in which Python
    iterates over the set [all_classes], [ids k] the identifier drawn for
    the k-th object. *)
Definition all_class_names : list str :=
  flat_map (fun l => classes_of (snd l)) UML_LAYERS ++ map fst INHERITANCE.

Fixpoint dedup (seen : list str) (names : list str) : list str :=
  match names with
  | [] => []
  | n :: rest => if mem n seen then dedup seen rest else n :: dedup (n :: seen) rest
  end.

Fixpoint make_classes (ids : nat -> str) (k : nat) (names : list str)
  : list (str * UMLClass) :=
  match names with
  | [] => []
  | n :: rest => (n, new_class (ids k) n) :: make_classes ids (S k) rest
  end.

Definition add_child (parent child : str) (classes : list (str * UMLClass))
  : list (str * UMLClass) :=
  map (fun entry =>
         let '(key, c) := entry in
         if str_eqb key parent
         then (key, Class (name c) (class_id c) (layer c) (is_abstract c) (x c) (y c)
                          (parent_class c) (children c ++ [child]))
         else (key, c))
      classes.

Definition set_parent (child parent : str) (classes : list (str * UMLClass))
  : list (str * UMLClass) :=
  map (fun entry =>
         let '(key, c) := entry in
         if str_eqb key child
         then (key, Class (name c) (class_id c) (layer c) (is_abstract c) (x c) (y c)
                          (Some parent) (children c))
         else (key, c))
      classes.

Definition link (classes : list (str * UMLClass)) (rel : str * option str)
  : list (str * UMLClass) :=
  match rel with
  | (child, Some parent) =>
      if negb (str_eqb parent []) && mem child (map fst classes)
      then add_child parent child (set_parent child parent classes)
      else classes
  | (_, None) => classes
  end.

Definition parse_class_definitions (set_iter : list str -> list str) (ids : nat -> str)
  : list (str * UMLClass) :=
  fold_left link INHERITANCE
            (make_classes ids 0 (set_iter (dedup [] all_class_names))).

Definition CLASS_NODE_WIDTH : Z := 280.
Definition CLASS_NODE_HEIGHT : Z := 100.
Definition ABSTRACT_NODE_WIDTH : Z := 300.
Definition ABSTRACT_NODE_HEIGHT : Z := 120.

(** [get_display_text] *)
Definition get_display_text (c : UMLClass) : str :=
  if is_abstract c
  then lit "*" ++ name c ++ lit "*" ++ newline :: lit "(abstract)"
  else name c.

(** [s.isdigit()] for a text in ASCII: not empty, digits only. *)
Definition isdigit (s : str) : bool :=
  match s with
  | [] => false
  | _ => forallb is_digit s
  end.

(** The key [color] of a node, from the colour of its layer: absent for
    the empty text; the text itself when it is made of digits, and 1
    otherwise. *)
Definition color_of (color : str) : option str :=
  match color with
  | [] => None
  | _ => Some (if isdigit color then color else lit "1")
  end.

(** The header of a layer. *)
Definition header_node (entry : str * layer_info) : Canvas.node :=
  let '(layer_name, info) := entry in
  Canvas.Node (lit "header-" ++ layer_name) (lit "text")
              (Some (lit "**" ++ layer_label info ++ lit "**"))
              (layer_x info) (layer_y info) 300 80
              (color_of (layer_color info)) None.

(** The node of a class; the colour of a layer that [UML_LAYERS] does not
    hold is 1. *)
Definition class_node (c : UMLClass) : Canvas.node :=
  Canvas.Node (class_id c) (lit "text") (Some (get_display_text c))
              (x c) (y c)
              (if is_abstract c then ABSTRACT_NODE_WIDTH else CLASS_NODE_WIDTH)
              (if is_abstract c then ABSTRACT_NODE_HEIGHT else CLASS_NODE_HEIGHT)
              (color_of (match lookup (layer c) UML_LAYERS with
                         | Some info => layer_color info
                         | None => lit "1"
                         end))
              None.

(** [create_canvas_json], with [GENERATE_EDGES] false as the script sets
    it: the document and the two lines printed. *)
Definition create_canvas_json (classes : list (str * UMLClass))
  : Canvas.canvas * list str :=
  (Canvas.Doc (map header_node UML_LAYERS ++ map (fun entry => class_node (snd entry)) classes)
              [] None,
   [lit "   (Edges disabled - Advanced Canvas doesn't support programmatic edges)";
    lit "   You can add edges manually in Obsidian by connecting nodes"]).

(** The document that [main] writes ([USE_GROUPS] is false): the classes
    are parsed, laid out and turned into nodes. *)
Definition main_document (set_iter : list str -> list str) (ids : nat -> str)
  : Canvas.canvas :=
  fst (create_canvas_json (layout_classes (parse_class_definitions set_iter ids))).

End GenerateUmlCanvas.

(* ================================================================== *)
(** * The properties, as predicates on the embedding *)
(* ================================================================== *)

Module Props.

Import Env Canvas Scanner.

(** The nodes [added] were created by the run: the k-th one carries the
    k-th fresh identifier and is a text node. *)
Definition created_by (ids : nat -> str) (added : list node) : Prop :=
  forall k n, nth_error added k = Some n ->
    node_id n = ids k /\ is_text n = true.

(** [out] is [loaded] followed by [added]. *)
Definition extends_by (loaded added out : list node) : Prop :=
  out = loaded ++ added /\
  length out = length loaded + length added /\
  firstn (length loaded) out = loaded.

(** A header that is not there or cannot be read. *)
Definition unavailable (fs : filesystem) (path : str) : Prop :=
  fs path = Missing \/ fs path = Unreadable.

(** Two nodes that differ at most in their text. *)
Definition same_but_text (a b : node) : Prop :=
  node_id a = node_id b /\ node_type a = node_type b /\
  node_x a = node_x b /\ node_y a = node_y b /\
  node_width a = node_width b /\ node_height a = node_height b /\
  node_color a = node_color b /\ node_style a = node_style b.

(** Every node of [loaded] is still there in [out], at its place, mutated at
    most in its text. *)
Definition nodes_kept (loaded out : list node) : Prop :=
  length loaded <= length out /\
  forall i n, nth_error loaded i = Some n ->
    exists n', nth_error out i = Some n' /\ same_but_text n n'.

Definition edges_kept (loaded out : list edge) : Prop :=
  forall e, In e loaded -> In e out.




Definition all_word (s : str) : Prop := Forall (fun c => is_word c = true) s.





(** The text ahead does not go on with a character of the class. *)
Definition stops (p : ascii -> bool) (rest : str) : Prop :=
  match rest with
  | [] => True
  | c :: _ => p c = false
  end.

Definition infix (v text : str) : Prop := exists a b, text = a ++ v ++ b.

Definition whole_text (st : mstate) : str := rev (passed st) ++ ahead st.

(** [st1] is [st] moved forward over the characters [x]. *)
Definition forward (st st1 : mstate) : Prop :=
  exists x, passed st1 = rev x ++ passed st /\ ahead st = x ++ ahead st1.

(** The groups of [st1] are those of [st] or pieces of the text. *)
Definition groups_from (st st1 : mstate) : Prop :=
  forall n v, In (n, v) (groups st1) ->
    In (n, v) (groups st) \/ infix v (whole_text st).

Definition reaches (st st1 : mstate) : Prop := forward st st1 /\ groups_from st st1.

(** A successful match went through its continuation, from a state that the
    pattern reached. *)
Definition passes_on (body : mstate -> cont -> option mstate) : Prop :=
  forall st k e, body st k = Some e ->
    exists st1, reaches st st1 /\ k st1 = Some e.




Definition has_layer (layer_name : str) (o : GenerateUmlCanvas.obj) : bool :=
  str_eqb (GenerateUmlCanvas.layer (snd o)) layer_name.

Definition group_of (layer_name : str) (groups : list (str * list GenerateUmlCanvas.obj))
  : list GenerateUmlCanvas.obj :=
  match lookup layer_name groups with
  | Some g => g
  | None => []
  end.



Definition agrees_with (big : list (str * str)) (kv : str * str) : bool :=
  match lookup (fst kv) big with
  | Some v => str_eqb v (snd kv)
  | None => false
  end.

Definition shell_names : list str := map fst AddShellNodes.SHELL_CLASSES.

End Props.

(* ================================================================== *)
(** * Concrete inputs *)
(* ================================================================== *)

Module Samples.

Import Env Canvas.

Definition no_files : filesystem := fun _ => Missing.

(** A document with two nodes and one edge between them. *)
Definition linked_doc : canvas :=
  Doc [Node (lit "a") (lit "text") (Some (lit "# ofApp.h")) 0 0 260 60 None None;
       Node (lit "b") (lit "text") (Some (lit "# ofBaseApp.h")) 0 200 260 60 None None]
      [Edge (lit "e") (lit "a") (lit "top") (lit "b") (lit "bottom") (Some (lit "2"))]
      None.

(** A document whose second node has a text without a class name. *)
Definition nameless_doc : canvas :=
  Doc [Node (lit "a") (lit "text") (Some (lit "# ofApp.h")) 0 0 260 60 None None;
       Node (lit "b") (lit "text") (Some (lit "  .h ")) 0 200 260 60 None None]
      [] None.

(** A header with a public and a private section. *)
Definition sample_header : str :=
  lit "class CodeShell : public Shell {
public:
    void setup() override;
    // void gone();
private:
    void secret();
};
void outside();
".

Definition sample_files : filesystem := fun _ => Readable sample_header.

(** A header whose first class is closed on the line that opens it. *)
Definition one_line_class_header : str :=
  lit "class Tag {};
struct Data {
public:
    void touch();
};
".

(** A header whose public method has a default argument, a string that
    holds the mark that opens a block comment; the line of the private
    section carries a block comment. *)
Definition glob_header : str :=
  lit "class Player {
public:
    void load(const char* path = " ++ Scanner.dquote :: lit "samples/*.wav" ++
  Scanner.dquote :: lit ");
private:  /* internals */
    void secret();
};
".

(** A header whose class declares a constructor. *)
Definition constructor_header : str :=
  lit "class Tag {
public:
    Tag();
    void touch();
    bool connectTo(int id);
};
".

End Samples.

(* ================================================================== *)
(** * Further properties of the scripts, as predicates *)
(* ================================================================== *)

Module MoreProps.

Import Env Canvas Scanner Props.

(** A pattern without a capturing group. *)
Fixpoint group_free (r : regex) : bool :=
  match r with
  | Eps => true
  | Cls _ => true
  | Seq r1 r2 => group_free r1 && group_free r2
  | Alt r1 r2 => group_free r1 && group_free r2
  | Star _ r1 => group_free r1
  | Grp _ _ => false
  | WordB => true
  | Eol => true
  end.

(** A successful match went through its continuation with the groups it
    started with. *)
Definition keeps_groups (body : mstate -> cont -> option mstate) : Prop :=
  forall st k e, body st k = Some e ->
    exists st1, groups st1 = groups st /\ k st1 = Some e.

(** A successful match went through its continuation after it passed the
    characters [x], all of the class [p], with the groups it started with. *)
Definition eats (p : ascii -> bool) (body : mstate -> cont -> option mstate) : Prop :=
  forall st k e, body st k = Some e ->
    exists st1 x,
      Forall (fun c => p c = true) x /\ ahead st = x ++ ahead st1 /\
      groups st1 = groups st /\ k st1 = Some e.

(** A non-empty text of word characters. *)
Definition identifier (s : str) : Prop := s <> [] /\ all_word s.

(** A class name is missing (the empty text) or an identifier. *)
Definition named_or_nameless (class_name : str) : Prop :=
  class_name = [] \/ identifier class_name.

(** The text that [create_missing_node] of [update_existing_canvas.py]
    gives to the node of a class. *)
Definition missing_text (class_name : str) : str :=
  if mem class_name UpdateExistingCanvas.abstract_classes
  then lit "*" ++ class_name ++ lit "*" ++ newline :: lit "(abstract)"
  else class_name.

(** The name under which a later run of [update_existing_canvas.py] finds
    the node made for a class. *)
Definition found_as (class_name : str) : str :=
  UpdateExistingCanvas.clean_name (strip (missing_text class_name)).

(** An iteration order of sets: the elements are those of the set. *)
Definition keeps_elements (set_iter : list str -> list str) : Prop :=
  forall l x, In x (set_iter l) <-> In x l.



(** Every capturing group with the number [n] in the pattern is a run of
    word characters. *)
Fixpoint names_group (n : nat) (r : regex) : Prop :=
  match r with
  | Seq r1 r2 => names_group n r1 /\ names_group n r2
  | Alt r1 r2 => names_group n r1 /\ names_group n r2
  | Star _ r1 => names_group n r1
  | Grp i r1 => if Nat.eqb i n then r1 = Plus word else names_group n r1
  | _ => True
  end.

(** The texts captured for the group [n] are identifiers. *)
Definition named (n : nat) (gs : list (nat * str)) : Prop :=
  forall v, In (n, v) gs -> identifier v.

(** A successful match went through its continuation, and what it captured
    for the group [n] are identifiers. *)
Definition captures_names (n : nat) (body : mstate -> cont -> option mstate) : Prop :=
  forall st k e, body st k = Some e ->
    exists st1, (named n (groups st) -> named n (groups st1)) /\ k st1 = Some e.

(** What the update scripts promise about a list of extracted names: no
    name twice, every name an identifier other than [operator] and not one
    of [EXCLUDE_METHODS]. *)
Definition method_name (m : str) : Prop :=
  identifier m /\ m <> lit "operator" /\ ~ In m Shared.EXCLUDE_METHODS.

Definition method_names (ms : list str) : Prop :=
  NoDup ms /\ Forall method_name ms.

(** A name that holds one of [INTERACTION_KEYWORDS], in any case. *)
Definition interacts (m : str) : Prop :=
  any_in Shared.INTERACTION_KEYWORDS (lower m) = true.

(** The numbers of opening and of closing braces of a text. *)
Definition opens (s : str) : nat := count_char "{" s.
Definition closes (s : str) : nat := count_char "}" s.

(** No beginning of the text closes more than [d] braces that it has not
    opened. *)
Definition never_closes (d : nat) (s : str) : Prop :=
  forall p q, s = p ++ q -> closes p <= d + opens p.

(** A text whose braces match. *)
Definition balanced (s : str) : Prop := never_closes 0 s /\ opens s = closes s.

(** A text without braces. *)
Definition brace_free (s : str) : Prop := opens s = 0 /\ closes s = 0.

(** [s[:-1]] where the scan ran to the end of the text. *)
Definition but_last (s : str) : str := firstn (length s - 1) s.

(** A test for [never_closes], by the running count of the braces. *)
Fixpoint stays_open (d : nat) (s : str) : bool :=
  match s with
  | [] => true
  | c :: t =>
      if Ascii.eqb c "{" then stays_open (S d) t
      else if Ascii.eqb c "}" then
        match d with
        | O => false
        | S d' => stays_open d' t
        end
      else stays_open d t
  end.

(** A character that may stand in a description: no asterisk, and no white
    space other than the plain space. *)
Definition plain (c : ascii) : Prop :=
  c <> "*"%char /\ (is_space c = false \/ c = " "%char).

(** A description that fits on the line of a node where it is written
    between asterisks: at most 120 characters, neither an asterisk nor a
    line break. *)
Definition one_line (d : str) : Prop :=
  length d <= 120 /\ ~ In "*"%char d /\ ~ In newline d.

Definition fits_line (d : str) : bool :=
  (length d <=? 120) && negb (existsb (Ascii.eqb "*") d)
  && negb (existsb (Ascii.eqb newline) d).

(** Two nodes whose rectangles do not overlap. *)
Definition apart (a b : node) : Prop :=
  (node_x a + node_width a <= node_x b)%Z \/
  (node_x b + node_width b <= node_x a)%Z \/
  (node_y a + node_height a <= node_y b)%Z \/
  (node_y b + node_height b <= node_y a)%Z.

Definition apart_b (a b : node) : bool :=
  (node_x a + node_width a <=? node_x b)%Z ||
  (node_x b + node_width b <=? node_x a)%Z ||
  (node_y a + node_height a <=? node_y b)%Z ||
  (node_y b + node_height b <=? node_y a)%Z.

(** Every class lies in a layer that [UML_LAYERS] holds. *)
Definition known_layers (classes : list (str * GenerateUmlCanvas.UMLClass)) : Prop :=
  Forall (fun entry =>
            In (GenerateUmlCanvas.layer (snd entry)) (map fst GenerateUmlCanvas.UML_LAYERS))
         classes.

Definition known_layers_b (classes : list (str * GenerateUmlCanvas.UMLClass)) : bool :=
  forallb (fun entry => mem (GenerateUmlCanvas.layer (snd entry))
                            (map fst GenerateUmlCanvas.UML_LAYERS)) classes.

(** The columns of two different layers of [UML_LAYERS] are at least the
    width of a node apart. *)
Definition columns_apart_b : bool :=
  forallb (fun l1 =>
    forallb (fun l2 =>
      str_eqb l1 l2 ||
      (GenerateUmlCanvas.x_base l1 + 300 <=? GenerateUmlCanvas.x_base l2)%Z ||
      (GenerateUmlCanvas.x_base l2 + 300 <=? GenerateUmlCanvas.x_base l1)%Z)
      (map fst GenerateUmlCanvas.UML_LAYERS))
    (map fst GenerateUmlCanvas.UML_LAYERS).

(** No two nodes of the list overlap, as a test. *)
Fixpoint all_apart_b (l : list node) : bool :=
  match l with
  | [] => true
  | a :: rest => forallb (apart_b a) rest && all_apart_b rest
  end.

(** The headers of the layers lie above the row where the classes start,
    and no two of them overlap. *)
Definition headers_fit_b : bool :=
  forallb (fun h => (node_y h + node_height h <=? 120)%Z)
          (map GenerateUmlCanvas.header_node GenerateUmlCanvas.UML_LAYERS)
  && all_apart_b (map GenerateUmlCanvas.header_node GenerateUmlCanvas.UML_LAYERS).

(** Every layer of [UML_LAYERS] starts at the top. *)
Definition layers_at_top_b : bool :=
  forallb (fun entry => (GenerateUmlCanvas.layer_y (snd entry) =? 0)%Z)
          GenerateUmlCanvas.UML_LAYERS.
(** No colour configured for a layer is written as it is: none is made of
    digits, and none is empty. *)
Definition layer_colors_b : bool :=
  forallb (fun entry =>
             match GenerateUmlCanvas.color_of (GenerateUmlCanvas.layer_color (snd entry)) with
             | Some color => str_eqb color (lit "1")
             | None => false
             end)
          GenerateUmlCanvas.UML_LAYERS.

(** An iteration order of sets: as many elements as the set has. *)
Definition keeps_size (set_iter : list str -> list str) : Prop :=
  forall l, length (set_iter l) = length l.







End MoreProps.

(* ================================================================== *)
(** * Lists and strings *)
(* ================================================================== *)

Import Env Canvas Props Samples MoreProps.

Lemma str_eqb_eq (a b : str) : str_eqb a b = true <-> a = b.
Proof.
  unfold str_eqb. destruct (list_eq_dec ascii_dec a b); split; congruence.
Qed.

Lemma str_eqb_refl (a : str) : str_eqb a a = true.
Proof. apply str_eqb_eq. reflexivity. Qed.

Lemma str_eqb_neq (a b : str) : str_eqb a b = false <-> a <> b.
Proof.
  unfold str_eqb. destruct (list_eq_dec ascii_dec a b); split; congruence.
Qed.

Lemma mem_In (x : str) (xs : list str) : mem x xs = true <-> In x xs.
Proof.
  unfold mem. rewrite existsb_exists. split.
  - intros [y [Hy He]]. apply str_eqb_eq in He. subst. exact Hy.
  - intros H. exists x. split; [exact H | apply str_eqb_refl].
Qed.

Lemma mem_false (x : str) (xs : list str) : mem x xs = false <-> ~ In x xs.
Proof.
  rewrite <- mem_In. destruct (mem x xs); split; congruence.
Qed.

Lemma lookup_In {V : Type} (k : str) (d : list (str * V)) (v : V) :
  lookup k d = Some v -> In (k, v) d.
Proof.
  induction d as [|[k' v'] d IH]; simpl; [discriminate|].
  destruct (str_eqb k k') eqn:E.
  - apply str_eqb_eq in E. intros H. inversion H. subst. now left.
  - intros H. right. auto.
Qed.

Lemma lookup_None {V : Type} (k : str) (d : list (str * V)) :
  lookup k d = None -> ~ In k (map fst d).
Proof.
  induction d as [|[k' v'] d IH]; simpl; [tauto|].
  destruct (str_eqb k k') eqn:E; [discriminate|].
  apply str_eqb_neq in E. intros H [H1|H1]; [congruence | now apply IH].
Qed.

Lemma In_firstn {A : Type} (n : nat) (l : list A) (x : A) :
  In x (firstn n l) -> In x l.
Proof.
  revert l. induction n; intros [|a l]; simpl; try tauto.
  intros [H|H]; [now left | right; auto].
Qed.

Lemma In_filter {A : Type} (f : A -> bool) (l : list A) (x : A) :
  In x (filter f l) -> In x l.
Proof. intros H. apply filter_In in H. tauto. Qed.

Lemma firstn_nonempty {A : Type} (n : nat) (l : list A) :
  l <> [] -> firstn (S n) l <> [].
Proof. destruct l; simpl; congruence. Qed.

(* ================================================================== *)
(** * Round trip of the node list (add_shell_nodes, update_existing_canvas) *)
(* ================================================================== *)

Lemma extends_by_app (loaded added : list node) :
  extends_by loaded added (loaded ++ added).
Proof.
  repeat split.
  - apply length_app.
  - rewrite firstn_app, firstn_all, Nat.sub_diag. simpl. apply app_nil_r.
Qed.

Lemma shell_loop_created fs ids bx by_ todo :
  forall i made k n,
    nth_error (AddShellNodes.shell_loop fs ids bx by_ i made todo) k = Some n ->
    node_id n = ids (made + k) /\ is_text n = true.
Proof.
  induction todo as [|cn todo IH]; intros i made k n;
    cbn [AddShellNodes.shell_loop].
  - destruct k; discriminate.
  - destruct (str_eqb cn (lit "Shell")); [apply IH|].
    destruct (lookup cn AddShellNodes.SHELL_CLASSES) as [info|]; [|apply IH].
    destruct k as [|k]; cbn [nth_error].
    + intros H. inversion H. subst. rewrite Nat.add_0_r. split; reflexivity.
    + intros H. apply IH in H. rewrite Nat.add_succ_r. exact H.
Qed.

Lemma create_missing_node_created (fresh : str) (cn layer : str) existing :
  node_id (UpdateExistingCanvas.create_missing_node fresh cn layer existing) = fresh /\
  is_text (UpdateExistingCanvas.create_missing_node fresh cn layer existing) = true.
Proof.
  unfold UpdateExistingCanvas.create_missing_node.
  destruct (match lookup layer UpdateExistingCanvas.LAYER_POSITIONS with
            | Some pos => pos | None => _ end) as [xb yb].
  match goal with
  | |- context [let '(x, y) := ?e in _] => destruct e as [px py]
  end.
  split; reflexivity.
Qed.

Lemma add_missing_created ids todo :
  forall made existing k n,
    nth_error (UpdateExistingCanvas.add_missing ids made todo existing) k = Some n ->
    node_id n = ids (made + k) /\ is_text n = true.
Proof.
  induction todo as [|cn todo IH]; intros made existing k n;
    cbn [UpdateExistingCanvas.add_missing].
  - destruct k; discriminate.
  - destruct k as [|k]; cbn [nth_error].
    + intros H. inversion H. subst. rewrite Nat.add_0_r.
      apply create_missing_node_created.
    + intros H. apply IH in H. rewrite Nat.add_succ_r. exact H.
Qed.

(** C1.  The document written by [add_shell_nodes], and by [main] of
    [update_existing_canvas.py], holds the nodes of the loaded document,
    unchanged and in order, followed by the nodes the run created; the
    number of nodes is the number loaded plus the number added. *)
Theorem C1_round_trip_node_count :
  forall (fs : filesystem) (ids : nat -> str) (set_iter : list str -> list str)
         (c : canvas),
    (exists added,
        extends_by (nodes c) added (nodes (AddShellNodes.add_shell_nodes fs ids c)) /\
        created_by ids added) /\
    (exists added,
        extends_by (nodes c) added (nodes (UpdateExistingCanvas.main set_iter ids c)) /\
        created_by ids added).
Proof.
  intros fs ids set_iter c. split.
  - exists (AddShellNodes.new_nodes fs ids c). split.
    + apply extends_by_app.
    + unfold AddShellNodes.new_nodes.
      destruct (match AddShellNodes.find_shell_node_position (nodes c) with
                | Some pos => pos | None => _ end) as [sx sy].
      intros k n H. apply shell_loop_created in H. exact H.
  - exists (UpdateExistingCanvas.new_nodes set_iter ids c). split.
    + apply extends_by_app.
    + intros k n H. apply add_missing_created in H. exact H.
Qed.

(* ================================================================== *)
(** * Headers that are missing or cannot be read *)
(* ================================================================== *)

Lemma join_lines_cons (a b : str) (rest : list str) :
  join_lines (a :: b :: rest) = a ++ newline :: join_lines (b :: rest).
Proof. reflexivity. Qed.

Lemma text_from_header_unavailable_all (fs : filesystem) (path cn : str) :
  unavailable fs path ->
  fst (UpdateAllNodes.text_from_header fs cn path) =
  UpdateAllNodes.format_node_text cn []
    (match UpdateAllNodes.find_cpp_file fs cn with Some _ => true | None => false end)
    (UpdateAllNodes.get_fallback_description cn).
Proof.
  intros H. unfold UpdateAllNodes.text_from_header,
    UpdateAllNodes.extract_struct_members, Shared.extract_struct_members,
    UpdateAllNodes.extract_all_public_methods,
    UpdateAllNodes.extract_class_description.
  destruct H as [H|H]; rewrite H;
    destruct (mem cn Shared.struct_names); cbn [fst];
    destruct (UpdateAllNodes.get_fallback_description cn); reflexivity.
Qed.

Lemma text_from_header_unavailable_titles (fs : filesystem) (path cn : str) :
  unavailable fs path ->
  fst (UpdateNodeTitles.text_from_header fs cn path) =
  UpdateNodeTitles.format_node_text cn []
    (match UpdateNodeTitles.find_cpp_file fs cn with Some _ => true | None => false end)
    (UpdateNodeTitles.get_fallback_description cn).
Proof.
  intros H. unfold UpdateNodeTitles.text_from_header,
    UpdateNodeTitles.extract_struct_members, Shared.extract_struct_members,
    UpdateNodeTitles.extract_all_public_methods,
    UpdateNodeTitles.extract_class_description.
  destruct H as [H|H]; rewrite H;
    destruct (mem cn Shared.struct_names); reflexivity.
Qed.

(** C2.  For a header path that does not exist or cannot be read, every
    extraction function returns the empty list and the description is the
    hard-coded one: the text built for the node is the title followed by the
    fallback description of the class ([update_all_nodes.py],
    [update_node_titles.py]) or by the description and the predefined
    methods of [SHELL_CLASSES] ([add_shell_nodes.py]).  The same text is
    written when no header is found for the class at all. *)
Theorem C2_unavailable_header_falls_back :
  forall (fs : filesystem) (path : str),
    unavailable fs path ->
    AddShellNodes.extract_public_methods fs path = [] /\
    UpdateAllNodes.extract_all_public_methods fs path = [] /\
    UpdateNodeTitles.extract_all_public_methods fs path = [] /\
    UpdateNodeTitles.extract_public_methods fs path = [] /\
    (forall name, UpdateAllNodes.extract_struct_members fs path name = []) /\
    (forall name, UpdateNodeTitles.extract_struct_members fs path name = []) /\
    (forall cn, UpdateAllNodes.extract_class_description fs path cn =
                UpdateAllNodes.get_fallback_description cn) /\
    (forall cn, UpdateNodeTitles.extract_class_description fs path cn =
                UpdateNodeTitles.get_fallback_description cn) /\
    (forall cn, exists has_cpp,
        fst (UpdateAllNodes.text_from_header fs cn path) =
        UpdateAllNodes.format_node_text cn [] has_cpp
          (UpdateAllNodes.get_fallback_description cn)) /\
    (forall cn, exists has_cpp,
        fst (UpdateNodeTitles.text_from_header fs cn path) =
        UpdateNodeTitles.format_node_text cn [] has_cpp
          (UpdateNodeTitles.get_fallback_description cn)) /\
    (forall fresh bx by_ i cn info,
        path = join SRC_DIR (AddShellNodes.file info) ->
        exists has_cpp,
          node_text (AddShellNodes.new_shell_node fs fresh bx by_ i cn info) =
          Some (AddShellNodes.format_node_text cn info
                  (firstn 8 (AddShellNodes.predefined info)) has_cpp)) /\
    (forall n cn,
        is_text n = true ->
        UpdateAllNodes.class_name_of (strip (text_of n)) = cn -> cn <> [] ->
        UpdateAllNodes.find_class_file fs cn = None ->
        UpdateAllNodes.update_node fs n =
        (set_text (UpdateAllNodes.format_node_text cn [] false
                     (UpdateAllNodes.get_fallback_description cn)) n,
         [Shared.warn_no_header cn], Shared.NotFound)) /\
    (forall cn has_cpp d,
        UpdateAllNodes.get_fallback_description cn = d -> d <> [] ->
        UpdateAllNodes.format_node_text cn [] has_cpp d =
        Shared.title cn has_cpp ++ newline :: newline ::
        lit "*" ++ d ++ lit "*" ++ [newline]).
Proof.
  intros fs path H.
  assert (E : forall (A : Type) (a : A) (f : str -> A),
             match fs path with
             | Missing => a | Unreadable => a | Readable content => f content
             end = a).
  { intros A a f. destruct H as [H|H]; rewrite H; reflexivity. }
  repeat split.
  - apply E.
  - apply E.
  - apply E.
  - apply E.
  - intros name. apply E.
  - intros name. apply E.
  - intros cn. apply E.
  - intros cn. apply E.
  - intros cn. eexists. apply text_from_header_unavailable_all. exact H.
  - intros cn. eexists. apply text_from_header_unavailable_titles. exact H.
  - intros fresh bx by_ i cn info Hp. eexists.
    unfold AddShellNodes.new_shell_node. cbn [node_text].
    rewrite <- Hp. unfold AddShellNodes.extract_public_methods. rewrite E.
    reflexivity.
  - intros n cn Ht Hc Hne Hf. unfold UpdateAllNodes.update_node.
    rewrite Ht, Hc. cbn [negb].
    destruct cn as [|a cn]; [congruence|]. rewrite Hf. reflexivity.
  - intros cn has_cpp d Hd Hne. unfold UpdateAllNodes.format_node_text.
    rewrite Hd. destruct d as [|c d]; [congruence|].
    cbn [map app]. rewrite !join_lines_cons. cbn [join_lines].
    unfold lit. cbn [list_ascii_of_string app].
    rewrite <- !app_assoc. cbn [app]. rewrite <- ?app_assoc. reflexivity.
Qed.

Lemma C2_unavailable_header_falls_back_witness :
  AddShellNodes.extract_public_methods no_files (lit "/src/shell/CodeShell.h") = [] /\
  UpdateAllNodes.extract_class_description no_files (lit "/src/shell/CodeShell.h")
    (lit "CodeShell") =
  lit "Live-coding shell with code editor and REPL (Strudel/Tidal/Hydra style)".
Proof.
  destruct (@C2_unavailable_header_falls_back no_files (lit "/src/shell/CodeShell.h"))
    as (H1 & _ & _ & _ & _ & _ & H7 & _).
  - left. reflexivity.
  - split; [exact H1 | rewrite H7; vm_compute; reflexivity].
Defined.

(* ================================================================== *)
(** * The fallback descriptions *)
(* ================================================================== *)

Lemma titles_table_in_all_table :
  forallb (agrees_with UpdateAllNodes.fallbacks) UpdateNodeTitles.fallbacks = true.
Proof. vm_compute. reflexivity. Qed.

Lemma fallback_agree (cn v : str) :
  lookup cn UpdateNodeTitles.fallbacks = Some v ->
  lookup cn UpdateAllNodes.fallbacks = Some v.
Proof.
  intros H. apply lookup_In in H.
  pose proof titles_table_in_all_table as T.
  rewrite forallb_forall in T. specialize (T _ H).
  unfold agrees_with in T. cbn [fst snd] in T.
  destruct (lookup cn UpdateAllNodes.fallbacks) as [w|]; [|discriminate].
  apply str_eqb_eq in T. congruence.
Qed.

(** C3 (as stated, refuted).  The two copies of [get_fallback_description]
    differ on the class name [Module]: the copy of [update_all_nodes.py]
    has an entry for it, the copy of [update_node_titles.py] returns the
    empty string. *)
Lemma C3_copies_differ_on_Module :
  UpdateAllNodes.get_fallback_description (lit "Module") <>
  UpdateNodeTitles.get_fallback_description (lit "Module").
Proof. vm_compute. discriminate. Qed.

(** C3 (amended).  Each copy of [get_fallback_description] yields the same
    string for the same class name.  The two copies agree on every class
    name that the table of [update_node_titles.py] holds; for any other
    name the copy of [update_node_titles.py] returns the empty string,
    whatever the copy of [update_all_nodes.py] returns. *)
Theorem C3_fallback_lookup :
  forall cn cn' : str,
    cn = cn' ->
    UpdateAllNodes.get_fallback_description cn =
      UpdateAllNodes.get_fallback_description cn' /\
    UpdateNodeTitles.get_fallback_description cn =
      UpdateNodeTitles.get_fallback_description cn' /\
    (In cn (map fst UpdateNodeTitles.fallbacks) ->
       UpdateNodeTitles.get_fallback_description cn =
       UpdateAllNodes.get_fallback_description cn') /\
    (~ In cn (map fst UpdateNodeTitles.fallbacks) ->
       UpdateNodeTitles.get_fallback_description cn = []).
Proof.
  intros cn cn' <-. repeat split.
  - intros Hin. unfold UpdateNodeTitles.get_fallback_description,
      UpdateAllNodes.get_fallback_description.
    destruct (lookup cn UpdateNodeTitles.fallbacks) as [v|] eqn:E.
    + rewrite (fallback_agree _ E). reflexivity.
    + apply lookup_None in E. contradiction.
  - intros Hn. unfold UpdateNodeTitles.get_fallback_description.
    destruct (lookup cn UpdateNodeTitles.fallbacks) as [v|] eqn:E; [|reflexivity].
    apply lookup_In in E. exfalso. apply Hn.
    apply in_map_iff. exists (cn, v). split; [reflexivity | exact E].
Qed.

Lemma C3_fallback_lookup_witness :
  UpdateNodeTitles.get_fallback_description (lit "Clock") =
  UpdateAllNodes.get_fallback_description (lit "Clock").
Proof.
  destruct (@C3_fallback_lookup (lit "Clock") (lit "Clock") eq_refl)
    as (_ & _ & H & _).
  apply H. vm_compute. tauto.
Defined.

(* ================================================================== *)
(** * Nothing is deleted, except the edges by update_existing_canvas *)
(* ================================================================== *)

Lemma same_but_text_refl (n : node) : same_but_text n n.
Proof. repeat split. Qed.

Lemma same_but_text_set_text (t : str) (n : node) : same_but_text n (set_text t n).
Proof. repeat split. Qed.

Lemma nodes_kept_app (loaded added : list node) : nodes_kept loaded (loaded ++ added).
Proof.
  split.
  - rewrite length_app. lia.
  - intros i n H. exists n. split; [|apply same_but_text_refl].
    rewrite nth_error_app1; [exact H|].
    apply nth_error_Some. congruence.
Qed.

Lemma nodes_kept_map (f : node -> node) (loaded : list node) :
  (forall n, same_but_text n (f n)) -> nodes_kept loaded (map f loaded).
Proof.
  intros Hf. split.
  - rewrite length_map. lia.
  - intros i n H. exists (f n). split; [|apply Hf].
    rewrite nth_error_map, H. reflexivity.
Qed.

Lemma update_all_node_same (fs : filesystem) (n : node) :
  same_but_text n (fst (fst (UpdateAllNodes.update_node fs n))).
Proof.
  unfold UpdateAllNodes.update_node.
  destruct (negb (is_text n)); [apply same_but_text_refl|].
  destruct (UpdateAllNodes.class_name_of _) as [|a cn]; [apply same_but_text_refl|].
  destruct (UpdateAllNodes.find_class_file fs (a :: cn)) as [header|].
  - destruct (UpdateAllNodes.text_from_header fs (a :: cn) header)
      as [new_text [[all_methods key_methods] description]].
    apply same_but_text_set_text.
  - apply same_but_text_set_text.
Qed.

Lemma update_titles_node_same (fs : filesystem) (n : node) :
  same_but_text n (fst (fst (UpdateNodeTitles.update_node fs n))).
Proof.
  unfold UpdateNodeTitles.update_node.
  destruct (negb (is_text n)); [apply same_but_text_refl|].
  destruct (UpdateNodeTitles.class_name_of _) as [|a cn]; [apply same_but_text_refl|].
  destruct (UpdateNodeTitles.find_class_file fs (a :: cn)) as [header|].
  - destruct (UpdateNodeTitles.text_from_header fs (a :: cn) header)
      as [new_text [[all_methods key_methods] description]].
    apply same_but_text_set_text.
  - apply same_but_text_set_text.
Qed.

Lemma run_nodes (update_node : node -> node * list str * Shared.outcome)
                (home : str) (c : canvas) :
  nodes (fst (Shared.run update_node home c)) =
  map (fun n => fst (fst (update_node n))) (nodes c).
Proof. unfold Shared.run. cbn [fst set_nodes nodes]. apply map_map. Qed.

Lemma run_edges (update_node : node -> node * list str * Shared.outcome)
                (home : str) (c : canvas) :
  edges (fst (Shared.run update_node home c)) = edges c.
Proof. reflexivity. Qed.

(** C4 (as stated, refuted).  A run of [main] of [update_existing_canvas.py]
    on a document that holds an edge writes a document without that edge:
    the script replaces the list of edges by the empty list. *)
Lemma C4_update_existing_canvas_drops_edges :
  ~ edges_kept (edges linked_doc)
      (edges (UpdateExistingCanvas.main (fun l => l) str_of_nat linked_doc)).
Proof.
  intros H. apply (H (Edge (lit "e") (lit "a") (lit "top") (lit "b") (lit "bottom")
                           (Some (lit "2")))).
  left. reflexivity.
Qed.

(** C4 (amended).  No script removes a node: every node of the loaded
    document is in the written document, at its place, with its
    identifier, type, position, size, colour and style; the update scripts
    change at most its text, and the scripts that add nodes append them.
    [add_shell_nodes.py], [update_all_nodes.py] and [update_node_titles.py]
    write the edges they loaded; [update_existing_canvas.py] writes an empty
    list of edges. *)
Theorem C4_nodes_never_removed :
  forall (home : str) (fs : filesystem) (ids : nat -> str)
         (set_iter : list str -> list str) (c : canvas),
    nodes_kept (nodes c) (nodes (UpdateExistingCanvas.main set_iter ids c)) /\
    edges (UpdateExistingCanvas.main set_iter ids c) = [] /\
    nodes_kept (nodes c) (nodes (AddShellNodes.add_shell_nodes fs ids c)) /\
    edges (AddShellNodes.add_shell_nodes fs ids c) = edges c /\
    nodes_kept (nodes c) (nodes (fst (UpdateAllNodes.update_all_nodes home fs c))) /\
    length (nodes (fst (UpdateAllNodes.update_all_nodes home fs c))) = length (nodes c) /\
    edges (fst (UpdateAllNodes.update_all_nodes home fs c)) = edges c /\
    nodes_kept (nodes c) (nodes (fst (UpdateNodeTitles.main home fs c))) /\
    length (nodes (fst (UpdateNodeTitles.main home fs c))) = length (nodes c) /\
    edges (fst (UpdateNodeTitles.main home fs c)) = edges c.
Proof.
  intros home fs ids set_iter c.
  unfold UpdateAllNodes.update_all_nodes, UpdateNodeTitles.main.
  rewrite !run_nodes, !run_edges, !length_map.
  split; [apply nodes_kept_app|].
  split; [reflexivity|].
  split; [apply nodes_kept_app|].
  split; [reflexivity|].
  split; [apply (nodes_kept_map (fun n => fst (fst (UpdateAllNodes.update_node fs n))));
          apply update_all_node_same|].
  split; [reflexivity|].
  split; [reflexivity|].
  split; [apply (nodes_kept_map (fun n => fst (fst (UpdateNodeTitles.update_node fs n))));
          apply update_titles_node_same|].
  split; reflexivity.
Qed.

(* ================================================================== *)
(** * Nodes without a class name are reported and skipped *)
(* ================================================================== *)

Lemma run_output (update_node : node -> node * list str * Shared.outcome)
                 (home : str) (c : canvas) (n : node) (line : str) :
  In n (nodes c) -> In line (snd (fst (update_node n))) ->
  In line (snd (Shared.run update_node home c)).
Proof.
  intros Hn Hl. unfold Shared.run. cbn [snd].
  apply in_or_app. right. apply in_or_app. left.
  apply in_flat_map. exists (update_node n). split; [|exact Hl].
  apply in_map. exact Hn.
Qed.

Lemma run_node_at (update_node : node -> node * list str * Shared.outcome)
                  (home : str) (c : canvas) (i : nat) (n : node) :
  nth_error (nodes c) i = Some n ->
  nth_error (nodes (fst (Shared.run update_node home c))) i =
  Some (fst (fst (update_node n))).
Proof.
  intros H. rewrite run_nodes, nth_error_map, H. reflexivity.
Qed.

(** C5.  A text node whose text gives no class name (the title pattern
    and the pattern of a name between asterisks do not match, and the
    stripped first line without its markers is empty) is skipped by
    [update_all_nodes.py] and by [update_node_titles.py]: the run prints the
    warning with the first 50 characters of the text, and the written
    document holds the node unchanged at its place. *)
Theorem C5_nameless_node_skipped :
  forall (home : str) (fs : filesystem) (c : canvas) (i : nat) (n : node),
    nth_error (nodes c) i = Some n ->
    is_text n = true ->
    search_group 1 Shared.title_re (strip (text_of n)) = None ->
    search_group 1 Shared.starred_re (strip (text_of n)) = None ->
    (UpdateAllNodes.bare_name (strip (text_of n)) = [] ->
       UpdateAllNodes.update_node fs n =
         (n, [Shared.warn_no_class (strip (text_of n))], Shared.Skipped) /\
       nth_error (nodes (fst (UpdateAllNodes.update_all_nodes home fs c))) i = Some n /\
       In (Shared.warn_no_class (strip (text_of n)))
          (snd (UpdateAllNodes.update_all_nodes home fs c))) /\
    (UpdateNodeTitles.bare_name (strip (text_of n)) = [] ->
       UpdateNodeTitles.update_node fs n =
         (n, [Shared.warn_no_class (strip (text_of n))], Shared.Skipped) /\
       nth_error (nodes (fst (UpdateNodeTitles.main home fs c))) i = Some n /\
       In (Shared.warn_no_class (strip (text_of n)))
          (snd (UpdateNodeTitles.main home fs c))).
Proof.
  intros home fs c i n Hi Ht H1 H2. split; intros H3.
  - assert (E : UpdateAllNodes.update_node fs n =
                (n, [Shared.warn_no_class (strip (text_of n))], Shared.Skipped)).
    { unfold UpdateAllNodes.update_node, UpdateAllNodes.class_name_of.
      rewrite Ht, H1, H2.
      rewrite H3. reflexivity. }
    split; [exact E|]. unfold UpdateAllNodes.update_all_nodes. split.
    + rewrite (run_node_at _ home c i Hi), E. reflexivity.
    + apply run_output with (n := n).
      * apply nth_error_In with (n := i). exact Hi.
      * rewrite E. left. reflexivity.
  - assert (E : UpdateNodeTitles.update_node fs n =
                (n, [Shared.warn_no_class (strip (text_of n))], Shared.Skipped)).
    { unfold UpdateNodeTitles.update_node, UpdateNodeTitles.class_name_of.
      rewrite Ht, H1, H2.
      rewrite H3. reflexivity. }
    split; [exact E|]. unfold UpdateNodeTitles.main. split.
    + rewrite (run_node_at _ home c i Hi), E. reflexivity.
    + apply run_output with (n := n).
      * apply nth_error_In with (n := i). exact Hi.
      * rewrite E. left. reflexivity.
Qed.

Lemma C5_nameless_node_skipped_witness :
  nth_error (nodes (fst (UpdateAllNodes.update_all_nodes (lit "/home/u") no_files
                           nameless_doc))) 1 =
  Some (Node (lit "b") (lit "text") (Some (lit "  .h ")) 0 200 260 60 None None) /\
  In (lit "  Warning: Could not extract class name from node: .h...")
     (snd (UpdateAllNodes.update_all_nodes (lit "/home/u") no_files nameless_doc)).
Proof.
  destruct (@C5_nameless_node_skipped (lit "/home/u") no_files nameless_doc 1
              (Node (lit "b") (lit "text") (Some (lit "  .h ")) 0 200 260 60 None None))
    as [H _].
  - reflexivity.
  - reflexivity.
  - vm_compute. reflexivity.
  - vm_compute. reflexivity.
  - destruct H as (_ & Hn & Hw).
    + vm_compute. reflexivity.
    + split; [exact Hn | exact Hw].
Defined.

(* ================================================================== *)
(** * The selection of the key methods *)
(* ================================================================== *)

Lemma firstn_8_le {A : Type} (l : list A) : length (firstn 8 l) <= 8.
Proof. apply firstn_le_length. Qed.

Lemma key_methods_from_input (cn : str) (all_methods : list str) (m : str) :
  In m (Shared.get_key_interaction_methods cn all_methods) -> In m all_methods.
Proof.
  unfold Shared.get_key_interaction_methods.
  destruct all_methods as [|a l]; [tauto|].
  set (all := a :: l).
  intros H. apply In_firstn in H.
  set (r0 := firstn 6 (filter Shared.is_high all)) in *.
  set (r1 := if length r0 <? 8 then r0 ++ firstn (8 - length r0) (filter Shared.is_medium all) else r0) in *.
  set (r2 := if length r1 <? 8 then r1 ++ firstn (8 - length r1) (filter Shared.is_other all) else r1) in *.
  assert (H0 : forall x, In x r0 -> In x all).
  { intros x Hx. apply In_firstn in Hx. now apply In_filter in Hx. }
  assert (H1 : forall x, In x r1 -> In x all).
  { intros x Hx. unfold r1 in Hx. destruct (length r0 <? 8); [|auto].
    apply in_app_or in Hx. destruct Hx as [Hx|Hx]; [auto|].
    apply In_firstn in Hx. now apply In_filter in Hx. }
  assert (H2 : forall x, In x r2 -> In x all).
  { intros x Hx. unfold r2 in Hx. destruct (length r1 <? 8); [|auto].
    apply in_app_or in Hx. destruct Hx as [Hx|Hx]; [auto|].
    apply In_firstn in Hx. now apply In_filter in Hx. }
  destruct r2 as [|b r2'] eqn:E.
  - now apply In_firstn in H.
  - apply H2. exact H.
Qed.

Lemma key_methods_nonempty (cn : str) (all_methods : list str) :
  all_methods <> [] -> Shared.get_key_interaction_methods cn all_methods <> [].
Proof.
  unfold Shared.get_key_interaction_methods.
  destruct all_methods as [|a l]; [congruence|]. intros _.
  match goal with
  | |- firstn 8 (match ?r with [] => _ | _ => _ end) <> [] => destruct r eqn:E
  end.
  - cbn. congruence.
  - cbn. congruence.
Qed.

Lemma shell_key_methods_from_input (all_methods : list str)
                                   (info : AddShellNodes.class_info) (m : str) :
  all_methods <> [] ->
  In m (AddShellNodes.get_key_methods all_methods info) -> In m all_methods.
Proof.
  unfold AddShellNodes.get_key_methods.
  destruct all_methods as [|a l]; [congruence|]. intros _ H.
  apply In_firstn in H.
  destruct (length _ <? 8).
  - apply in_app_or in H. destruct H as [H|H]; apply In_firstn, In_filter in H; exact H.
  - apply In_firstn, In_filter in H. exact H.
Qed.

Lemma shell_key_methods_nonempty (all_methods : list str)
                                 (info : AddShellNodes.class_info) :
  all_methods <> [] -> AddShellNodes.get_key_methods all_methods info <> [].
Proof.
  unfold AddShellNodes.get_key_methods.
  destruct all_methods as [|a l]; [congruence|]. intros _.
  cbn [filter]. destruct (AddShellNodes.is_priority a); cbn [negb].
  - cbn [firstn length]. destruct (_ <? 8); cbn; congruence.
  - set (r := firstn 6 (filter AddShellNodes.is_priority l)).
    assert (L : length r <= 6) by apply firstn_le_length.
    replace (length r <? 8) with true by (symmetry; apply Nat.ltb_lt; lia).
    destruct (8 - length r) as [|k] eqn:E; [lia|].
    cbn [firstn]. destruct r; cbn; congruence.
Qed.

(** C8.  [get_key_interaction_methods] (the copy of [update_all_nodes.py]
    and the copy of [update_node_titles.py]) returns at most 8 names, each
    of them an element of the list it was given, and at least one name when
    that list is not empty.  [get_key_methods] of [add_shell_nodes.py] does
    the same for a list that is not empty; for the empty list it returns the
    first 8 predefined methods of the class. *)
Theorem C8_key_methods_bounded_sublist :
  forall (class_name : str) (all_methods : list str) (info : AddShellNodes.class_info),
    (length (UpdateAllNodes.get_key_interaction_methods class_name all_methods) <= 8 /\
     length (UpdateNodeTitles.get_key_interaction_methods class_name all_methods) <= 8) /\
    (forall m,
        In m (UpdateAllNodes.get_key_interaction_methods class_name all_methods) \/
        In m (UpdateNodeTitles.get_key_interaction_methods class_name all_methods) ->
        In m all_methods) /\
    (all_methods <> [] ->
     UpdateAllNodes.get_key_interaction_methods class_name all_methods <> [] /\
     UpdateNodeTitles.get_key_interaction_methods class_name all_methods <> []) /\
    length (AddShellNodes.get_key_methods all_methods info) <= 8 /\
    (all_methods <> [] ->
     AddShellNodes.get_key_methods all_methods info <> [] /\
     forall m, In m (AddShellNodes.get_key_methods all_methods info) -> In m all_methods) /\
    AddShellNodes.get_key_methods [] info = firstn 8 (AddShellNodes.predefined info).
Proof.
  intros cn all info.
  unfold UpdateAllNodes.get_key_interaction_methods,
    UpdateNodeTitles.get_key_interaction_methods.
  split; [|split; [|split; [|split; [|split]]]].
  - assert (L : length (Shared.get_key_interaction_methods cn all) <= 8).
    { unfold Shared.get_key_interaction_methods.
      destruct all; [cbn; lia | apply firstn_8_le]. }
    split; exact L.
  - intros m [H|H]; apply (key_methods_from_input cn all m H).
  - intros H. split; apply key_methods_nonempty; exact H.
  - unfold AddShellNodes.get_key_methods. destruct all; apply firstn_8_le.
  - intros H. split.
    + now apply shell_key_methods_nonempty.
    + intros m. now apply shell_key_methods_from_input.
  - reflexivity.
Qed.

Lemma C8_key_methods_bounded_sublist_witness :
  UpdateAllNodes.get_key_interaction_methods (lit "Engine")
    (map lit ["draw"; "getState"; "connectAudio"; "tick"]%string) <> [] /\
  In (lit "connectAudio") (map lit ["draw"; "getState"; "connectAudio"; "tick"]%string).
Proof.
  destruct (@C8_key_methods_bounded_sublist (lit "Engine")
              (map lit ["draw"; "getState"; "connectAudio"; "tick"]%string)
              (AddShellNodes.ClassInfo [] false [] []))
    as (_ & Hin & Hne & _).
  split.
  - apply Hne. vm_compute. discriminate.
  - apply Hin. left. vm_compute. tauto.
Defined.

(* ================================================================== *)
(** * Reasoning about matches *)
(* ================================================================== *)

Lemma m_seq (r1 r2 : regex) (st : mstate) (k : cont) (v : mstate) :
  rmatch r1 st (fun st1 => rmatch r2 st1 k) = Some v ->
  rmatch (Seq r1 r2) st k = Some v.
Proof. exact (fun H => H). Qed.

Lemma m_cls (p : ascii -> bool) (c : ascii) (l t : str) g (k : cont) (v : mstate) :
  p c = true ->
  k (MState (c :: l) t g) = Some v ->
  rmatch (Cls p) (MState l (c :: t) g) k = Some v.
Proof. intros Hp Hk. cbn. rewrite Hp. exact Hk. Qed.

Lemma m_cls_eq (p : ascii -> bool) (c : ascii) (l t : str) g (k : cont) :
  p c = true ->
  rmatch (Cls p) (MState l (c :: t) g) k = k (MState (c :: l) t g).
Proof. intros Hp. cbn. rewrite Hp. reflexivity. Qed.

Lemma m_alt_left (r1 r2 : regex) (st : mstate) (k : cont) (v : mstate) :
  rmatch r1 st k = Some v -> rmatch (Alt r1 r2) st k = Some v.
Proof. intros H. cbn [rmatch]. rewrite H. reflexivity. Qed.

Lemma m_alt_right (r1 r2 : regex) (st : mstate) (k : cont) (v : mstate) :
  rmatch r1 st k = None -> rmatch r2 st k = Some v ->
  rmatch (Alt r1 r2) st k = Some v.
Proof. intros H1 H2. cbn [rmatch]. rewrite H1. exact H2. Qed.

Lemma star_greedy_run (p : ascii -> bool) (run : str) :
  forall (l rest : str) g (k : cont) (fuel : nat) (v : mstate),
    Forall (fun c => p c = true) run ->
    stops p rest ->
    length (run ++ rest) <= fuel ->
    k (MState (rev run ++ l) rest g) = Some v ->
    star_loop (rmatch (Cls p)) true fuel (MState l (run ++ rest) g) k = Some v.
Proof.
  induction run as [|c run IH]; intros l rest g k fuel v Hrun Hstop Hfuel Hk.
  - cbn [app rev] in *. destruct fuel as [|fuel]; [exact Hk|].
    cbn [star_loop]. destruct rest as [|c t].
    + cbn. exact Hk.
    + cbn in Hstop. cbn. rewrite Hstop. exact Hk.
  - inversion Hrun as [|c' run' Hc Hrun']; subst.
    destruct fuel as [|fuel]; [cbn in Hfuel; lia|].
    cbn [star_loop app]. rewrite (m_cls_eq p c l (run ++ rest) g _ Hc).
    cbn [ahead length].
    replace (length (run ++ rest) <? S (length (run ++ rest))) with true
      by (symmetry; apply Nat.ltb_lt; lia).
    rewrite (IH (c :: l) rest g k fuel v); [reflexivity | assumption | assumption | |].
    + cbn in Hfuel. lia.
    + cbn [rev] in Hk. rewrite <- app_assoc in Hk. exact Hk.
Qed.

Lemma m_star (p : ascii -> bool) (run l rest : str) g (k : cont) (v : mstate) :
  Forall (fun c => p c = true) run ->
  stops p rest ->
  k (MState (rev run ++ l) rest g) = Some v ->
  rmatch (Star true (Cls p)) (MState l (run ++ rest) g) k = Some v.
Proof.
  intros Hrun Hstop Hk. cbn [rmatch ahead].
  apply star_greedy_run; auto.
Qed.

Lemma firstn_prefix (a b : str) :
  firstn (length (a ++ b) - length b) (a ++ b) = a.
Proof.
  rewrite length_app, Nat.add_sub.
  rewrite firstn_app, firstn_all, Nat.sub_diag. cbn. apply app_nil_r.
Qed.

(** A capturing group around [\w+] takes a whole run of word characters. *)
Lemma m_word_group (n : nat) (name l rest : str) g (k : cont) (v : mstate) :
  name <> [] -> all_word name -> stops is_word rest ->
  k (MState (rev name ++ l) rest ((n, name) :: g)) = Some v ->
  rmatch (Grp n (Plus word)) (MState l (name ++ rest) g) k = Some v.
Proof.
  intros Hne Hw Hstop Hk. destruct name as [|c name]; [congruence|].
  inversion Hw as [|c' name' Hc Hname]; subst.
  unfold Plus, word. cbn [rmatch app ahead passed groups]. rewrite Hc.
  apply star_greedy_run; auto.
  unfold set_group. cbn [ahead passed groups].
  change (c :: name ++ rest) with ((c :: name) ++ rest).
  rewrite firstn_prefix.
  cbn [rev] in Hk. rewrite <- app_assoc in Hk. exact Hk.
Qed.

Lemma search_at_hit (r : regex) (l s : str) (e : mstate) :
  rmatch_at r l s = Some e -> search_at r l s = Some (MState l s [], e).
Proof. intros H. destruct s; cbn [search_at]; rewrite H; reflexivity. Qed.

Lemma word_not_space (c : ascii) : is_word c = true -> is_space c = false.
Proof.
  destruct c as [b0 b1 b2 b3 b4 b5 b6 b7].
  destruct b0, b1, b2, b3, b4, b5, b6, b7; vm_compute; congruence.
Qed.

Lemma stops_space_word (name rest : str) :
  name <> [] -> all_word name -> stops is_space (name ++ rest).
Proof.
  intros Hne Hw. destruct name as [|c name]; [congruence|].
  inversion Hw; subst. cbn. now apply word_not_space.
Qed.

(** The text of a title, written character by character. *)
Lemma title_shape (cn : str) (has_cpp : bool) (rest : str) :
  Shared.title cn has_cpp ++ rest =
  "#"%char :: " "%char :: cn ++
  "."%char :: (if has_cpp then lit "cpp/h" else lit "h") ++ rest.
Proof.
  unfold Shared.title. destruct has_cpp; unfold lit;
    cbn [list_ascii_of_string app]; rewrite <- app_assoc; reflexivity.
Qed.

(** The title pattern of the update scripts finds the class name at the
    start of a title. *)
Lemma title_re_on_title (cn : str) (has_cpp : bool) (rest : str) :
  cn <> [] -> all_word cn ->
  search_group 1 Shared.title_re (Shared.title cn has_cpp ++ rest) = Some cn.
Proof.
  intros Hne Hw. rewrite title_shape.
  assert (E : exists e,
             rmatch_at Shared.title_re []
               ("#"%char :: " "%char :: cn ++
                "."%char :: (if has_cpp then lit "cpp/h" else lit "h") ++ rest) = Some e /\
             groups e = [(1, cn)]).
  { destruct has_cpp; eexists; (split; [|shelve]);
      unfold rmatch_at, Shared.title_re; cbn [Seqs];
      (apply m_seq, m_cls; [reflexivity|]); cbv beta;
      apply m_seq;
      (apply (@m_star is_space [" "%char]);
        [repeat constructor | now apply stops_space_word |]);
      apply m_seq; (apply m_word_group; [assumption | assumption | reflexivity |]);
      (apply m_seq, m_cls; [reflexivity|]);
      apply m_seq.
    - apply m_alt_left. cbn. reflexivity.
    - apply m_alt_right; cbn; reflexivity.
    Unshelve. all: reflexivity. }
  destruct E as [e [He Hg]].
  unfold search_group, search. rewrite (search_at_hit _ _ _ He).
  unfold group. cbn [snd]. rewrite Hg. reflexivity.
Qed.

(* ================================================================== *)
(** * Titles are read back *)
(* ================================================================== *)

Lemma lstrip_by_keeps (p : ascii -> bool) (w : str) (h : ascii) (v : str) :
  p h = false -> exists z, lstrip_by p (w ++ h :: v) = z ++ h :: v.
Proof.
  intros Hh. induction w as [|c w IH]; cbn [app lstrip_by].
  - rewrite Hh. exists []. reflexivity.
  - destruct (p c).
    + exact IH.
    + exists (c :: w). reflexivity.
Qed.

Lemma rstrip_by_keeps (p : ascii -> bool) (a : str) (h : ascii) (y : str) :
  p h = false -> exists y', rstrip_by p (a ++ h :: y) = a ++ h :: y'.
Proof.
  intros Hh. unfold rstrip_by.
  rewrite rev_app_distr. cbn [rev]. rewrite <- app_assoc. cbn [app].
  destruct (lstrip_by_keeps p (rev y) h (rev a) Hh) as [z Hz].
  rewrite Hz. exists (rev z).
  rewrite rev_app_distr. cbn [rev]. rewrite rev_involutive, <- app_assoc.
  reflexivity.
Qed.

(** Stripping a text that starts with a title leaves the title in front. *)
Lemma strip_title (cn : str) (has_cpp : bool) (rest : str) :
  exists rest', strip (Shared.title cn has_cpp ++ rest) = Shared.title cn has_cpp ++ rest'.
Proof.
  unfold strip.
  assert (L : lstrip_by is_space (Shared.title cn has_cpp ++ rest) =
              Shared.title cn has_cpp ++ rest).
  { rewrite title_shape. reflexivity. }
  rewrite L.
  assert (S : exists a, Shared.title cn has_cpp = a ++ ["h"%char]).
  { unfold Shared.title. destruct has_cpp.
    - exists (lit "# " ++ cn ++ lit ".cpp/"). rewrite <- !app_assoc. reflexivity.
    - exists (lit "# " ++ cn ++ lit "."). rewrite <- !app_assoc. reflexivity. }
  destruct S as [a Ha]. rewrite Ha, <- app_assoc. cbn [app].
  destruct (rstrip_by_keeps is_space a "h" rest eq_refl) as [y' Hy].
  exists y'. rewrite Hy, <- app_assoc. reflexivity.
Qed.

Lemma format_all_starts_with_title (cn : str) (methods : list str)
                                   (has_cpp : bool) (description : str) :
  exists rest,
    UpdateAllNodes.format_node_text cn methods has_cpp description =
    Shared.title cn has_cpp ++ rest.
Proof.
  unfold UpdateAllNodes.format_node_text.
  match goal with
  | |- context [match ?d with [] => [?t; []] | _ :: _ => _ end] => destruct d
  end; cbn [app]; rewrite join_lines_cons; eexists; reflexivity.
Qed.

(** C10.  For a class name made of word characters, the title pattern of
    [update_all_nodes.py] applied to the text that [format_node_text] builds
    for it gives the class name back, with and without the [.cpp] part of
    the title; so does the extraction of the class name that the script
    runs on the stripped text of a node. *)
Theorem C10_title_round_trip :
  forall (class_name : str) (methods : list str) (has_cpp : bool) (description : str),
    class_name <> [] -> all_word class_name ->
    search_group 1 Shared.title_re
      (UpdateAllNodes.format_node_text class_name methods has_cpp description)
    = Some class_name /\
    UpdateAllNodes.class_name_of
      (strip (UpdateAllNodes.format_node_text class_name methods has_cpp description))
    = class_name.
Proof.
  intros cn methods has_cpp description Hne Hw.
  destruct (format_all_starts_with_title cn methods has_cpp description) as [rest E].
  rewrite E. split.
  - now apply title_re_on_title.
  - destruct (strip_title cn has_cpp rest) as [rest' E'].
    rewrite E'. unfold UpdateAllNodes.class_name_of.
    rewrite title_re_on_title by assumption. reflexivity.
Qed.

Lemma C10_title_round_trip_witness :
  search_group 1 Shared.title_re
    (UpdateAllNodes.format_node_text (lit "Voice_2") [lit "play"] true [])
  = Some (lit "Voice_2").
Proof.
  apply (@C10_title_round_trip (lit "Voice_2") [lit "play"] true []).
  - discriminate.
  - repeat constructor.
Defined.

(* ================================================================== *)
(** * A second run of add_shell_nodes adds nothing *)
(* ================================================================== *)

Lemma shell_title_shape (cn : str) (has_cpp : bool) (rest : str) :
  AddShellNodes.title cn has_cpp ++ rest =
  "#"%char :: " "%char :: cn ++
  "."%char :: (if has_cpp then lit "cpp/h" else lit "h") ++ rest.
Proof.
  unfold AddShellNodes.title. destruct has_cpp; unfold lit;
    cbn [list_ascii_of_string app]; rewrite <- app_assoc; reflexivity.
Qed.

(** The pattern that detects the existing classes finds the class name at
    the start of a title. *)
Lemma class_title_re_on_title (cn : str) (has_cpp : bool) (rest : str) :
  cn <> [] -> all_word cn ->
  search_group 1 AddShellNodes.class_title_re (AddShellNodes.title cn has_cpp ++ rest)
  = Some cn.
Proof.
  intros Hne Hw. rewrite shell_title_shape.
  assert (E : exists e,
             rmatch_at AddShellNodes.class_title_re []
               ("#"%char :: " "%char :: cn ++
                "."%char :: (if has_cpp then lit "cpp/h" else lit "h") ++ rest) = Some e /\
             groups e = [(1, cn)]).
  { eexists; split.
    - unfold rmatch_at, AddShellNodes.class_title_re; cbn [Seqs].
      apply m_seq, m_cls; [reflexivity|]. cbv beta.
      apply m_seq.
      apply (@m_star is_space [" "%char]);
        [repeat constructor | now apply stops_space_word |].
      apply m_seq. apply m_word_group; [assumption | assumption | reflexivity |].
      apply m_cls; reflexivity.
    - reflexivity. }
  destruct E as [e [He Hg]].
  unfold search_group, search. rewrite (search_at_hit _ _ _ He).
  unfold group. cbn [snd]. rewrite Hg. reflexivity.
Qed.

Lemma format_shell_starts_with_title (cn : str) (info : AddShellNodes.class_info)
                                     (methods : list str) (has_cpp : bool) :
  exists rest,
    AddShellNodes.format_node_text cn info methods has_cpp =
    AddShellNodes.title cn has_cpp ++ rest.
Proof.
  unfold AddShellNodes.format_node_text.
  destruct (AddShellNodes.description info); destruct methods;
    cbn [app]; rewrite join_lines_cons; eexists; reflexivity.
Qed.

Lemma new_shell_node_title fs fresh bx by_ i (cn : str) info :
  cn <> [] -> all_word cn ->
  is_text (AddShellNodes.new_shell_node fs fresh bx by_ i cn info) = true /\
  search_group 1 AddShellNodes.class_title_re
    (text_of (AddShellNodes.new_shell_node fs fresh bx by_ i cn info)) = Some cn.
Proof.
  intros Hne Hw. split; [reflexivity|].
  unfold AddShellNodes.new_shell_node, text_of. cbn [node_text].
  destruct (format_shell_starts_with_title cn info
              (AddShellNodes.get_key_methods
                 (AddShellNodes.extract_public_methods fs
                    (join SRC_DIR (AddShellNodes.file info))) info)
              (exists_ fs (join SRC_DIR
                             (replace (lit ".h") (lit ".cpp") (AddShellNodes.file info)))))
    as [rest E].
  rewrite E. now apply class_title_re_on_title.
Qed.

Lemma shell_names_are_words :
  forall cn, In cn shell_names -> cn <> [] /\ all_word cn.
Proof.
  assert (H : forallb (fun cn => negb (str_eqb cn []) && forallb is_word cn)
                      shell_names = true) by (vm_compute; reflexivity).
  rewrite forallb_forall in H. intros cn Hin. specialize (H cn Hin).
  apply andb_prop in H. destruct H as [H1 H2]. split.
  - apply negb_true_iff, str_eqb_neq in H1. exact H1.
  - rewrite forallb_forall in H2. apply Forall_forall. exact H2.
Qed.

Lemma lookup_Some {V : Type} (k : str) (d : list (str * V)) :
  In k (map fst d) -> exists v, lookup k d = Some v.
Proof.
  induction d as [|[k' v'] d IH]; cbn [map fst In lookup]; [tauto|].
  intros H. destruct (str_eqb k k') eqn:E; [eauto|].
  apply str_eqb_neq in E. destruct H as [H|H]; [congruence | auto].
Qed.

Lemma existing_classes_app (a b : list node) :
  AddShellNodes.existing_classes (a ++ b) =
  AddShellNodes.existing_classes a ++ AddShellNodes.existing_classes b.
Proof.
  induction a as [|n a IH]; cbn [app AddShellNodes.existing_classes]; [reflexivity|].
  destruct (is_text n); [|exact IH].
  destruct (search_group 1 AddShellNodes.class_title_re (text_of n));
    [cbn [app]; f_equal|]; exact IH.
Qed.

(** What the loop creates, node by node. *)
Lemma shell_loop_nodes fs ids bx by_ todo :
  forall i made n,
    In n (AddShellNodes.shell_loop fs ids bx by_ i made todo) ->
    exists cn info fresh j,
      In cn todo /\ cn <> lit "Shell" /\
      lookup cn AddShellNodes.SHELL_CLASSES = Some info /\
      n = AddShellNodes.new_shell_node fs fresh bx by_ j cn info.
Proof.
  induction todo as [|cn todo IH]; intros i made n;
    cbn [AddShellNodes.shell_loop In]; [tauto|].
  destruct (str_eqb cn (lit "Shell")) eqn:E.
  - intros H. apply IH in H. destruct H as (cn' & info & fresh & j & H1 & H2).
    exists cn', info, fresh, j. tauto.
  - apply str_eqb_neq in E.
    destruct (lookup cn AddShellNodes.SHELL_CLASSES) as [info|] eqn:L.
    + intros [H|H].
      * exists cn, info, (ids made), i. auto.
      * apply IH in H. destruct H as (cn' & info' & fresh & j & H1 & H2).
        exists cn', info', fresh, j. tauto.
    + intros H. apply IH in H. destruct H as (cn' & info' & fresh & j & H1 & H2).
      exists cn', info', fresh, j. tauto.
Qed.

(** Every class of the list, other than [Shell], is detected in the nodes
    the loop creates. *)
Lemma shell_loop_covers fs ids bx by_ todo :
  forall i made name,
    (forall cn, In cn todo -> In cn shell_names) ->
    In name todo -> name <> lit "Shell" ->
    In name (AddShellNodes.existing_classes
               (AddShellNodes.shell_loop fs ids bx by_ i made todo)).
Proof.
  induction todo as [|cn todo IH]; intros i made name Hall Hin Hne;
    cbn [AddShellNodes.shell_loop]; [destruct Hin|].
  assert (Hall' : forall cn', In cn' todo -> In cn' shell_names)
    by (intros cn' H; apply Hall; now right).
  destruct (str_eqb cn (lit "Shell")) eqn:E.
  - apply str_eqb_eq in E. destruct Hin as [Hin|Hin]; [congruence|].
    now apply IH.
  - destruct (lookup_Some cn AddShellNodes.SHELL_CLASSES (Hall cn (or_introl eq_refl)))
      as [info L].
    rewrite L. cbn [AddShellNodes.existing_classes].
    destruct (@shell_names_are_words cn (Hall cn (or_introl eq_refl))) as [Hcn Hw].
    destruct (new_shell_node_title fs (ids made) bx by_ i info Hcn Hw) as [Ht Hs].
    rewrite Ht, Hs.
    destruct Hin as [Hin|Hin]; [left; exact Hin | right; now apply IH].
Qed.

Lemma shell_loop_only_shell fs ids bx by_ todo :
  forall i made,
    (forall cn, In cn todo -> cn = lit "Shell") ->
    AddShellNodes.shell_loop fs ids bx by_ i made todo = [].
Proof.
  induction todo as [|cn todo IH]; intros i made H;
    cbn [AddShellNodes.shell_loop]; [reflexivity|].
  rewrite (H cn (or_introl eq_refl)). rewrite str_eqb_refl.
  apply IH. intros cn' Hin. apply H. now right.
Qed.

Lemma missing_shells_In (existing : list str) (name : str) :
  In name (AddShellNodes.missing_shells existing) <->
  In name shell_names /\ ~ In name existing.
Proof.
  unfold AddShellNodes.missing_shells. rewrite filter_In.
  rewrite negb_true_iff, mem_false. reflexivity.
Qed.

Lemma second_run_misses_only_shell fs ids (c : canvas) (name : str) :
  In name (AddShellNodes.missing_shells
             (AddShellNodes.existing_classes
                (nodes (AddShellNodes.add_shell_nodes fs ids c)))) ->
  name = lit "Shell".
Proof.
  intros H. apply missing_shells_In in H. destruct H as [Hk Hn].
  destruct (list_eq_dec ascii_dec name (lit "Shell")) as [|Hne]; [assumption|].
  exfalso. apply Hn.
  unfold AddShellNodes.add_shell_nodes. cbn [nodes set_nodes].
  rewrite existing_classes_app. apply in_or_app.
  destruct (in_dec (list_eq_dec ascii_dec) name
              (AddShellNodes.existing_classes (nodes c))) as [Hin|Hout];
    [now left | right].
  unfold AddShellNodes.new_nodes.
  destruct (match AddShellNodes.find_shell_node_position (nodes c) with
            | Some pos => pos | None => _ end) as [sx sy].
  apply shell_loop_covers.
  - intros cn Hcn. apply missing_shells_In in Hcn. tauto.
  - apply missing_shells_In. tauto.
  - exact Hne.
Qed.

(** C9 (as stated, refuted).  On a canvas without a [Shell] node the second
    run does not find every shell class present: [Shell] itself is skipped
    by the loop, never created, and is still missing. *)
Lemma C9_shell_not_found_on_second_run :
  ~ (forall name, In name shell_names ->
       In name (AddShellNodes.existing_classes
                  (nodes (AddShellNodes.add_shell_nodes no_files str_of_nat
                            (Doc [] [] None))))).
Proof.
  intros H. specialize (H (lit "Shell")).
  assert (K : mem (lit "Shell")
                (AddShellNodes.existing_classes
                   (nodes (AddShellNodes.add_shell_nodes no_files str_of_nat
                             (Doc [] [] None)))) = false)
    by (vm_compute; reflexivity).
  apply mem_false in K. apply K, H. vm_compute. tauto.
Qed.

(** C9 (amended).  Every node [add_shell_nodes] creates is a text node
    built for a class of [SHELL_CLASSES] other than [Shell], and the pattern
    that detects the existing classes reads that class name from its title.
    So a second run over the written document, with any file system and any
    identifiers, finds every shell class other than [Shell] present, creates
    no node and writes the same document. *)
Theorem C9_add_shell_nodes_idempotent :
  forall (fs fs' : filesystem) (ids ids' : nat -> str) (c : canvas),
    (forall n, In n (AddShellNodes.new_nodes fs ids c) ->
       exists cn, In cn shell_names /\ cn <> lit "Shell" /\
                  is_text n = true /\
                  search_group 1 AddShellNodes.class_title_re (text_of n) = Some cn) /\
    (forall name,
       In name shell_names -> name <> lit "Shell" ->
       In name (AddShellNodes.existing_classes
                  (nodes (AddShellNodes.add_shell_nodes fs ids c)))) /\
    AddShellNodes.new_nodes fs' ids' (AddShellNodes.add_shell_nodes fs ids c) = [] /\
    AddShellNodes.add_shell_nodes fs' ids' (AddShellNodes.add_shell_nodes fs ids c) =
    AddShellNodes.add_shell_nodes fs ids c.
Proof.
  intros fs fs' ids ids' c.
  assert (Z : AddShellNodes.new_nodes fs' ids' (AddShellNodes.add_shell_nodes fs ids c) = []).
  { unfold AddShellNodes.new_nodes at 1.
    destruct (match AddShellNodes.find_shell_node_position _ with
              | Some pos => pos | None => _ end) as [sx sy].
    apply shell_loop_only_shell. intros cn. apply second_run_misses_only_shell. }
  split; [|split; [|split]].
  - intros n Hn. unfold AddShellNodes.new_nodes in Hn.
    destruct (match AddShellNodes.find_shell_node_position (nodes c) with
              | Some pos => pos | None => _ end) as [sx sy].
    apply shell_loop_nodes in Hn.
    destruct Hn as (cn & info & fresh & j & Hin & Hne & L & ->).
    apply missing_shells_In in Hin. destruct Hin as [Hk _].
    destruct (@shell_names_are_words cn Hk) as [Hcn Hw].
    destruct (new_shell_node_title fs fresh sx (sy + 400)%Z j info Hcn Hw) as [Ht Hs].
    exists cn. auto.
  - intros name Hk Hne.
    destruct (in_dec (list_eq_dec ascii_dec) name
                (AddShellNodes.existing_classes
                   (nodes (AddShellNodes.add_shell_nodes fs ids c)))) as [Hin|Hout];
      [assumption|].
    exfalso. apply Hne. apply (second_run_misses_only_shell fs ids c).
    apply missing_shells_In. tauto.
  - exact Z.
  - unfold AddShellNodes.add_shell_nodes at 1. rewrite Z, app_nil_r.
    destruct (AddShellNodes.add_shell_nodes fs ids c). reflexivity.
Qed.

Lemma C9_add_shell_nodes_idempotent_witness :
  In (lit "CodeShell")
     (AddShellNodes.existing_classes
        (nodes (AddShellNodes.add_shell_nodes no_files str_of_nat (Doc [] [] None)))).
Proof.
  destruct (@C9_add_shell_nodes_idempotent no_files no_files str_of_nat str_of_nat
              (Doc [] [] None)) as (_ & H & _).
  apply H.
  - vm_compute. tauto.
  - vm_compute. discriminate.
Defined.

(* ================================================================== *)
(** * The line scanner only harvests in public sections *)
(* ================================================================== *)



Section ScanInvariant.

Variable harvest : list str -> list str -> list str.

(** What it means that the harvest took [name] from [line]. *)
Variable took : str -> str -> Prop.

Hypothesis harvest_takes :
  forall line earlier methods name,
    In name (harvest (line :: earlier) methods) ->
    In name methods \/ took line name.






End ScanInvariant.

(** ** A captured group is a piece of the text *)

Lemma forward_text (st st1 : mstate) : forward st st1 -> whole_text st1 = whole_text st.
Proof.
  intros (x & H1 & H2). unfold whole_text. rewrite H1, H2.
  rewrite rev_app_distr, rev_involutive, <- app_assoc. reflexivity.
Qed.

Lemma reaches_refl (st : mstate) : reaches st st.
Proof.
  split.
  - exists []. split; reflexivity.
  - intros n v H. now left.
Qed.

Lemma reaches_trans (a b c : mstate) : reaches a b -> reaches b c -> reaches a c.
Proof.
  intros [F1 G1] [F2 G2]. split.
  - destruct F1 as (x & P1 & A1). destruct F2 as (y & P2 & A2).
    exists (x ++ y). split.
    + rewrite P2, P1, rev_app_distr, <- app_assoc. reflexivity.
    + rewrite A1, A2, <- app_assoc. reflexivity.
  - intros n v H. apply G2 in H. destruct H as [H|H].
    + now apply G1.
    + right. rewrite <- (forward_text F1). exact H.
Qed.

Lemma star_loop_passes_on (body : mstate -> cont -> option mstate) (greedy : bool) :
  passes_on body ->
  forall fuel, passes_on (fun st k => star_loop body greedy fuel st k).
Proof.
  intros Hbody fuel. induction fuel as [|fuel IH]; intros st k e; cbn [star_loop].
  - intros H. exists st. split; [apply reaches_refl | exact H].
  - assert (Again :
      body st (fun st' => if length (ahead st') <? length (ahead st)
                          then star_loop body greedy fuel st' k else None) = Some e ->
      exists st1, reaches st st1 /\ k st1 = Some e).
    { intros H. apply Hbody in H. destruct H as (st' & R & H).
      destruct (length (ahead st') <? length (ahead st)); [|discriminate].
      apply IH in H. destruct H as (st1 & R1 & H).
      exists st1. split; [exact (reaches_trans R R1) | exact H]. }
    destruct greedy.
    + destruct (body st _) as [m|] eqn:E.
      * intros H. inversion H; subst. apply Again. reflexivity.
      * intros H. exists st. split; [apply reaches_refl | exact H].
    + destruct (k st) as [m|] eqn:E.
      * intros H. inversion H; subst. exists st. split; [apply reaches_refl | exact E].
      * exact Again.
Qed.

Lemma rmatch_passes_on (r : regex) : passes_on (rmatch r).
Proof.
  induction r as [|p|r1 IH1 r2 IH2|r1 IH1 r2 IH2|greedy r1 IH1|n r1 IH1| |];
    intros st k e; cbn [rmatch].
  - intros H. exists st. split; [apply reaches_refl | exact H].
  - destruct st as [l a g]. cbn [ahead passed groups].
    destruct a as [|c t]; [discriminate|].
    destruct (p c); [|discriminate]. intros H.
    exists (MState (c :: l) t g). split; [|exact H]. split.
    + exists [c]. split; reflexivity.
    + intros m v Hin. now left.
  - intros H. apply IH1 in H. destruct H as (st1 & R1 & H).
    apply IH2 in H. destruct H as (st2 & R2 & H).
    exists st2. split; [exact (reaches_trans R1 R2) | exact H].
  - destruct (rmatch r1 st k) as [m|] eqn:E.
    + intros H. inversion H; subst. now apply IH1.
    + apply IH2.
  - apply (star_loop_passes_on greedy IH1).
  - intros H. apply IH1 in H. destruct H as (st1 & [F G] & H).
    exists (set_group n (firstn (length (ahead st) - length (ahead st1)) (ahead st)) st1).
    split; [|exact H]. split.
    + exact F.
    + intros m v [Hin|Hin].
      * right. inversion Hin; subst. destruct F as (x & P & A).
        rewrite A, firstn_prefix. unfold whole_text. rewrite A.
        exists (rev (passed st)), (ahead st1). reflexivity.
      * now apply G.
  - destruct (at_word_boundary st); [|discriminate].
    intros H. exists st. split; [apply reaches_refl | exact H].
  - destruct (at_eol st); [|discriminate].
    intros H. exists st. split; [apply reaches_refl | exact H].
Qed.

(** ** The bound on the number of iterations is enough *)

Lemma star_loop_ext (body : mstate -> cont -> option mstate) (greedy : bool) :
  (forall st k1 k2, (forall s, k1 s = k2 s) -> body st k1 = body st k2) ->
  forall fuel st k1 k2,
    (forall s, k1 s = k2 s) ->
    star_loop body greedy fuel st k1 = star_loop body greedy fuel st k2.
Proof.
  intros Hbody fuel. induction fuel as [|fuel IH]; intros st k1 k2 Hk; cbn [star_loop].
  - apply Hk.
  - rewrite (Hbody st _ (fun st' => if length (ahead st') <? length (ahead st)
                                    then star_loop body greedy fuel st' k2 else None)).
    + rewrite (Hk st). reflexivity.
    + intros s. destruct (_ <? _); [apply IH; exact Hk | reflexivity].
Qed.

Lemma rmatch_ext (r : regex) :
  forall st k1 k2, (forall s, k1 s = k2 s) -> rmatch r st k1 = rmatch r st k2.
Proof.
  induction r as [|p|r1 IH1 r2 IH2|r1 IH1 r2 IH2|greedy r1 IH1|n r1 IH1| |];
    intros st k1 k2 Hk; cbn [rmatch].
  - apply Hk.
  - destruct (ahead st) as [|c t]; [reflexivity|]. destruct (p c); [apply Hk | reflexivity].
  - apply IH1. intros s. apply IH2. exact Hk.
  - rewrite (IH1 st k1 k2 Hk), (IH2 st k1 k2 Hk). reflexivity.
  - apply star_loop_ext; [exact IH1 | exact Hk].
  - apply IH1. intros s. apply Hk.
  - destruct (at_word_boundary st); [apply Hk | reflexivity].
  - destruct (at_eol st); [apply Hk | reflexivity].
Qed.

Lemma passes_on_none (body : mstate -> cont -> option mstate) (st : mstate) :
  passes_on body -> body st (fun _ => None) = None.
Proof.
  intros H. destruct (body st (fun _ => None)) as [e|] eqn:E; [|reflexivity].
  apply H in E. destruct E as (st1 & _ & K). discriminate.
Qed.

Lemma star_loop_S (body : mstate -> cont -> option mstate) (greedy : bool)
                  (fuel : nat) (st : mstate) (k : cont) :
  star_loop body greedy (S fuel) st k =
  if greedy
  then match body st (fun st' => if length (ahead st') <? length (ahead st)
                                 then star_loop body greedy fuel st' k else None) with
       | Some m => Some m
       | None => k st
       end
  else match k st with
       | Some m => Some m
       | None => body st (fun st' => if length (ahead st') <? length (ahead st)
                                     then star_loop body greedy fuel st' k else None)
       end.
Proof. reflexivity. Qed.

(** A repetition that starts with the length of the text ahead as its bound
    gives the result it would give with any larger bound. *)
Lemma star_loop_more_fuel (r : regex) (greedy : bool) :
  forall fuel st k,
    length (ahead st) <= fuel ->
    star_loop (rmatch r) greedy (S fuel) st k = star_loop (rmatch r) greedy fuel st k.
Proof.
  induction fuel as [|fuel IH]; intros st k Hlen.
  - cbn [star_loop].
    rewrite (rmatch_ext r st _ (fun _ => None)).
    + rewrite (passes_on_none st (rmatch_passes_on r)).
      destruct greedy; [reflexivity | destruct (k st); reflexivity].
    + intros s. replace (length (ahead st)) with 0 by lia. reflexivity.
  - rewrite (star_loop_S (rmatch r) greedy (S fuel)), (star_loop_S (rmatch r) greedy fuel).
    rewrite (rmatch_ext r st
               (fun st' => if length (ahead st') <? length (ahead st)
                           then star_loop (rmatch r) greedy (S fuel) st' k else None)
               (fun st' => if length (ahead st') <? length (ahead st)
                           then star_loop (rmatch r) greedy fuel st' k else None)).
    + reflexivity.
    + intros s. destruct (length (ahead s) <? length (ahead st)) eqn:E; [|reflexivity].
      apply Nat.ltb_lt in E. apply IH. lia.
Qed.

Lemma sub_loop_more_fuel (r : regex) (repl : str) :
  forall fuel left right,
    length right < fuel ->
    sub_loop r repl (S fuel) left right = sub_loop r repl fuel left right.
Proof.
  induction fuel as [|fuel IH]; intros left right Hlen; [lia|].
  cbn [sub_loop]. cbn [sub_loop] in IH.
  destruct (rmatch_at r left right) as [e|].
  - destruct (length (ahead e) <? length right) eqn:E.
    + apply Nat.ltb_lt in E. f_equal. apply IH. lia.
    + destruct right as [|c t]; [reflexivity|].
      f_equal. f_equal. apply IH. cbn in Hlen. lia.
  - destruct right as [|c t]; [reflexivity|].
    f_equal. apply IH. cbn in Hlen. lia.
Qed.

Lemma finditer_loop_more_fuel (r : regex) :
  forall fuel left right,
    length right < fuel ->
    finditer_loop r (S fuel) left right = finditer_loop r fuel left right.
Proof.
  induction fuel as [|fuel IH]; intros left right Hlen; [lia|].
  cbn [finditer_loop]. cbn [finditer_loop] in IH.
  destruct (rmatch_at r left right) as [e|].
  - f_equal. destruct (length (ahead e) <? length right) eqn:E.
    + apply Nat.ltb_lt in E. apply IH. lia.
    + destruct right as [|c t]; [reflexivity|]. apply IH. cbn in Hlen. lia.
  - destruct right as [|c t]; [reflexivity|]. apply IH. cbn in Hlen. lia.
Qed.

Lemma assoc_In (n : nat) (gs : list (nat * str)) (v : str) :
  assoc n gs = Some v -> In (n, v) gs.
Proof.
  induction gs as [|[i w] gs IH]; cbn [assoc]; [discriminate|].
  destruct (Nat.eqb n i) eqn:E.
  - apply Nat.eqb_eq in E. intros H. inversion H; subst. now left.
  - intros H. right. auto.
Qed.

Lemma search_at_group (r : regex) (right : str) :
  forall (left : str) (m : mstate * mstate) (n : nat) (v : str),
    search_at r left right = Some m -> group n m = Some v ->
    infix v (rev left ++ right).
Proof.
  induction right as [|c right IH]; intros left m n v; cbn [search_at].
  - destruct (rmatch_at r left []) as [e|] eqn:E; [|discriminate].
    intros H G. inversion H; subst. unfold group in G. cbn [snd] in G.
    apply assoc_In in G. apply rmatch_passes_on in E.
    destruct E as (st1 & [_ Gr] & K). inversion K; subst.
    apply Gr in G. destruct G as [[]|G]. exact G.
  - destruct (rmatch_at r left (c :: right)) as [e|] eqn:E.
    + intros H G. inversion H; subst. unfold group in G. cbn [snd] in G.
      apply assoc_In in G. apply rmatch_passes_on in E.
      destruct E as (st1 & [_ Gr] & K). inversion K; subst.
      apply Gr in G. destruct G as [[]|G]. exact G.
    + intros H G. apply (IH (c :: left) m n v H) in G.
      cbn [rev] in G. rewrite <- app_assoc in G. exact G.
Qed.

(** The text of a group of [re.search(r, s)] is a piece of [s]. *)
Lemma search_group_infix (r : regex) (s : str) (n : nat) (v : str) :
  search_group n r s = Some v -> infix v s.
Proof.
  unfold search_group, search. destruct (search_at r [] s) as [m|] eqn:E; [|discriminate].
  intros G. exact (search_at_group r s [] n E G).
Qed.










(** The first header, step by step: the text without its comments, the
    lines of the header that match [private:], and the result. *)
Example scan_of_glob_header :
  AddShellNodes.extract_public_methods (fun _ => Readable glob_header) (lit "Player.h")
  = [lit "secret"] /\
  split_on newline (Scanner.remove_comments glob_header) =
  [lit "class Player {"; lit "public:";
   lit "    void load(const char* path = " ++ Scanner.dquote :: lit "samples";
   lit "    void secret();"; lit "};"; []] /\
  map Scanner.is_private (split_on newline glob_header) =
  [false; false; false; true; false; false; false].
Proof. vm_compute. repeat split. Qed.



(* ================================================================== *)
(** * The layout stacks every layer *)
(* ================================================================== *)





Section SortFacts.

Variable T : Type.
Variable leb : T -> T -> bool.
Hypothesis leb_total : forall a b, leb a b = true \/ leb b a = true.
Hypothesis leb_trans : forall a b c, leb a b = true -> leb b c = true -> leb a c = true.

Lemma insert_sorted_perm (a : T) (l : list T) :
  Permutation (GenerateUmlCanvas.insert_sorted leb a l) (a :: l).
Proof.
  induction l as [|b l IH]; cbn [GenerateUmlCanvas.insert_sorted]; [reflexivity|].
  destruct (leb a b); [reflexivity|].
  rewrite IH. apply perm_swap.
Qed.

Lemma stable_sort_perm (l : list T) :
  Permutation (GenerateUmlCanvas.stable_sort leb l) l.
Proof.
  induction l as [|a l IH]; cbn [GenerateUmlCanvas.stable_sort]; [reflexivity|].
  rewrite insert_sorted_perm. now constructor.
Qed.



End SortFacts.

Lemma str_eqb_sym (a b : str) : str_eqb a b = str_eqb b a.
Proof.
  destruct (str_eqb a b) eqn:E1, (str_eqb b a) eqn:E2; auto.
  - apply str_eqb_eq in E1. apply str_eqb_neq in E2. congruence.
  - apply str_eqb_neq in E1. apply str_eqb_eq in E2. congruence.
Qed.

Lemma push_group (layer_name : str) (o : GenerateUmlCanvas.obj) groups :
  group_of layer_name (GenerateUmlCanvas.push o groups) =
  if has_layer layer_name o
  then group_of layer_name groups ++ [o]
  else group_of layer_name groups.
Proof.
  unfold group_of, has_layer.
  induction groups as [|[l g] groups IH]; cbn [GenerateUmlCanvas.push lookup].
  - rewrite str_eqb_sym. destruct (str_eqb _ _); reflexivity.
  - destruct (str_eqb (GenerateUmlCanvas.layer (snd o)) l) eqn:E1; cbn [lookup].
    + apply str_eqb_eq in E1. subst l. rewrite (str_eqb_sym layer_name).
      destruct (str_eqb _ layer_name) eqn:E2; [reflexivity|].
      destruct (lookup layer_name groups); reflexivity.
    + destruct (str_eqb layer_name l) eqn:E2; [|exact IH].
      apply str_eqb_eq in E2. subst l. rewrite E1. reflexivity.
Qed.

Lemma fold_push_group (layer_name : str) (objs : list GenerateUmlCanvas.obj) :
  forall groups,
    group_of layer_name (fold_left (fun gs o => GenerateUmlCanvas.push o gs) objs groups) =
    group_of layer_name groups ++ filter (has_layer layer_name) objs.
Proof.
  induction objs as [|o objs IH]; intros groups; cbn [fold_left filter].
  - symmetry. apply app_nil_r.
  - rewrite IH, push_group. destruct (has_layer layer_name o).
    + rewrite <- app_assoc. reflexivity.
    + reflexivity.
Qed.

Lemma push_perm (o : GenerateUmlCanvas.obj) groups :
  Permutation (flat_map snd (GenerateUmlCanvas.push o groups))
              (o :: flat_map snd groups).
Proof.
  induction groups as [|[l g] groups IH]; cbn [GenerateUmlCanvas.push flat_map snd].
  - reflexivity.
  - destruct (str_eqb _ l); cbn [flat_map snd].
    + rewrite <- app_assoc. cbn [app]. symmetry. apply Permutation_middle.
    + rewrite IH. symmetry. apply Permutation_middle.
Qed.

Lemma fold_push_perm (objs : list GenerateUmlCanvas.obj) :
  forall groups,
    Permutation
      (flat_map snd (fold_left (fun gs o => GenerateUmlCanvas.push o gs) objs groups))
      (objs ++ flat_map snd groups).
Proof.
  induction objs as [|o objs IH]; intros groups; cbn [fold_left app].
  - reflexivity.
  - rewrite IH, push_perm. symmetry. apply Permutation_middle.
Qed.

Lemma place_keys (layer_name : str) (sorted : list GenerateUmlCanvas.obj) :
  forall k, map fst (GenerateUmlCanvas.place layer_name k sorted) = map fst sorted.
Proof.
  induction sorted as [|[ident c] sorted IH]; intros k;
    cbn [GenerateUmlCanvas.place map fst]; [reflexivity|].
  f_equal. apply IH.
Qed.

Lemma placed_keys_perm groups :
  Permutation (map fst (flat_map GenerateUmlCanvas.place_layer groups))
              (map fst (flat_map snd groups)).
Proof.
  induction groups as [|[l g] groups IH]; cbn [flat_map]; [reflexivity|].
  rewrite !map_app. apply Permutation_app; [|exact IH].
  unfold GenerateUmlCanvas.place_layer. cbn [fst snd]. rewrite place_keys.
  apply Permutation_map. apply stable_sort_perm.
Qed.

Lemma map_fst_combine {A B : Type} (l1 : list A) :
  forall l2 : list B, length l1 = length l2 -> map fst (combine l1 l2) = l1.
Proof.
  induction l1 as [|a l1 IH]; intros [|b l2] H; cbn in *; try congruence.
  f_equal. apply IH. congruence.
Qed.

Lemma objects_keys (classes : list (str * GenerateUmlCanvas.UMLClass)) :
  map fst (GenerateUmlCanvas.objects classes) = seq 0 (length classes).
Proof.
  unfold GenerateUmlCanvas.objects. apply map_fst_combine.
  rewrite length_seq, length_map. reflexivity.
Qed.

Lemma placed_keys_NoDup (classes : list (str * GenerateUmlCanvas.UMLClass)) :
  NoDup (map fst (flat_map GenerateUmlCanvas.place_layer
                    (GenerateUmlCanvas.by_layer (GenerateUmlCanvas.objects classes)))).
Proof.
  eapply Permutation_NoDup.
  - symmetry. apply placed_keys_perm.
  - eapply Permutation_NoDup.
    + apply Permutation_map. symmetry. apply fold_push_perm.
    + cbn [flat_map]. rewrite app_nil_r, objects_keys. apply seq_NoDup.
Qed.

Lemma position_of_In (placed : list (nat * (Z * Z))) (ident : nat) (p : Z * Z) :
  NoDup (map fst placed) -> In (ident, p) placed ->
  GenerateUmlCanvas.position_of ident placed = Some p.
Proof.
  induction placed as [|[i q] placed IH]; cbn [map fst In GenerateUmlCanvas.position_of];
    [tauto|].
  intros Hnd [H|H].
  - inversion H; subst. rewrite Nat.eqb_refl. reflexivity.
  - inversion Hnd as [|? ? Hni Hnd']; subst.
    destruct (Nat.eqb ident i) eqn:E.
    + apply Nat.eqb_eq in E. subst. exfalso. apply Hni.
      apply in_map_iff. exists (i, p). auto.
    + now apply IH.
Qed.

Lemma place_nth (layer_name : str) (sorted : list GenerateUmlCanvas.obj) :
  forall k i ident c,
    nth_error sorted i = Some (ident, c) ->
    In (ident,
        (GenerateUmlCanvas.x_base layer_name,
         (GenerateUmlCanvas.y_base layer_name +
          Z.of_nat (k + i) * GenerateUmlCanvas.NODE_SPACING_Y)%Z))
       (GenerateUmlCanvas.place layer_name k sorted).
Proof.
  induction sorted as [|[j d] sorted IH]; intros k i ident c H.
  - destruct i; discriminate.
  - cbn [GenerateUmlCanvas.place]. destruct i as [|i]; cbn [nth_error] in H.
    + inversion H; subst. left. rewrite Nat.add_0_r. reflexivity.
    + right. replace (k + S i) with (S k + i) by lia. exact (IH (S k) i ident c H).
Qed.

Lemma nth_error_combine_seq {A : Type} (l : list A) :
  forall s i a,
    nth_error l i = Some a ->
    nth_error (combine (seq s (length l)) l) i = Some (s + i, a).
Proof.
  induction l as [|b l IH]; intros s i a H.
  - destruct i; discriminate.
  - cbn [length seq combine]. destruct i as [|i]; cbn [nth_error] in *.
    + inversion H. rewrite Nat.add_0_r. reflexivity.
    + rewrite (IH (S s) i a H). f_equal. f_equal. lia.
Qed.




(* ================================================================== *)
(** * The scripts on concrete inputs *)
(* ================================================================== *)

(** The scanner of [add_shell_nodes.py] on the sample header: the
    commented-out method, the private one and the one after the class are
    left out. *)
Example scan_of_sample_header :
  AddShellNodes.extract_public_methods sample_files (lit "shell/CodeShell.h") =
  [lit "setup"].
Proof. vm_compute. reflexivity. Qed.

(** [update_all_nodes.py] without any header on disk: the first node gets
    its title and the fallback description, the nameless one is kept. *)
Example update_all_nodes_without_headers :
  map text_of (nodes (fst (UpdateAllNodes.update_all_nodes (lit "/home/u") no_files
                             nameless_doc))) =
  [lit "# ofApp.h

*Main application class inheriting from ofBaseApp*
"; lit "  .h "].
Proof. vm_compute. reflexivity. Qed.

(** The layout of the classes that [parse_class_definitions] builds, for
    the layer of the cells: the abstract class first, then by name. *)
Example layout_of_cell_system :
  map (fun entry => (fst entry, GenerateUmlCanvas.x (snd entry),
                     GenerateUmlCanvas.y (snd entry)))
      (filter (fun entry => str_eqb (GenerateUmlCanvas.layer (snd entry))
                                    (lit "cell_system"))
              (GenerateUmlCanvas.layout_classes
                 (GenerateUmlCanvas.parse_class_definitions (fun l => l) str_of_nat))) =
  [(lit "BaseCell", 4800, 120); (lit "NumCell", 4800, 720);
   (lit "BoolCell", 4800, 270); (lit "MenuCell", 4800, 570);
   (lit "ParameterCell", 4800, 870); (lit "CellGrid", 4800, 420)]%Z.
Proof. vm_compute. reflexivity. Qed.

(** The brace depth is tested on the lines after the one that opens a
    class, not on that line: after a class closed on its opening line the
    scanner stays in the class as long as the next line opens a brace. *)
Example scan_after_one_line_class :
  AddShellNodes.scan_header one_line_class_header = [lit "touch"] /\
  Scanner.braces (lit "class Tag {};") = 0%Z.
Proof. vm_compute. split; reflexivity. Qed.

(* ================================================================== *)
(** * The class name that a pattern reads is an identifier *)
(* ================================================================== *)

Lemma star_loop_keeps_groups (body : mstate -> cont -> option mstate) (greedy : bool) :
  keeps_groups body ->
  forall fuel, keeps_groups (fun st k => star_loop body greedy fuel st k).
Proof.
  intros Hbody fuel. induction fuel as [|fuel IH]; intros st k e; cbn [star_loop].
  - intros H. exists st. auto.
  - assert (Again :
      body st (fun st' => if length (ahead st') <? length (ahead st)
                          then star_loop body greedy fuel st' k else None) = Some e ->
      exists st1, groups st1 = groups st /\ k st1 = Some e).
    { intros H. apply Hbody in H. destruct H as (st' & G & H).
      destruct (length (ahead st') <? length (ahead st)); [|discriminate].
      apply IH in H. destruct H as (st1 & G1 & H).
      exists st1. split; [congruence | exact H]. }
    destruct greedy.
    + destruct (body st _) as [m|] eqn:E.
      * intros H. inversion H; subst. apply Again. reflexivity.
      * intros H. exists st. auto.
    + destruct (k st) as [m|] eqn:E.
      * intros H. inversion H; subst. exists st. auto.
      * exact Again.
Qed.

Lemma group_free_keeps_groups (r : regex) :
  group_free r = true -> keeps_groups (rmatch r).
Proof.
  induction r as [|p|r1 IH1 r2 IH2|r1 IH1 r2 IH2|greedy r1 IH1|n r1 IH1| |];
    cbn [group_free]; intros Hf st k e; cbn [rmatch].
  - intros H. exists st. auto.
  - destruct st as [l a g]. cbn [ahead passed groups].
    destruct a as [|c t]; [discriminate|].
    destruct (p c); [|discriminate]. intros H.
    exists (MState (c :: l) t g). auto.
  - apply andb_prop in Hf. destruct Hf as [F1 F2].
    intros H. apply (IH1 F1) in H. destruct H as (st1 & G1 & H).
    apply (IH2 F2) in H. destruct H as (st2 & G2 & H).
    exists st2. split; [congruence | exact H].
  - apply andb_prop in Hf. destruct Hf as [F1 F2].
    destruct (rmatch r1 st k) as [m|] eqn:E.
    + intros H. inversion H; subst. now apply (IH1 F1).
    + apply (IH2 F2).
  - apply (star_loop_keeps_groups greedy (IH1 Hf)).
  - discriminate.
  - destruct (at_word_boundary st); [|discriminate]. intros H. exists st. auto.
  - destruct (at_eol st); [|discriminate]. intros H. exists st. auto.
Qed.

Lemma cls_eats (p : ascii -> bool) : eats p (rmatch (Cls p)).
Proof.
  intros st k e. cbn [rmatch]. destruct st as [l a g]. cbn [ahead passed groups].
  destruct a as [|c t]; [discriminate|].
  destruct (p c) eqn:Hp; [|discriminate]. intros H.
  exists (MState (c :: l) t g), [c]. repeat split; auto.
Qed.

Lemma cls_eats_one (p : ascii -> bool) (st : mstate) (k : cont) (e : mstate) :
  rmatch (Cls p) st k = Some e ->
  exists st1 c,
    p c = true /\ ahead st = c :: ahead st1 /\
    groups st1 = groups st /\ k st1 = Some e.
Proof.
  cbn [rmatch]. destruct st as [l a g]. cbn [ahead passed groups].
  destruct a as [|c t]; [discriminate|].
  destruct (p c) eqn:Hp; [|discriminate]. intros H.
  exists (MState (c :: l) t g), c. repeat split; auto.
Qed.

Lemma star_cls_eats (p : ascii -> bool) (greedy : bool) :
  forall fuel, eats p (fun st k => star_loop (rmatch (Cls p)) greedy fuel st k).
Proof.
  induction fuel as [|fuel IH]; intros st k e; cbn [star_loop].
  - intros H. exists st, []. repeat split; auto.
  - assert (Again :
      rmatch (Cls p) st
        (fun st' => if length (ahead st') <? length (ahead st)
                    then star_loop (rmatch (Cls p)) greedy fuel st' k else None) = Some e ->
      exists st1 x,
        Forall (fun c => p c = true) x /\ ahead st = x ++ ahead st1 /\
        groups st1 = groups st /\ k st1 = Some e).
    { intros H. apply cls_eats in H. destruct H as (st' & x & Fx & Ax & Gx & H).
      destruct (length (ahead st') <? length (ahead st)); [|discriminate].
      apply IH in H. destruct H as (st1 & y & Fy & Ay & Gy & H).
      exists st1, (x ++ y). repeat split.
      - apply Forall_app. auto.
      - rewrite Ax, Ay, <- app_assoc. reflexivity.
      - congruence.
      - exact H. }
    destruct greedy.
    + destruct (rmatch (Cls p) st _) as [m|] eqn:E.
      * intros H. inversion H; subst. apply Again. reflexivity.
      * intros H. exists st, []. repeat split; auto.
    + destruct (k st) as [m|] eqn:E.
      * intros H. inversion H; subst. exists st, []. repeat split; auto.
      * exact Again.
Qed.

(** A capturing group around [\w+] captures an identifier. *)
Lemma word_group_captures (n : nat) (st : mstate) (k : cont) (e : mstate) :
  rmatch (Grp n (Plus word)) st k = Some e ->
  exists st1 v,
    identifier v /\ groups st1 = (n, v) :: groups st /\ k st1 = Some e.
Proof.
  intros H.
  change (rmatch (Cls is_word) st
            (fun st' =>
               star_loop (rmatch (Cls is_word)) true (length (ahead st')) st'
                 (fun st1 =>
                    k (set_group n
                         (firstn (length (ahead st) - length (ahead st1)) (ahead st))
                         st1))) = Some e) in H.
  apply cls_eats_one in H. destruct H as (st' & c & Hc & Ax & Gx & H).
  apply (star_cls_eats is_word true (length (ahead st'))) in H.
  destruct H as (st1 & y & Fy & Ay & Gy & H).
  exists (set_group n (firstn (length (ahead st) - length (ahead st1)) (ahead st)) st1),
         (c :: y).
  split; [|split].
  - split; [discriminate | constructor; assumption].
  - unfold set_group. cbn [groups]. rewrite Gy, Gx. f_equal. f_equal.
    rewrite Ax, Ay. change (c :: y ++ ahead st1) with ((c :: y) ++ ahead st1).
    apply firstn_prefix.
  - exact H.
Qed.

Lemma seq_free_inv (r1 r2 : regex) (st : mstate) (k : cont) (e : mstate) :
  group_free r1 = true ->
  rmatch (Seq r1 r2) st k = Some e ->
  exists st1, groups st1 = groups st /\ rmatch r2 st1 k = Some e.
Proof.
  intros Hf H.
  change (rmatch r1 st (fun s => rmatch r2 s k) = Some e) in H.
  apply (group_free_keeps_groups r1 Hf) in H. exact H.
Qed.

Lemma seq_word_group_inv (n : nat) (r2 : regex) (st : mstate) (k : cont) (e : mstate) :
  rmatch (Seq (Grp n (Plus word)) r2) st k = Some e ->
  exists st1 v,
    identifier v /\ groups st1 = (n, v) :: groups st /\ rmatch r2 st1 k = Some e.
Proof.
  intros H.
  change (rmatch (Grp n (Plus word)) st (fun s => rmatch r2 s k) = Some e) in H.
  apply word_group_captures in H. exact H.
Qed.

Lemma free_end (r : regex) (st e : mstate) :
  group_free r = true -> rmatch r st Some = Some e -> groups e = groups st.
Proof.
  intros Hf H. apply (group_free_keeps_groups r Hf) in H.
  destruct H as (st1 & G & H). inversion H; subst. exact G.
Qed.

Lemma search_at_match (r : regex) (right : str) :
  forall (left : str) (m : mstate * mstate),
    search_at r left right = Some m ->
    groups (fst m) = [] /\
    rmatch r (fst m) Some = Some (snd m).
Proof.
  induction right as [|c right IH]; intros left m; cbn [search_at].
  - destruct (rmatch_at r left []) as [e|] eqn:E; [|discriminate].
    intros H. inversion H; subst. split; [reflexivity | exact E].
  - destruct (rmatch_at r left (c :: right)) as [e|] eqn:E.
    + intros H. inversion H; subst. split; [reflexivity | exact E].
    + apply IH.
Qed.

Lemma title_re_captures (st e : mstate) :
  groups st = [] -> rmatch Shared.title_re st Some = Some e ->
  exists v, identifier v /\ groups e = [(1, v)].
Proof.
  intros G0 H. unfold Shared.title_re in H. cbn [Seqs] in H.
  apply seq_free_inv in H; [|reflexivity]. destruct H as (s1 & G1 & H).
  apply seq_free_inv in H; [|reflexivity]. destruct H as (s2 & G2 & H).
  apply seq_word_group_inv in H. destruct H as (s3 & v & Hv & G3 & H).
  apply free_end in H; [|reflexivity].
  exists v. split; [exact Hv|]. rewrite H, G3, G2, G1, G0. reflexivity.
Qed.

Lemma starred_re_captures (st e : mstate) :
  groups st = [] -> rmatch Shared.starred_re st Some = Some e ->
  exists v, identifier v /\ groups e = [(1, v)].
Proof.
  intros G0 H. unfold Shared.starred_re in H. cbn [Seqs] in H.
  apply seq_free_inv in H; [|reflexivity]. destruct H as (s1 & G1 & H).
  apply seq_word_group_inv in H. destruct H as (s3 & v & Hv & G3 & H).
  apply free_end in H; [|reflexivity].
  exists v. split; [exact Hv|]. rewrite H, G3, G1, G0. reflexivity.
Qed.

Lemma class_title_re_captures (st e : mstate) :
  groups st = [] -> rmatch AddShellNodes.class_title_re st Some = Some e ->
  exists v, identifier v /\ groups e = [(1, v)].
Proof.
  intros G0 H. unfold AddShellNodes.class_title_re in H. cbn [Seqs] in H.
  apply seq_free_inv in H; [|reflexivity]. destruct H as (s1 & G1 & H).
  apply seq_free_inv in H; [|reflexivity]. destruct H as (s2 & G2 & H).
  apply seq_word_group_inv in H. destruct H as (s3 & v & Hv & G3 & H).
  apply free_end in H; [|reflexivity].
  exists v. split; [exact Hv|]. rewrite H, G3, G2, G1, G0. reflexivity.
Qed.

Lemma search_group_identifier (r : regex) (text name : str) :
  (forall st e, groups st = [] -> rmatch r st Some = Some e ->
                exists v, identifier v /\ groups e = [(1, v)]) ->
  search_group 1 r text = Some name -> identifier name.
Proof.
  intros Hr. unfold search_group, search.
  destruct (search_at r [] text) as [m|] eqn:E; [|discriminate].
  apply search_at_match in E. destruct E as [G0 E].
  destruct (Hr _ _ G0 E) as (v & Hv & Gv).
  unfold group. rewrite Gv. cbn. intros H. inversion H; subst. exact Hv.
Qed.

(** X1.  A class name read by one of the regular expressions (the title
    pattern and the pattern of a name between asterisks of the update
    scripts, the pattern that detects the existing classes in
    [add_shell_nodes.py]) is a non-empty text of word characters and a
    piece of the text searched; so the class name that the update scripts
    get from a node is such an identifier unless it comes from the third
    way, the bare first line. *)
Theorem X1_regex_class_name_is_identifier :
  forall (text name : str),
    (search_group 1 Shared.title_re text = Some name \/
     search_group 1 Shared.starred_re text = Some name \/
     search_group 1 AddShellNodes.class_title_re text = Some name ->
     identifier name /\ infix name text) /\
    (UpdateAllNodes.class_name_of text = name ->
     identifier name /\ infix name text \/ name = UpdateAllNodes.bare_name text) /\
    (UpdateNodeTitles.class_name_of text = name ->
     identifier name /\ infix name text \/ name = UpdateNodeTitles.bare_name text).
Proof.
  intros text name.
  assert (T : forall n, search_group 1 Shared.title_re text = Some n ->
                        identifier n /\ infix n text).
  { intros n H. split.
    - exact (search_group_identifier _ _ title_re_captures H).
    - exact (search_group_infix _ _ _ H). }
  assert (S : forall n, search_group 1 Shared.starred_re text = Some n ->
                        identifier n /\ infix n text).
  { intros n H. split.
    - exact (search_group_identifier _ _ starred_re_captures H).
    - exact (search_group_infix _ _ _ H). }
  split; [|split].
  - intros [H|[H|H]]; [now apply T | now apply S |].
    split.
    + exact (search_group_identifier _ _ class_title_re_captures H).
    + exact (search_group_infix _ _ _ H).
  - unfold UpdateAllNodes.class_name_of.
    destruct (search_group 1 Shared.title_re text) as [n|] eqn:E1.
    + intros <-. left. now apply T.
    + destruct (search_group 1 Shared.starred_re text) as [n|] eqn:E2.
      * intros <-. left. now apply S.
      * intros <-. now right.
  - unfold UpdateNodeTitles.class_name_of.
    destruct (search_group 1 Shared.title_re text) as [n|] eqn:E1.
    + intros <-. left. now apply T.
    + destruct (search_group 1 Shared.starred_re text) as [n|] eqn:E2.
      * intros <-. left. now apply S.
      * intros <-. now right.
Qed.

Lemma X1_regex_class_name_is_identifier_witness :
  identifier (lit "Voice") /\ infix (lit "Voice") (lit "see *Voice* (abstract)").
Proof.
  apply (proj1 (@X1_regex_class_name_is_identifier (lit "see *Voice* (abstract)")
                  (lit "Voice"))).
  right. left. vm_compute. reflexivity.
Defined.

(* ================================================================== *)
(** * Running an update script twice *)
(* ================================================================== *)

Lemma run_twice (update_node : node -> node * list str * Shared.outcome)
                (home : str) (c : canvas) :
  (forall n, In n (nodes c) ->
     update_node (fst (fst (update_node n))) = update_node n) ->
  Shared.run update_node home (fst (Shared.run update_node home c)) =
  Shared.run update_node home c.
Proof.
  intros H.
  assert (E : map update_node (nodes (fst (Shared.run update_node home c))) =
              map update_node (nodes c)).
  { rewrite run_nodes, map_map. apply map_ext_in. exact H. }
  assert (L : length (nodes (fst (Shared.run update_node home c))) = length (nodes c)).
  { rewrite run_nodes. apply length_map. }
  unfold Shared.run at 1 3. rewrite E, L. reflexivity.
Qed.

Lemma all_name_back (cn : str) (methods : list str) (has_cpp : bool) (d : str) :
  identifier cn ->
  UpdateAllNodes.class_name_of
    (strip (UpdateAllNodes.format_node_text cn methods has_cpp d)) = cn.
Proof.
  intros [Hne Hw].
  destruct (format_all_starts_with_title cn methods has_cpp d) as [rest E].
  rewrite E. destruct (strip_title cn has_cpp rest) as [rest' E'].
  rewrite E'. unfold UpdateAllNodes.class_name_of.
  rewrite title_re_on_title by assumption. reflexivity.
Qed.

Lemma format_titles_starts_with_title (cn : str) (methods : list str)
                                      (has_cpp : bool) (description : str) :
  exists rest,
    UpdateNodeTitles.format_node_text cn methods has_cpp description =
    Shared.title cn has_cpp ++ rest.
Proof.
  unfold UpdateNodeTitles.format_node_text.
  destruct description, methods; cbn [app]; rewrite join_lines_cons;
    eexists; reflexivity.
Qed.

Lemma titles_name_back (cn : str) (methods : list str) (has_cpp : bool) (d : str) :
  identifier cn ->
  UpdateNodeTitles.class_name_of
    (strip (UpdateNodeTitles.format_node_text cn methods has_cpp d)) = cn.
Proof.
  intros [Hne Hw].
  destruct (format_titles_starts_with_title cn methods has_cpp d) as [rest E].
  rewrite E. destruct (strip_title cn has_cpp rest) as [rest' E'].
  rewrite E'. unfold UpdateNodeTitles.class_name_of.
  rewrite title_re_on_title by assumption. reflexivity.
Qed.

Lemma all_update_node_again (fs : filesystem) (n : node) :
  named_or_nameless (UpdateAllNodes.class_name_of (strip (text_of n))) ->
  UpdateAllNodes.update_node fs (fst (fst (UpdateAllNodes.update_node fs n))) =
  UpdateAllNodes.update_node fs n.
Proof.
  intros Hn. unfold UpdateAllNodes.update_node at 2 3.
  destruct (is_text n) eqn:T; cbn [negb].
  2: { cbn [fst]. unfold UpdateAllNodes.update_node. rewrite T. reflexivity. }
  destruct (UpdateAllNodes.class_name_of (strip (text_of n))) as [|c cn] eqn:E.
  { cbn [fst]. unfold UpdateAllNodes.update_node. rewrite T, E. reflexivity. }
  destruct Hn as [Hn|Hn]; [discriminate|].
  destruct (UpdateAllNodes.find_class_file fs (c :: cn)) as [path|] eqn:F.
  - unfold UpdateAllNodes.text_from_header. cbn [fst].
    unfold UpdateAllNodes.update_node.
    replace (is_text (set_text _ n)) with true by (symmetry; exact T).
    cbn [negb text_of set_text node_text].
    rewrite (all_name_back _ _ _ Hn), F.
    unfold UpdateAllNodes.text_from_header. reflexivity.
  - cbn [fst]. unfold UpdateAllNodes.update_node.
    replace (is_text (set_text _ n)) with true by (symmetry; exact T).
    cbn [negb text_of set_text node_text].
    rewrite (all_name_back _ _ _ Hn), F. reflexivity.
Qed.

Lemma titles_update_node_again (fs : filesystem) (n : node) :
  named_or_nameless (UpdateNodeTitles.class_name_of (strip (text_of n))) ->
  UpdateNodeTitles.update_node fs (fst (fst (UpdateNodeTitles.update_node fs n))) =
  UpdateNodeTitles.update_node fs n.
Proof.
  intros Hn. unfold UpdateNodeTitles.update_node at 2 3.
  destruct (is_text n) eqn:T; cbn [negb].
  2: { cbn [fst]. unfold UpdateNodeTitles.update_node. rewrite T. reflexivity. }
  destruct (UpdateNodeTitles.class_name_of (strip (text_of n))) as [|c cn] eqn:E.
  { cbn [fst]. unfold UpdateNodeTitles.update_node. rewrite T, E. reflexivity. }
  destruct Hn as [Hn|Hn]; [discriminate|].
  destruct (UpdateNodeTitles.find_class_file fs (c :: cn)) as [path|] eqn:F.
  - unfold UpdateNodeTitles.text_from_header. cbn [fst].
    unfold UpdateNodeTitles.update_node.
    replace (is_text (set_text _ n)) with true by (symmetry; exact T).
    cbn [negb text_of set_text node_text].
    rewrite (titles_name_back _ _ _ Hn), F.
    unfold UpdateNodeTitles.text_from_header. reflexivity.
  - cbn [fst]. unfold UpdateNodeTitles.update_node.
    replace (is_text (set_text _ n)) with true by (symmetry; exact T).
    cbn [negb text_of set_text node_text].
    rewrite (titles_name_back _ _ _ Hn), F. reflexivity.
Qed.

(** X2.  [update_all_nodes.py] is idempotent on a document whose text
    nodes give class names made of word characters (or none): a second run
    on the document that the first run wrote writes the same document and
    prints the same lines. *)
Theorem X2_update_all_nodes_idempotent :
  forall (home : str) (fs : filesystem) (c : canvas),
    (forall n, In n (nodes c) ->
       named_or_nameless (UpdateAllNodes.class_name_of (strip (text_of n)))) ->
    UpdateAllNodes.update_all_nodes home fs
      (fst (UpdateAllNodes.update_all_nodes home fs c)) =
    UpdateAllNodes.update_all_nodes home fs c.
Proof.
  intros home fs c H. unfold UpdateAllNodes.update_all_nodes.
  apply run_twice. intros n Hn. apply all_update_node_again. now apply H.
Qed.

Lemma X2_update_all_nodes_idempotent_witness :
  UpdateAllNodes.update_all_nodes (lit "/home/u") sample_files
    (fst (UpdateAllNodes.update_all_nodes (lit "/home/u") sample_files nameless_doc)) =
  UpdateAllNodes.update_all_nodes (lit "/home/u") sample_files nameless_doc.
Proof.
  apply (@X2_update_all_nodes_idempotent (lit "/home/u") sample_files nameless_doc).
  intros n [<-|[<-|[]]].
  - right. vm_compute. split; [discriminate | repeat constructor].
  - left. vm_compute. reflexivity.
Defined.

(** X3.  [update_node_titles.py] is idempotent in the same way: a second
    run of [main] on the document that the first run wrote writes the same
    document and prints the same lines, when the text nodes give class
    names made of word characters (or none). *)
Theorem X3_update_node_titles_idempotent :
  forall (home : str) (fs : filesystem) (c : canvas),
    (forall n, In n (nodes c) ->
       named_or_nameless (UpdateNodeTitles.class_name_of (strip (text_of n)))) ->
    UpdateNodeTitles.main home fs (fst (UpdateNodeTitles.main home fs c)) =
    UpdateNodeTitles.main home fs c.
Proof.
  intros home fs c H. unfold UpdateNodeTitles.main.
  apply run_twice. intros n Hn. apply titles_update_node_again. now apply H.
Qed.

Lemma X3_update_node_titles_idempotent_witness :
  UpdateNodeTitles.main (lit "/home/u") sample_files
    (fst (UpdateNodeTitles.main (lit "/home/u") sample_files linked_doc)) =
  UpdateNodeTitles.main (lit "/home/u") sample_files linked_doc.
Proof.
  apply (@X3_update_node_titles_idempotent (lit "/home/u") sample_files linked_doc).
  intros n [<-|[<-|[]]]; right; vm_compute; (split; [discriminate | repeat constructor]).
Defined.

(* ================================================================== *)
(** * update_existing_canvas.py run on its own output *)
(* ================================================================== *)

Lemma dict_set_keys {V : Type} (k : str) (v : V) (d : list (str * V)) (k0 : str) :
  In k0 (map fst (UpdateExistingCanvas.dict_set k v d)) <-> k0 = k \/ In k0 (map fst d).
Proof.
  induction d as [|[k' v'] d IH]; cbn [UpdateExistingCanvas.dict_set map fst In].
  - intuition congruence.
  - destruct (str_eqb k k') eqn:E; cbn [map fst In].
    + apply str_eqb_eq in E. subst k'. intuition congruence.
    + rewrite IH. intuition congruence.
Qed.

Lemma existing_keys (ns : list node) :
  forall (existing : list (str * node)) (k : str),
    In k (map fst (UpdateExistingCanvas.get_existing_nodes_from ns existing)) <->
    In k (map fst existing) \/
    exists n, In n ns /\ is_text n = true /\
              UpdateExistingCanvas.clean_name (strip (text_of n)) = k.
Proof.
  induction ns as [|n ns IH]; intros existing k;
    cbn [UpdateExistingCanvas.get_existing_nodes_from].
  - split; [auto|]. intros [H|(n & [] & _)]. exact H.
  - destruct (is_text n) eqn:T.
    + rewrite IH, dict_set_keys. split.
      * intros [[H|H]|(m & Hm & Tm & Em)].
        -- right. exists n. split; [now left|]. split; [exact T | congruence].
        -- now left.
        -- right. exists m. split; [now right | auto].
      * intros [H|(m & [Hm|Hm] & Tm & Em)].
        -- left. now right.
        -- subst m. left. left. congruence.
        -- right. exists m. auto.
    + rewrite IH. split.
      * intros [H|(m & Hm & Tm & Em)]; [now left|].
        right. exists m. split; [now right | auto].
      * intros [H|(m & [Hm|Hm] & Tm & Em)]; [now left | congruence |].
        right. exists m. auto.
Qed.

Lemma existing_app (a b : list node) :
  forall existing,
    UpdateExistingCanvas.get_existing_nodes_from (a ++ b) existing =
    UpdateExistingCanvas.get_existing_nodes_from b
      (UpdateExistingCanvas.get_existing_nodes_from a existing).
Proof.
  induction a as [|n a IH]; intros existing;
    cbn [app UpdateExistingCanvas.get_existing_nodes_from]; [reflexivity|].
  destruct (is_text n); apply IH.
Qed.

Lemma create_missing_node_text (fresh_id class_name layer : str)
                               (existing : list (str * node)) :
  is_text (UpdateExistingCanvas.create_missing_node fresh_id class_name layer existing)
  = true /\
  text_of (UpdateExistingCanvas.create_missing_node fresh_id class_name layer existing)
  = missing_text class_name.
Proof.
  unfold UpdateExistingCanvas.create_missing_node, missing_text.
  destruct (lookup layer UpdateExistingCanvas.LAYER_POSITIONS) as [[xb yb]|];
    repeat match goal with
           | |- context [if UpdateExistingCanvas.layer_is ?l ?s then _ else _] =>
               destruct (UpdateExistingCanvas.layer_is l s)
           end;
    split; reflexivity.
Qed.

Lemma add_missing_nodes (ids : nat -> str) (todo : list str) :
  forall (made : nat) (existing : list (str * node)),
    (forall n, In n (UpdateExistingCanvas.add_missing ids made todo existing) ->
       is_text n = true /\ exists name, In name todo /\ text_of n = missing_text name) /\
    (forall name, In name todo ->
       exists n, In n (UpdateExistingCanvas.add_missing ids made todo existing) /\
                 is_text n = true /\ text_of n = missing_text name).
Proof.
  induction todo as [|c todo IH]; intros made existing;
    cbn [UpdateExistingCanvas.add_missing].
  - split; [intros n [] | intros name []].
  - set (layer := match lookup c UpdateExistingCanvas.CLASS_TO_LAYER with
                  | Some l => l | None => lit "utilities" end).
    set (new_node := UpdateExistingCanvas.create_missing_node (ids made) c layer existing).
    destruct (create_missing_node_text (ids made) c layer existing) as [T E].
    destruct (IH (S made) (UpdateExistingCanvas.dict_set c new_node existing)) as [I1 I2].
    split.
    + intros n [Hn|Hn].
      * subst n. split; [exact T|]. exists c. split; [now left | exact E].
      * destruct (I1 n Hn) as (Tn & name & Hname & En).
        split; [exact Tn|]. exists name. split; [now right | exact En].
    + intros name [Hn|Hn].
      * subst name. exists new_node. split; [now left | split; assumption].
      * destruct (I2 name Hn) as (n & Hin & Tn & En).
        exists n. split; [now right | split; assumption].
Qed.

(** The node made for a class that is not abstract is found under the name
    of the class; the node made for an abstract class is found under a name
    that is no class of [ALL_CLASSES]. *)
Lemma found_as_table :
  forallb (fun name =>
             if mem name UpdateExistingCanvas.abstract_classes
             then negb (mem (found_as name) UpdateExistingCanvas.ALL_CLASSES)
             else str_eqb (found_as name) name)
          UpdateExistingCanvas.ALL_CLASSES = true.
Proof. vm_compute. reflexivity. Qed.

Lemma found_as_spec (name : str) :
  In name UpdateExistingCanvas.ALL_CLASSES ->
  if mem name UpdateExistingCanvas.abstract_classes
  then ~ In (found_as name) UpdateExistingCanvas.ALL_CLASSES
  else found_as name = name.
Proof.
  intros H. pose proof found_as_table as T.
  rewrite forallb_forall in T. specialize (T name H).
  destruct (mem name UpdateExistingCanvas.abstract_classes).
  - apply mem_false. destruct (mem (found_as name) _); [discriminate | reflexivity].
  - now apply str_eqb_eq.
Qed.

Lemma missing_classes_In (set_iter : list str -> list str)
                         (existing : list (str * node)) (name : str) :
  keeps_elements set_iter ->
  (In name (UpdateExistingCanvas.missing_classes set_iter existing) <->
   In name UpdateExistingCanvas.ALL_CLASSES /\ ~ In name (map fst existing)).
Proof.
  intros Hs. unfold UpdateExistingCanvas.missing_classes.
  rewrite (Hs _ name), filter_In, negb_true_iff, mem_false. tauto.
Qed.

(** The classes missing on a second run. *)
Lemma second_run_missing :
  forall (set_iter : list str -> list str) (ids : nat -> str) (c : canvas) (name : str),
    keeps_elements set_iter ->
    (In name (UpdateExistingCanvas.missing_classes set_iter
                (UpdateExistingCanvas.get_existing_nodes
                   (UpdateExistingCanvas.main set_iter ids c))) <->
     In name (UpdateExistingCanvas.missing_classes set_iter
                (UpdateExistingCanvas.get_existing_nodes c)) /\
     mem name UpdateExistingCanvas.abstract_classes = true).
Proof.
  intros set_iter ids c name Hs.
  rewrite !(missing_classes_In _ _ Hs).
  unfold UpdateExistingCanvas.get_existing_nodes, UpdateExistingCanvas.main.
  cbn [nodes]. rewrite existing_app.
  set (existing := UpdateExistingCanvas.get_existing_nodes_from (nodes c) []).
  rewrite existing_keys.
  unfold UpdateExistingCanvas.new_nodes, UpdateExistingCanvas.get_existing_nodes.
  fold existing.
  set (todo := UpdateExistingCanvas.missing_classes set_iter existing).
  destruct (add_missing_nodes ids todo 0 existing) as [N1 N2].
  assert (Htodo : forall x, In x todo <->
            In x UpdateExistingCanvas.ALL_CLASSES /\ ~ In x (map fst existing)).
  { intros x. apply missing_classes_In. exact Hs. }
  split.
  - intros [Hall Hnot]. split; [split; [exact Hall | tauto]|].
    destruct (mem name UpdateExistingCanvas.abstract_classes) eqn:A; [reflexivity|].
    exfalso. apply Hnot. right.
    assert (Ht : In name todo) by (apply Htodo; tauto).
    destruct (N2 name Ht) as (n & Hn & Tn & En).
    exists n. split; [exact Hn|]. split; [exact Tn|].
    pose proof (@found_as_spec name Hall) as F. rewrite A in F.
    unfold found_as in F. rewrite En. exact F.
  - intros [[Hall Hnot] A]. split; [exact Hall|].
    intros [H|(n & Hn & Tn & En)]; [tauto|].
    destruct (N1 n Hn) as (_ & name' & Hname' & En').
    assert (Hall' : In name' UpdateExistingCanvas.ALL_CLASSES) by (apply Htodo; exact Hname').
    pose proof (@found_as_spec name' Hall') as F.
    unfold found_as in F. rewrite <- En', En in F.
    destruct (mem name' UpdateExistingCanvas.abstract_classes) eqn:A'.
    + apply F. exact Hall.
    + subst name'. congruence.
Qed.

(** X4.  [update_existing_canvas.py] run on its own output: the classes
    that the second run finds missing, and for which it adds a node again,
    are exactly the abstract classes that the first run found missing.  The
    node of a class that is not abstract is found again under the name of
    the class; the text of the node of an abstract class, its name between
    asterisks and the mark on a second line, is not cleaned to that name. *)
Theorem X4_update_existing_canvas_second_run :
  forall (set_iter : list str -> list str) (ids : nat -> str) (c : canvas) (name : str),
    keeps_elements set_iter ->
    (In name (UpdateExistingCanvas.missing_classes set_iter
                (UpdateExistingCanvas.get_existing_nodes
                   (UpdateExistingCanvas.main set_iter ids c))) <->
     In name (UpdateExistingCanvas.missing_classes set_iter
                (UpdateExistingCanvas.get_existing_nodes c)) /\
     mem name UpdateExistingCanvas.abstract_classes = true).
Proof. exact second_run_missing. Qed.

Lemma X4_update_existing_canvas_second_run_witness :
  In (lit "Module")
     (UpdateExistingCanvas.missing_classes (fun l => l)
        (UpdateExistingCanvas.get_existing_nodes
           (UpdateExistingCanvas.main (fun l => l) str_of_nat linked_doc))).
Proof.
  apply (@X4_update_existing_canvas_second_run (fun l => l) str_of_nat linked_doc
           (lit "Module")).
  - intros l x. tauto.
  - split; [|reflexivity]. vm_compute. tauto.
Defined.

(* ================================================================== *)
(** * The column of add_shell_nodes.py *)
(* ================================================================== *)





(* ================================================================== *)
(** * The key methods by priority *)
(* ================================================================== *)

Lemma priority_partition (all : list str) :
  Permutation (filter Shared.is_high all ++ filter Shared.is_medium all ++
               filter Shared.is_other all) all.
Proof.
  induction all as [|m all IH]; cbn [filter]; [reflexivity|].
  unfold Shared.is_high at 1, Shared.is_medium at 1, Shared.is_other at 1.
  destruct (Shared.classify m); cbn [app].
  - now constructor.
  - rewrite <- Permutation_middle. now constructor.
  - rewrite app_assoc, <- Permutation_middle, <- app_assoc. now constructor.
Qed.

Lemma NoDup_app_drop {A : Type} (a b c : list A) :
  NoDup (a ++ b ++ c) -> NoDup (a ++ c).
Proof.
  induction a as [|x a IH]; cbn [app].
  - induction b as [|y b IHb]; cbn [app]; [auto|].
    intros H. inversion H; auto.
  - intros H. inversion H as [|? ? Hx Hnd]; subst. constructor.
    + intros Hin. apply Hx. apply in_app_or in Hin.
      apply in_or_app. destruct Hin as [Hin|Hin]; [now left|].
      right. apply in_or_app. now right.
    + now apply IH.
Qed.

Lemma NoDup_firstn_of {A : Type} (n : nat) (l : list A) :
  NoDup l -> NoDup (firstn n l).
Proof.
  intros H. rewrite <- (firstn_skipn n l) in H.
  rewrite <- (app_nil_r (firstn n l)).
  apply NoDup_app_drop with (b := skipn n l). rewrite app_nil_r. exact H.
Qed.

(** The selection in closed form: the first 8 of the first 6 methods of
    high priority, followed by the methods of medium priority and by the
    other ones. *)
Lemma key_methods_closed_form (cn : str) (all : list str) :
  Shared.get_key_interaction_methods cn all =
  firstn 8 (firstn 6 (filter Shared.is_high all) ++ filter Shared.is_medium all ++
            filter Shared.is_other all).
Proof.
  unfold Shared.get_key_interaction_methods.
  destruct all as [|m0 all0]; [reflexivity|].
  set (all := m0 :: all0).
  assert (Hne : filter Shared.is_high all ++ filter Shared.is_medium all ++
                filter Shared.is_other all <> []).
  { intros E. pose proof (priority_partition all) as P. rewrite E in P.
    apply Permutation_nil in P. discriminate. }
  set (H := filter Shared.is_high all) in *.
  set (M := filter Shared.is_medium all) in *.
  set (O := filter Shared.is_other all) in *.
  clearbody H M O.
  set (r0 := firstn 6 H).
  assert (L0 : length r0 <= 6) by apply firstn_le_length.
  replace (length r0 <? 8) with true by (symmetry; apply Nat.ltb_lt; lia).
  rewrite (firstn_app 8 r0), (@firstn_all2 _ 8 r0) by lia.
  rewrite (firstn_app (8 - length r0) M).
  set (r1 := r0 ++ firstn (8 - length r0) M).
  assert (L1 : length r1 = length r0 + Nat.min (8 - length r0) (length M)).
  { unfold r1. rewrite length_app, length_firstn. reflexivity. }
  destruct (length r1 <? 8) eqn:E1.
  - apply Nat.ltb_lt in E1.
    replace (8 - length r0 - length M) with (8 - length r1) by lia.
    set (r2 := r1 ++ firstn (8 - length r1) O).
    assert (L2 : length r2 <= 8).
    { unfold r2. rewrite length_app, length_firstn. lia. }
    assert (N2 : r2 <> []).
    { unfold r2, r1. intros E.
      apply app_eq_nil in E. destruct E as [E E3].
      apply app_eq_nil in E. destruct E as [E0 E2].
      assert (HH : H = []).
      { unfold r0 in E0. destruct H; [reflexivity | discriminate]. }
      subst H. cbn in E2.
      assert (HM : M = []).
      { destruct M; [reflexivity | discriminate]. }
      subst M. cbn in E3.
      assert (HO : O = []).
      { destruct O; [reflexivity | discriminate]. }
      apply Hne. rewrite HO. reflexivity. }
    assert (E2 : firstn 8 r0 ++ firstn (8 - length r0) M ++ firstn (8 - length r1) O = r2).
    { unfold r2, r1. rewrite <- app_assoc. rewrite (@firstn_all2 _ 8 r0) by lia. reflexivity. }
    rewrite (@firstn_all2 _ 8 r0) in E2 by lia. rewrite E2.
    clearbody r2. destruct r2 as [|x r2']; [congruence|].
    rewrite firstn_all2 by exact L2. reflexivity.
  - apply Nat.ltb_ge in E1.
    assert (E8 : length r1 = 8) by lia.
    replace (8 - length r0 - length M) with 0 by lia.
    change (firstn 0 O) with (@nil str). rewrite app_nil_r. fold r1.
    clearbody r1. destruct r1 as [|x r1']; [cbn in E8; lia|].
    rewrite firstn_all2 by lia. reflexivity.
Qed.

(** X6.  The selection of the key methods by [get_key_interaction_methods]
    (both copies): the result lists methods of high priority, then methods
    of medium priority, then the other ones, and starts with the first
    methods of high priority of the list, up to 6; it repeats no method
    when the list repeats none; and it is a rearrangement of the list when
    that has at most 8 methods, at most 6 of them of high priority. *)
Theorem X6_key_methods_by_priority :
  forall (class_name : str) (all_methods : list str),
    let result := Shared.get_key_interaction_methods class_name all_methods in
    UpdateAllNodes.get_key_interaction_methods class_name all_methods = result /\
    UpdateNodeTitles.get_key_interaction_methods class_name all_methods = result /\
    (exists medium other,
        result = firstn 6 (filter Shared.is_high all_methods) ++ medium ++ other /\
        Forall (fun m => Shared.classify m = Shared.Medium) medium /\
        Forall (fun m => Shared.classify m = Shared.Other) other) /\
    (NoDup all_methods -> NoDup result) /\
    (length all_methods <= 8 ->
     length (filter Shared.is_high all_methods) <= 6 ->
     Permutation result all_methods).
Proof.
  intros cn all result. split; [reflexivity|]. split; [reflexivity|].
  unfold result. rewrite key_methods_closed_form.
  set (H := filter Shared.is_high all).
  set (M := filter Shared.is_medium all).
  set (O := filter Shared.is_other all).
  assert (L0 : length (firstn 6 H) <= 6) by apply firstn_le_length.
  split; [|split].
  - rewrite firstn_app, (@firstn_all2 _ 8 (firstn 6 H)) by lia.
    rewrite firstn_app.
    exists (firstn (8 - length (firstn 6 H)) M),
           (firstn (8 - length (firstn 6 H) - length M) O).
    split; [reflexivity|]. split.
    + apply Forall_forall. intros m Hm. apply In_firstn in Hm.
      unfold M in Hm. apply filter_In in Hm. destruct Hm as [_ Hm].
      unfold Shared.is_medium in Hm. destruct (Shared.classify m); congruence.
    + apply Forall_forall. intros m Hm. apply In_firstn in Hm.
      unfold O in Hm. apply filter_In in Hm. destruct Hm as [_ Hm].
      unfold Shared.is_other in Hm. destruct (Shared.classify m); congruence.
  - intros Hnd. apply NoDup_firstn_of.
    assert (N : NoDup (H ++ M ++ O)).
    { eapply Permutation_NoDup; [symmetry; apply priority_partition | exact Hnd]. }
    rewrite <- (firstn_skipn 6 H), <- app_assoc in N.
    exact (NoDup_app_drop _ _ _ N).
  - intros L8 L6. rewrite (@firstn_all2 _ 6 H) by exact L6.
    pose proof (priority_partition all) as P. fold H M O in P.
    rewrite firstn_all2; [exact P|].
    rewrite (Permutation_length P). exact L8.
Qed.

Lemma X6_key_methods_by_priority_witness :
  Permutation
    (Shared.get_key_interaction_methods (lit "Engine")
       (map lit ["draw"; "getState"; "connectAudio"; "tick"]%string))
    (map lit ["draw"; "getState"; "connectAudio"; "tick"]%string).
Proof.
  apply (@X6_key_methods_by_priority (lit "Engine")
           (map lit ["draw"; "getState"; "connectAudio"; "tick"]%string)).
  - vm_compute. lia.
  - vm_compute. lia.
Defined.

(* ================================================================== *)
(** * The names that the extractors return *)
(* ================================================================== *)

Lemma star_loop_captures_names (n : nat) (body : mstate -> cont -> option mstate)
                               (greedy : bool) :
  captures_names n body ->
  forall fuel, captures_names n (fun st k => star_loop body greedy fuel st k).
Proof.
  intros Hbody fuel. induction fuel as [|fuel IH]; intros st k e; cbn [star_loop].
  - intros H. exists st. auto.
  - assert (Again :
      body st (fun st' => if length (ahead st') <? length (ahead st)
                          then star_loop body greedy fuel st' k else None) = Some e ->
      exists st1, (named n (groups st) -> named n (groups st1)) /\ k st1 = Some e).
    { intros H. apply Hbody in H. destruct H as (st' & G & H).
      destruct (length (ahead st') <? length (ahead st)); [|discriminate].
      apply IH in H. destruct H as (st1 & G1 & H).
      exists st1. split; [auto | exact H]. }
    destruct greedy.
    + destruct (body st _) as [m|] eqn:E.
      * intros H. inversion H; subst. apply Again. reflexivity.
      * intros H. exists st. auto.
    + destruct (k st) as [m|] eqn:E.
      * intros H. inversion H; subst. exists st. auto.
      * exact Again.
Qed.

Lemma rmatch_captures_names (n : nat) (r : regex) :
  names_group n r -> captures_names n (rmatch r).
Proof.
  induction r as [|p|r1 IH1 r2 IH2|r1 IH1 r2 IH2|greedy r1 IH1|i r1 IH1| |];
    cbn [names_group]; intros Hn st k e.
  - cbn [rmatch]. intros H. exists st. auto.
  - cbn [rmatch]. destruct st as [l a g]. cbn [ahead passed groups].
    destruct a as [|c t]; [discriminate|].
    destruct (p c); [|discriminate]. intros H.
    exists (MState (c :: l) t g). auto.
  - cbn [rmatch]. destruct Hn as [N1 N2].
    intros H. apply (IH1 N1) in H. destruct H as (st1 & G1 & H).
    apply (IH2 N2) in H. destruct H as (st2 & G2 & H).
    exists st2. split; [auto | exact H].
  - cbn [rmatch]. destruct Hn as [N1 N2].
    destruct (rmatch r1 st k) as [m|] eqn:E.
    + intros H. inversion H; subst. now apply (IH1 N1).
    + apply (IH2 N2).
  - cbn [rmatch]. apply (star_loop_captures_names greedy (IH1 Hn)).
  - destruct (Nat.eqb i n) eqn:E.
    + apply Nat.eqb_eq in E. subst i. subst r1. intros H.
      apply word_group_captures in H. destruct H as (st1 & v & Hv & G & H).
      exists st1. split; [|exact H].
      intros Hg w Hw. rewrite G in Hw. destruct Hw as [Hw|Hw].
      * inversion Hw; subst. exact Hv.
      * now apply Hg.
    + apply Nat.eqb_neq in E. cbn [rmatch]. intros H.
      apply (IH1 Hn) in H. destruct H as (st1 & G & H).
      eexists. split; [|exact H].
      intros Hg w Hw. unfold set_group in Hw. cbn [groups] in Hw.
      destruct Hw as [Hw|Hw].
      * inversion Hw; subst. congruence.
      * now apply G.
  - cbn [rmatch]. destruct (at_word_boundary st); [|discriminate].
    intros H. exists st. auto.
  - cbn [rmatch]. destruct (at_eol st); [|discriminate].
    intros H. exists st. auto.
Qed.

(** What a match that starts without groups captured for the group [n]. *)
Lemma match_group_identifier (n : nat) (r : regex) (m : mstate * mstate) (v : str) :
  names_group n r ->
  groups (fst m) = [] -> rmatch r (fst m) Some = Some (snd m) ->
  group n m = Some v -> identifier v.
Proof.
  intros Hn G0 Hm Hv.
  apply (rmatch_captures_names n r Hn) in Hm. destruct Hm as (st1 & G & H).
  inversion H; subst st1. unfold group in Hv. apply assoc_In in Hv.
  apply G; [|exact Hv]. rewrite G0. intros w [].
Qed.

Lemma search_group_names (n : nat) (r : regex) (text v : str) :
  names_group n r -> search_group n r text = Some v -> identifier v.
Proof.
  intros Hn. unfold search_group, search.
  destruct (search_at r [] text) as [m|] eqn:E; [|discriminate].
  apply search_at_match in E. destruct E as [G0 E].
  exact (match_group_identifier n r m Hn G0 E).
Qed.



Lemma not_special_operator (name : str) :
  Shared.not_special name = true -> name <> lit "operator".
Proof.
  unfold Shared.not_special. rewrite negb_true_iff, mem_false.
  intros H E. apply H. subst. right. now left.
Qed.









(** The constructor is left out, the two methods are returned. *)
Example methods_of_constructor_header :
  UpdateAllNodes.extract_all_public_methods
    (fun _ => Readable constructor_header) (lit "Tag.h") =
  [lit "touch"; lit "connectTo"].
Proof. vm_compute. reflexivity. Qed.

(** What every pass of the harvest keeps, the scan of the lines keeps. *)
Lemma scan_keeps (harvest : list str -> list str -> list str)
                 (P : list str -> Prop) :
  (forall seen ms, P ms -> P (harvest seen ms)) ->
  forall lines seen st,
    P (Scanner.methods st) ->
    P (Scanner.methods (Scanner.scan harvest seen lines st)).
Proof.
  intros Hh. induction lines as [|line lines IH]; intros seen st H;
    cbn [Scanner.scan]; [exact H|].
  apply IH. unfold Scanner.scan_line.
  repeat match goal with
         | |- context [if ?b then _ else _] => destruct b
         end; cbn [Scanner.methods]; auto.
Qed.

Lemma snoc_new (P : str -> Prop) (ms : list str) (m : str) :
  NoDup ms /\ Forall P ms -> mem m ms = false -> P m ->
  NoDup (ms ++ [m]) /\ Forall P (ms ++ [m]).
Proof.
  intros [Hnd Hp] Hm Pm. apply mem_false in Hm. split.
  - apply NoDup_app; [exact Hnd | repeat constructor; intros [] |].
    intros x Hx [Hy|[]]. subst. tauto.
  - apply Forall_app. split; [exact Hp | repeat constructor; exact Pm].
Qed.

Lemma names_shell_method_re : names_group 1 AddShellNodes.method_re.
Proof. cbn. repeat split. Qed.

Lemma names_titles_method_re : names_group 1 UpdateNodeTitles.method_re.
Proof. cbn. repeat split. Qed.

Lemma names_method_patterns :
  Forall (names_group 2) UpdateNodeTitles.method_patterns.
Proof. repeat constructor. Qed.

Lemma first_match_names (patterns : list regex) (line : str)
                        (m : mstate * mstate) (v : str) :
  Forall (names_group 2) patterns ->
  UpdateNodeTitles.first_match patterns line = Some m ->
  group 2 m = Some v -> identifier v.
Proof.
  induction 1 as [|r patterns Hr Hp IH]; cbn [UpdateNodeTitles.first_match];
    [discriminate|].
  destruct (search r line) as [m'|] eqn:E; [|exact IH].
  intros H Hv. inversion H; subst m'.
  apply search_at_match in E. destruct E as [G0 E].
  exact (match_group_identifier 2 r m Hr G0 E Hv).
Qed.

Lemma harvest_shell_keeps (seen ms : list str) :
  NoDup ms /\ Forall (fun m => identifier m /\ m <> lit "operator") ms ->
  NoDup (AddShellNodes.harvest seen ms) /\
  Forall (fun m => identifier m /\ m <> lit "operator") (AddShellNodes.harvest seen ms).
Proof.
  intros H. unfold AddShellNodes.harvest. destruct seen as [|line seen]; [exact H|].
  destruct (search_group 1 AddShellNodes.method_re line) as [name|] eqn:E; [|exact H].
  destruct (negb (str_eqb name [])); cbn [andb]; [|exact H].
  destruct (negb (mem name [lit "~"; lit "operator"])) eqn:K; cbn [andb]; [|exact H].
  destruct (mem name ms) eqn:M; cbn [negb]; [exact H|].
  apply snoc_new; [exact H | exact M|]. split.
  - exact (search_group_names 1 _ _ names_shell_method_re E).
  - now apply not_special_operator.
Qed.

Lemma harvest_all_keeps (seen ms : list str) :
  method_names ms -> method_names (UpdateNodeTitles.harvest_all seen ms).
Proof.
  intros H. unfold UpdateNodeTitles.harvest_all. destruct seen as [|line seen]; [exact H|].
  destruct (search_group 1 UpdateNodeTitles.method_re line) as [name|] eqn:E; [|exact H].
  destruct (negb (str_eqb name [])); cbn [andb]; [|exact H].
  destruct (Shared.not_special name) eqn:K; cbn [andb]; [|exact H].
  destruct (negb (mem name Shared.EXCLUDE_METHODS)) eqn:X; [|exact H].
  assert (N : method_name name).
  { split; [|split].
    - exact (search_group_names 1 _ _ names_titles_method_re E).
    - now apply not_special_operator.
    - apply mem_false. now apply negb_true_iff. }
  destruct (UpdateNodeTitles.enclosing_class (line :: seen)) as [cn|].
  - destruct (negb (str_eqb cn []) && str_eqb name cn); [exact H|].
    destruct (mem name ms) eqn:M; [exact H|].
    now apply snoc_new.
  - destruct (mem name ms) eqn:M; [exact H|].
    now apply snoc_new.
Qed.

Lemma harvest_public_keeps (seen ms : list str) :
  NoDup ms /\ Forall (fun m => method_name m /\ interacts m) ms ->
  NoDup (UpdateNodeTitles.harvest_public seen ms) /\
  Forall (fun m => method_name m /\ interacts m)
         (UpdateNodeTitles.harvest_public seen ms).
Proof.
  intros H. unfold UpdateNodeTitles.harvest_public.
  destruct seen as [|line seen]; [exact H|].
  destruct (UpdateNodeTitles.first_match UpdateNodeTitles.method_patterns line)
    as [m|] eqn:E; [|exact H].
  destruct (group 2 m) as [name|] eqn:G; [|exact H].
  destruct (negb (str_eqb name [])); cbn [andb]; [|exact H].
  destruct (negb (mem name [lit "~"; lit "operator"; lit "ConnectionManager"])) eqn:K;
    cbn [andb]; [|exact H].
  destruct (any_in Shared.INTERACTION_KEYWORDS (lower name)) eqn:I; cbn [andb]; [|exact H].
  destruct (negb (mem name Shared.EXCLUDE_METHODS)) eqn:X; cbn [andb]; [|exact H].
  destruct (mem name ms) eqn:M; cbn [negb]; [exact H|].
  apply snoc_new; [exact H | exact M|]. split; [split; [|split]|].
  - exact (first_match_names _ names_method_patterns E G).
  - rewrite negb_true_iff, mem_false in K. intros Eq. apply K. subst. right. now left.
  - apply mem_false. now apply negb_true_iff.
  - exact I.
Qed.

(** X8.  The names that the line scanners extract from a header: the
    result of [extract_public_methods] of [add_shell_nodes.py] repeats no
    name, and every name is a non-empty run of word characters other than
    [operator]; the results of [extract_all_public_methods] and
    [extract_public_methods] of [update_node_titles.py] repeat no name and
    hold no name of [EXCLUDE_METHODS] either, and every name that the latter
    returns holds one of [INTERACTION_KEYWORDS]. *)
Theorem X8_scanned_names_are_clean :
  forall (fs : filesystem) (header_path : str),
    (NoDup (AddShellNodes.extract_public_methods fs header_path) /\
     Forall (fun m => identifier m /\ m <> lit "operator")
            (AddShellNodes.extract_public_methods fs header_path)) /\
    method_names (UpdateNodeTitles.extract_all_public_methods fs header_path) /\
    method_names (UpdateNodeTitles.extract_public_methods fs header_path) /\
    Forall interacts (UpdateNodeTitles.extract_public_methods fs header_path).
Proof.
  intros fs path.
  unfold AddShellNodes.extract_public_methods,
    UpdateNodeTitles.extract_all_public_methods,
    UpdateNodeTitles.extract_public_methods.
  destruct (fs path) as [| |content].
  1, 2: repeat split; constructor.
  split; [|split].
  - unfold AddShellNodes.scan_header, Scanner.scan_lines.
    apply (scan_keeps AddShellNodes.harvest
             (fun ms => NoDup ms /\
                        Forall (fun m => identifier m /\ m <> lit "operator") ms)).
    + intros seen ms. apply harvest_shell_keeps.
    + split; constructor.
  - unfold UpdateNodeTitles.all_public_methods, Scanner.scan_lines.
    apply (scan_keeps UpdateNodeTitles.harvest_all method_names).
    + intros seen ms. apply harvest_all_keeps.
    + split; constructor.
  - assert (S : NoDup (UpdateNodeTitles.scan_header content) /\
                Forall (fun m => method_name m /\ interacts m)
                       (UpdateNodeTitles.scan_header content)).
    { unfold UpdateNodeTitles.scan_header, Scanner.scan_lines.
      apply (scan_keeps UpdateNodeTitles.harvest_public
               (fun ms => NoDup ms /\ Forall (fun m => method_name m /\ interacts m) ms)).
      - intros seen ms. apply harvest_public_keeps.
      - split; constructor. }
    destruct S as [Hnd Hf]. split; [split; [exact Hnd|]|].
    + eapply Forall_impl; [|exact Hf]. cbv beta. tauto.
    + eapply Forall_impl; [|exact Hf]. cbv beta. tauto.
Qed.

(* ================================================================== *)
(** * The loop that looks for the closing brace *)
(* ================================================================== *)

Lemma count_char_app (c : ascii) (a b : str) :
  count_char c (a ++ b) = count_char c a + count_char c b.
Proof. unfold count_char. rewrite filter_app, length_app. reflexivity. Qed.

Lemma count_char_cons (c x : ascii) (s : str) :
  count_char c (x :: s) = (if Ascii.eqb x c then 1 else 0) + count_char c s.
Proof.
  unfold count_char. cbn [filter]. rewrite (Ascii.eqb_sym c x).
  destruct (Ascii.eqb x c); reflexivity.
Qed.

Lemma never_closes_tail (d d' : nat) (c : ascii) (s : str) :
  never_closes d (c :: s) ->
  d' + closes [c] = d + opens [c] ->
  never_closes d' s.
Proof.
  intros H E p q Hs. specialize (H (c :: p) q). cbn [app] in H.
  specialize (H (f_equal (cons c) Hs)).
  unfold closes, opens in *. rewrite !count_char_cons in *.
  cbn [count_char filter length] in E. unfold count_char in E. cbn in E.
  destruct (Ascii.eqb c "}"), (Ascii.eqb c "{"); lia.
Qed.

Lemma never_closes_head (d : nat) (c : ascii) (s : str) :
  never_closes d (c :: s) -> closes [c] <= d + opens [c].
Proof. intros H. exact (H [c] s eq_refl). Qed.

(** As long as no brace closes the one counted at the start, the scan runs
    to the end of the text. *)
Lemma brace_scan_open (s : str) :
  forall d, never_closes d s -> Shared.brace_scan (S d) s = length s.
Proof.
  induction s as [|c s IH]; intros d H; [reflexivity|].
  pose proof (@never_closes_head d c _ H) as Hh.
  cbn [Shared.brace_scan length].
  unfold closes, opens in Hh. rewrite !count_char_cons in Hh.
  unfold count_char in Hh. cbn [filter length] in Hh.
  destruct (Ascii.eqb c "{") eqn:E1.
  - f_equal. apply (IH (S d)). apply (@never_closes_tail d (S d) c s H).
    apply Ascii.eqb_eq in E1. subst c. unfold closes, opens, count_char; cbn; lia.
  - destruct (Ascii.eqb c "}") eqn:E2.
    + destruct d as [|d]; [cbn in Hh; lia|].
      f_equal. apply (IH d). apply (@never_closes_tail (S d) d c s H).
      apply Ascii.eqb_eq in E2. subst c. unfold closes, opens, count_char; cbn; lia.
    + f_equal. apply (IH d). apply (@never_closes_tail d d c s H).
      unfold closes, opens. rewrite !count_char_cons, E1, E2. unfold count_char; cbn; lia.
Qed.

(** The scan stops behind the brace that closes the one counted at the
    start. *)
Lemma brace_scan_closed (body : str) :
  forall d rest,
    never_closes d body -> d + opens body = closes body ->
    Shared.brace_scan (S d) (body ++ "}"%char :: rest) = S (length body).
Proof.
  induction body as [|c body IH]; intros d rest H E.
  - cbn in E. assert (d = 0) by lia. subst d. destruct rest; reflexivity.
  - pose proof (@never_closes_head d c _ H) as Hh.
    cbn [Shared.brace_scan length app].
    unfold closes, opens in Hh, E. rewrite !count_char_cons in Hh, E.
    unfold count_char in Hh. cbn [filter length] in Hh.
    destruct (Ascii.eqb c "{") eqn:E1.
    + assert (E2 : Ascii.eqb c "}" = false).
      { apply Ascii.eqb_eq in E1. subst c. unfold closes, opens, count_char; cbn; lia. }
      rewrite E2 in E.
      f_equal. apply (IH (S d)).
      * apply (@never_closes_tail d (S d) c body H).
        apply Ascii.eqb_eq in E1. subst c. unfold closes, opens, count_char; cbn; lia.
      * unfold opens, closes. lia.
    + destruct (Ascii.eqb c "}") eqn:E2.
      * destruct d as [|d]; [cbn in Hh; lia|].
        f_equal. apply (IH d).
        -- apply (@never_closes_tail (S d) d c body H).
           apply Ascii.eqb_eq in E2. subst c. unfold closes, opens, count_char; cbn; lia.
        -- unfold opens, closes. lia.
      * f_equal. apply (IH d).
        -- apply (@never_closes_tail d d c body H).
           unfold closes, opens. rewrite !count_char_cons, E1, E2. unfold count_char; cbn; lia.
        -- unfold opens, closes. lia.
Qed.

Lemma stays_open_sound (s : str) :
  forall d, stays_open d s = true -> never_closes d s.
Proof.
  induction s as [|c s IH]; intros d H p q E.
  - destruct p; [cbn; lia | discriminate].
  - destruct p as [|c' p]; [cbn; lia|].
    cbn [app] in E. injection E as <- E.
    unfold closes, opens. rewrite !count_char_cons.
    cbn [stays_open] in H.
    destruct (Ascii.eqb c "{") eqn:E1.
    + assert (E2 : Ascii.eqb c "}" = false).
      { apply Ascii.eqb_eq in E1. subst c. reflexivity. }
      rewrite E2. pose proof (IH (S d) H p q E) as G.
      unfold closes, opens in G. lia.
    + destruct (Ascii.eqb c "}") eqn:E2.
      * destruct d as [|d]; [discriminate|].
        pose proof (IH d H p q E) as G. unfold closes, opens in G. lia.
      * pose proof (IH d H p q E) as G. unfold closes, opens in G. lia.
Qed.

(** X9.  The loop that looks for the closing brace, started with the count
    1 behind an opening brace as [extract_all_public_methods] of
    [update_all_nodes.py] does: when the text goes on with a text whose
    braces match and then a closing brace, the body is that text, whatever
    follows; when no brace closes the one counted, the loop runs to the end
    and the body is the text without its last character. *)
Theorem X9_brace_body_up_to_matching_brace :
  forall (body rest : str),
    (balanced body -> Shared.brace_body (body ++ "}"%char :: rest) = body) /\
    (never_closes 0 rest -> Shared.brace_body rest = but_last rest).
Proof.
  intros body rest. unfold Shared.brace_body. split.
  - intros [H E]. rewrite (@brace_scan_closed body 0 rest H E).
    cbn [Nat.sub]. rewrite Nat.sub_0_r.
    rewrite firstn_app, firstn_all, Nat.sub_diag. cbn [firstn]. apply app_nil_r.
  - intros H. rewrite (@brace_scan_open rest 0 H). reflexivity.
Qed.

Lemma X9_brace_body_up_to_matching_brace_witness :
  Shared.brace_body (lit " int f() { return 0; } };  class B {}") =
  lit " int f() { return 0; } ".
Proof.
  apply (proj1 (@X9_brace_body_up_to_matching_brace
                  (lit " int f() { return 0; } ") (lit ";  class B {}"))).
  split; [|reflexivity].
  apply stays_open_sound. vm_compute. reflexivity.
Defined.
Lemma never_closes_app (d : nat) (a b : str) :
  never_closes d a ->
  never_closes (d + opens a - closes a) b ->
  never_closes d (a ++ b).
Proof.
  intros Ha Hb p q E.
  pose proof (Ha a [] (eq_sym (app_nil_r a))) as Hall.
  apply app_eq_app in E. destruct E as [l [[E1 E2]|[E1 E2]]].
  - exact (Ha p l E1).
  - subst p. pose proof (Hb l q E2) as Hl.
    unfold closes, opens in *. rewrite !count_char_app. lia.
Qed.

Lemma never_closes_more (d d' : nat) (s : str) :
  d <= d' -> never_closes d s -> never_closes d' s.
Proof. intros L H p q E. specialize (H p q E). lia. Qed.

Lemma brace_free_never_closes (s : str) : brace_free s -> never_closes 0 s.
Proof.
  intros [_ C] p q E. subst s.
  unfold closes in *. rewrite count_char_app in C. lia.
Qed.

Lemma never_closes_one (d : nat) (c : ascii) :
  closes [c] <= d + opens [c] -> never_closes d [c].
Proof.
  intros H p q E. destruct p as [|c' p]; [cbn; lia|].
  cbn [app] in E. injection E as <- E.
  destruct p; [exact H | discriminate].
Qed.

Lemma struct_text_never_closes (pre body rest : str) :
  brace_free pre -> balanced body -> never_closes 0 rest ->
  never_closes 0 (pre ++ "{"%char :: body ++ "}"%char :: rest).
Proof.
  intros Hpre [Hb Eb] Hrest.
  apply never_closes_app; [now apply brace_free_never_closes|].
  destruct Hpre as [O C]. rewrite O, C. cbn [Nat.add Nat.sub].
  change ("{"%char :: body ++ "}"%char :: rest)
    with (["{"%char] ++ body ++ ["}"%char] ++ rest).
  apply never_closes_app; [apply never_closes_one; cbn; lia|].
  change (0 + opens ["{"%char] - closes ["{"%char]) with 1.
  apply never_closes_app; [exact (never_closes_more (Nat.le_succ_diag_r 0) Hb)|].
  replace (1 + opens body - closes body) with 1 by lia.
  apply never_closes_app; [apply never_closes_one; cbn; lia|].
  exact Hrest.
Qed.

(** X10.  [extract_struct_members] starts the same loop with the count 1
    behind the name of the struct, in front of its opening brace.  The
    closing brace of the struct then leaves the count at 1 and the loop goes
    on: when the braces of the text that follows never close more than they
    open, the loop runs to the end, and the members are collected from the
    whole rest of the header (without its last character), beyond the
    struct. *)
Theorem X10_struct_scan_passes_closing_brace :
  forall (struct_name content : str) (m : mstate * mstate) (pre body rest : str),
    search (Shared.struct_re struct_name) content = Some m ->
    after m = pre ++ "{"%char :: body ++ "}"%char :: rest ->
    brace_free pre -> balanced body -> never_closes 0 rest ->
    Shared.brace_body (after m) = but_last (after m) /\
    Shared.struct_members struct_name content =
    Shared.collect
      (fun _ name => Shared.not_special name && negb (mem name Shared.EXCLUDE_METHODS))
      (map (group 1) (finditer Shared.member_re (but_last (after m)))) [].
Proof.
  intros sn content m pre body rest Hm Ha Hpre Hbody Hrest.
  assert (B : Shared.brace_body (after m) = but_last (after m)).
  { rewrite Ha. unfold Shared.brace_body.
    rewrite (@brace_scan_open _ 0 (struct_text_never_closes Hpre Hbody Hrest)).
    reflexivity. }
  split; [exact B|].
  unfold Shared.struct_members. rewrite Hm, B. reflexivity.
Qed.

Lemma X10_struct_scan_passes_closing_brace_witness :
  Shared.struct_members (lit "Port")
    (lit "struct Port { int id; };  struct Voice { void play(); }; ") =
  [lit "play"].
Proof.
  destruct (search (Shared.struct_re (lit "Port"))
              (lit "struct Port { int id; };  struct Voice { void play(); }; "))
    as [m|] eqn:Hm; [|vm_compute in Hm; discriminate].
  assert (Em : m = (MState [] (lit "struct Port { int id; };  struct Voice { void play(); }; ") [],
                    MState (rev (lit "struct Port"))
                           (lit " { int id; };  struct Voice { void play(); }; ") [])).
  { vm_compute in Hm. injection Hm as <-. reflexivity. }
  destruct (@X10_struct_scan_passes_closing_brace (lit "Port")
              (lit "struct Port { int id; };  struct Voice { void play(); }; ")
              m (lit " ") (lit " int id; ") (lit ";  struct Voice { void play(); }; "))
    as [_ E].
  - exact Hm.
  - rewrite Em. reflexivity.
  - split; reflexivity.
  - split; [apply stays_open_sound; vm_compute; reflexivity | reflexivity].
  - apply stays_open_sound. vm_compute. reflexivity.
  - rewrite E, Em. vm_compute. reflexivity.
Defined.

(* ================================================================== *)
(** * The description of a class *)
(* ================================================================== *)

Lemma star_loop_total (body : mstate -> cont -> option mstate) (greedy : bool)
                      (fuel : nat) (st : mstate) :
  exists e, star_loop body greedy fuel st Some = Some e.
Proof.
  destruct fuel as [|fuel]; cbn [star_loop]; [eauto|].
  destruct greedy.
  - destruct (body st _) as [m|]; eauto.
  - eauto.
Qed.

Lemma match_goes_forward (r : regex) (left right : str) (e : mstate) :
  rmatch_at r left right = Some e -> exists x, right = x ++ ahead e.
Proof.
  unfold rmatch_at. intros E. apply rmatch_passes_on in E.
  destruct E as (st1 & [(x & _ & Hx) _] & E). inversion E; subst st1.
  exists x. exact Hx.
Qed.

(** A pattern that starts with a character of the class [p] and goes on
    with a repetition matches wherever such a character stands, and passes
    it. *)
Lemma class_then_star_matches (p : ascii -> bool) (r1 : regex) (l : str)
                              (c : ascii) (t : str) :
  p c = true ->
  exists e, rmatch_at (Seq (Cls p) (Star true r1)) l (c :: t) = Some e /\
            length (ahead e) < length (c :: t).
Proof.
  intros Hp.
  destruct (star_loop_total (rmatch r1) true (length t) (MState (c :: l) t []))
    as [e He].
  assert (E : rmatch_at (Star true r1) (c :: l) t = Some e) by exact He.
  exists e. split.
  - unfold rmatch_at. cbn [rmatch ahead passed groups]. rewrite Hp. exact He.
  - apply match_goes_forward in E. destruct E as [x Hx].
    apply (f_equal (@length ascii)) in Hx. rewrite length_app in Hx.
    cbn [length]. lia.
Qed.

(** The characters of the result of [re.sub]: those of the replacement and
    those of the text at which the pattern does not match. *)
Lemma sub_loop_chars (r : regex) (repl : str) (p : ascii -> bool)
                     (Q R : ascii -> Prop) :
  (forall l c t, p c = true ->
     exists e, rmatch_at r l (c :: t) = Some e /\
               length (ahead e) < length (c :: t)) ->
  Forall R repl ->
  (forall c, Q c -> p c = false -> R c) ->
  forall fuel left right,
    length right < fuel ->
    Forall Q right -> Forall R (sub_loop r repl fuel left right).
Proof.
  intros Hm Hrepl Hkeep. induction fuel as [|fuel IH]; intros left right Hlen Hq;
    [lia|].
  cbn [sub_loop].
  destruct (rmatch_at r left right) as [e|] eqn:E.
  - destruct (length (ahead e) <? length right) eqn:L.
    + apply Nat.ltb_lt in L.
      apply Forall_app. split; [exact Hrepl|]. apply IH; [lia|].
      apply match_goes_forward in E. destruct E as [x Hx].
      rewrite Hx in Hq. apply Forall_app in Hq. tauto.
    + destruct right as [|c t]; [exact Hrepl|].
      apply Forall_app. split; [exact Hrepl|].
      inversion Hq as [|? ? Qc Qt]; subst.
      constructor; [|apply IH; [cbn in Hlen; lia | exact Qt]].
      apply Hkeep; [exact Qc|].
      destruct (p c) eqn:Pc; [|reflexivity].
      destruct (Hm left c t Pc) as (e' & E' & L').
      rewrite E in E'. inversion E'; subst e'.
      apply Nat.ltb_ge in L. lia.
  - destruct right as [|c t]; [constructor|].
    inversion Hq as [|? ? Qc Qt]; subst.
    constructor; [|apply IH; [cbn in Hlen; lia | exact Qt]].
    apply Hkeep; [exact Qc|].
    destruct (p c) eqn:Pc; [|reflexivity].
    destruct (Hm left c t Pc) as (e' & E' & _). congruence.
Qed.

Lemma Forall_lstrip_by (P : ascii -> Prop) (p : ascii -> bool) (s : str) :
  Forall P s -> Forall P (lstrip_by p s).
Proof.
  induction 1 as [|c s Hc Hs IH]; cbn [lstrip_by]; [constructor|].
  destruct (p c); [exact IH | now constructor].
Qed.

Lemma Forall_strip (P : ascii -> Prop) (s : str) : Forall P s -> Forall P (strip s).
Proof.
  intros H. unfold strip, rstrip_by.
  apply Forall_rev, Forall_lstrip_by, Forall_rev, Forall_lstrip_by. exact H.
Qed.

Lemma plain_one_line (d : str) :
  length d <= 120 -> Forall plain d -> one_line d.
Proof.
  intros L H. rewrite Forall_forall in H. split; [exact L|]. split.
  - intros Hin. destruct (H _ Hin) as [Hs _]. congruence.
  - intros Hin. destruct (H _ Hin) as [_ [Hs|Hs]]; vm_compute in Hs; discriminate.
Qed.

(** A description read from a documentation comment. *)
Lemma doc_description_one_line (class_name before_class desc : str) :
  Shared.doc_description class_name before_class = Some desc ->
  desc <> [] /\ one_line desc.
Proof.
  unfold Shared.doc_description.
  destruct (last _ None) as [last_block|]; [|discriminate].
  destruct (filter _ _) as [|first_line lines]; [discriminate|].
  set (desc0 := match find_sub (lit " - ") first_line with
                | Some (_, rest) => rest
                | None => _
                end).
  set (desc1 := Re.sub (Seq (Chr "*") (Star true space)) [] desc0).
  set (desc2 := Re.sub (Plus space) (lit " ") desc1).
  assert (H1 : Forall (fun c => c <> "*"%char) desc1).
  { unfold desc1, Re.sub.
    apply (@sub_loop_chars _ [] (Ascii.eqb "*") (fun _ => True)).
    - intros l c t Hp. now apply class_then_star_matches.
    - constructor.
    - intros c _ Hp E. subst c. discriminate.
    - lia.
    - apply Forall_forall. auto. }
  assert (H2 : Forall plain desc2).
  { unfold desc2, Re.sub.
    apply (@sub_loop_chars _ (lit " ") is_space (fun c => c <> "*"%char)).
    - intros l c t Hp. now apply class_then_star_matches.
    - change (lit " ") with [" "%char]. constructor; [|constructor].
      split; [discriminate | now right].
    - intros c Hc Hp. split; [exact Hc | now left].
    - lia.
    - exact H1. }
  assert (H3 : Forall plain (strip desc2)) by now apply Forall_strip.
  destruct (120 <? length (strip desc2)) eqn:L.
  - intros H.
    assert (E : firstn 117 (strip desc2) ++ lit "..." = desc).
    { destruct (firstn 117 (strip desc2) ++ lit "...") as [|c d]; [discriminate|].
      now inversion H. }
    subst desc. split.
    + intros E. apply app_eq_nil in E. destruct E as [_ E]. discriminate.
    + apply plain_one_line.
      * rewrite length_app. pose proof (firstn_le_length 117 (strip desc2)).
        cbn [length lit list_ascii_of_string]. lia.
      * apply Forall_app. split.
        -- apply Forall_forall. intros c Hc. apply In_firstn in Hc.
           rewrite Forall_forall in H3. now apply H3.
        -- change (lit "...") with ["."%char; "."%char; "."%char].
           assert (D : plain ".") by (split; [discriminate | now left]).
           repeat (constructor; [exact D|]). constructor.
  - apply Nat.ltb_ge in L. intros H.
    destruct (strip desc2) as [|c d] eqn:E; [discriminate|].
    inversion H; subst desc. split; [discriminate|].
    now apply plain_one_line.
Qed.

Lemma fits_line_sound (d : str) : fits_line d = true -> one_line d.
Proof.
  unfold fits_line, one_line. intros H.
  apply andb_prop in H. destruct H as [H H3].
  apply andb_prop in H. destruct H as [H1 H2].
  apply Nat.leb_le in H1. rewrite negb_true_iff in H2, H3.
  split; [exact H1|]. split; intros Hin.
  - assert (E : existsb (Ascii.eqb "*") d = true).
    { apply existsb_exists. exists "*"%char. split; [exact Hin | reflexivity]. }
    congruence.
  - assert (E : existsb (Ascii.eqb newline) d = true).
    { apply existsb_exists. exists newline. split; [exact Hin | reflexivity]. }
    congruence.
Qed.

Lemma fallback_one_line (table : list (str * str)) (class_name : str) :
  forallb fits_line (map snd table) = true ->
  one_line (match lookup class_name table with Some d => d | None => [] end).
Proof.
  intros H. destruct (lookup class_name table) as [d|] eqn:E.
  - apply lookup_In in E. apply fits_line_sound.
    rewrite forallb_forall in H. apply H.
    apply in_map_iff. exists (class_name, d). auto.
  - apply fits_line_sound. reflexivity.
Qed.

Lemma fallbacks_fit :
  forallb fits_line (map snd UpdateAllNodes.fallbacks) = true /\
  forallb fits_line (map snd UpdateNodeTitles.fallbacks) = true.
Proof. split; vm_compute; reflexivity. Qed.

(** X11.  The description that [extract_class_description] returns (both
    copies), whether it is read from the documentation comment in front of
    the class or taken from the table of fallbacks, whatever the header
    holds: it has at most 120 characters and holds neither an asterisk nor
    a line break, so that it fits between the asterisks of the one line of
    the node text where it is written.  A description read from a comment
    is not empty. *)
Theorem X11_description_fits_one_line :
  forall (fs : filesystem) (header_path class_name : str),
    one_line (UpdateAllNodes.extract_class_description fs header_path class_name) /\
    one_line (UpdateNodeTitles.extract_class_description fs header_path class_name) /\
    (forall before_class desc,
        Shared.doc_description class_name before_class = Some desc ->
        desc <> [] /\ one_line desc).
Proof.
  intros fs path cn.
  pose proof (fallback_one_line UpdateAllNodes.fallbacks cn (proj1 fallbacks_fit)) as F1.
  pose proof (fallback_one_line UpdateNodeTitles.fallbacks cn (proj2 fallbacks_fit)) as F2.
  split; [|split].
  - unfold UpdateAllNodes.extract_class_description, UpdateAllNodes.class_description,
      UpdateAllNodes.get_fallback_description.
    destruct (fs path) as [| |content]; [exact F1 | exact F1|].
    destruct (Shared.find_definition cn content) as [m|]; [|exact F1].
    destruct (Shared.doc_description cn _) as [desc|] eqn:E; [|exact F1].
    exact (proj2 (doc_description_one_line _ _ E)).
  - unfold UpdateNodeTitles.extract_class_description, UpdateNodeTitles.class_description,
      UpdateNodeTitles.get_fallback_description.
    destruct (fs path) as [| |content]; [exact F2 | exact F2|].
    destruct (Shared.find_definition cn content) as [m|]; [|exact F2].
    destruct (Shared.doc_description cn _) as [desc|] eqn:E; [|exact F2].
    exact (proj2 (doc_description_one_line _ _ E)).
  - intros before_class desc. apply doc_description_one_line.
Qed.

Lemma X11_description_fits_one_line_witness :
  lit "plays one" <> [] /\ one_line (lit "plays one").
Proof.
  apply (proj2 (proj2 (@X11_description_fits_one_line no_files (lit "Voice.h")
                         (lit "Voice")))
           (lit "/** Voice - plays *one*
 note */ ")).
  vm_compute. reflexivity.
Defined.

(* ================================================================== *)
(** * The search for the header of a class *)
(* ================================================================== *)

Lemma first_existing_Some (fs : filesystem) (paths : list str) (p : str) :
  first_existing fs paths = Some p -> In p paths /\ exists_ fs p = true.
Proof.
  induction paths as [|q paths IH]; cbn [first_existing]; [discriminate|].
  destruct (exists_ fs q) eqn:E.
  - intros H. inversion H; subst. split; [now left | exact E].
  - intros H. destruct (IH H). split; [now right | assumption].
Qed.

Lemma first_existing_None (fs : filesystem) (paths : list str) :
  first_existing fs paths = None <-> forall p, In p paths -> fs p = Missing.
Proof.
  induction paths as [|q paths IH]; cbn [first_existing].
  - split; [intros _ p [] | reflexivity].
  - unfold exists_ at 1. destruct (fs q) eqn:E.
    + rewrite IH. split.
      * intros H p [Hp|Hp]; [subst; exact E | now apply H].
      * intros H p Hp. apply H. now right.
    + split; [discriminate|]. intros H. specialize (H q (or_introl eq_refl)). congruence.
    + split; [discriminate|]. intros H. specialize (H q (or_introl eq_refl)). congruence.
Qed.

Lemma first_existing_app (fs : filesystem) (a b : list str) :
  first_existing fs (a ++ b) =
  match first_existing fs a with
  | Some p => Some p
  | None => first_existing fs b
  end.
Proof.
  induction a as [|q a IH]; cbn [app first_existing]; [reflexivity|].
  destruct (exists_ fs q); [reflexivity | exact IH].
Qed.

Lemma titles_candidates_extend (class_name : str) :
  exists more,
    UpdateNodeTitles.class_file_candidates class_name =
    UpdateAllNodes.class_file_candidates class_name ++ more.
Proof.
  unfold UpdateNodeTitles.class_file_candidates, UpdateAllNodes.class_file_candidates.
  eexists. rewrite <- !app_assoc. reflexivity.
Qed.

(** X12.  The search for the header of a class: a path that
    [find_class_file] returns exists and is one of the paths it tries, in
    both scripts; [update_all_nodes.py] finds no header exactly when none of
    the paths it tries exists; and [update_node_titles.py], which tries the
    same paths first and then some more, finds the header that
    [update_all_nodes.py] finds whenever that finds one. *)
Theorem X12_find_class_file :
  forall (fs : filesystem) (class_name : str),
    (forall p, UpdateAllNodes.find_class_file fs class_name = Some p ->
       In p (UpdateAllNodes.class_file_candidates class_name) /\
       exists_ fs p = true /\
       UpdateNodeTitles.find_class_file fs class_name = Some p) /\
    (forall p, UpdateNodeTitles.find_class_file fs class_name = Some p ->
       In p (UpdateNodeTitles.class_file_candidates class_name) /\
       exists_ fs p = true) /\
    (UpdateAllNodes.find_class_file fs class_name = None <->
     forall p, In p (UpdateAllNodes.class_file_candidates class_name) ->
               fs p = Missing).
Proof.
  intros fs cn. unfold UpdateAllNodes.find_class_file, UpdateNodeTitles.find_class_file.
  split; [|split].
  - intros p H. destruct (first_existing_Some _ _ H) as [Hin He].
    split; [exact Hin|]. split; [exact He|].
    destruct (titles_candidates_extend cn) as [more E].
    rewrite E, first_existing_app, H. reflexivity.
  - intros p H. exact (first_existing_Some _ _ H).
  - apply first_existing_None.
Qed.

Lemma X12_find_class_file_witness :
  UpdateNodeTitles.find_class_file sample_files (lit "Engine") =
  Some (lit "/Users/jaufre/works/of_v0.12.1_osx_release/apps/myApps/videoTracker/src/Engine.h").
Proof.
  apply (proj1 (@X12_find_class_file sample_files (lit "Engine"))).
  vm_compute. reflexivity.
Defined.

(* ================================================================== *)
(** * The canvas of generate_uml_canvas.py *)
(* ================================================================== *)

Lemma apart_b_sound (a b : node) : apart_b a b = true -> apart a b.
Proof.
  unfold apart_b, apart. rewrite !orb_true_iff, !Z.leb_le. tauto.
Qed.

Lemma apart_sym (a b : node) : apart a b -> apart b a.
Proof. unfold apart. tauto. Qed.

(** Where [layout_classes] puts the object at the place [k] of the
    dictionary: in the column of its layer, at the row of its place [i] in
    the sorted layer. *)
Lemma layout_at (classes : list (str * GenerateUmlCanvas.UMLClass))
                (k : nat) (key : str) (c : GenerateUmlCanvas.UMLClass) :
  nth_error classes k = Some (key, c) ->
  exists i,
    nth_error (GenerateUmlCanvas.sort_layer
                 (filter (has_layer (GenerateUmlCanvas.layer c))
                         (GenerateUmlCanvas.objects classes))) i = Some (k, c) /\
    nth_error (GenerateUmlCanvas.layout_classes classes) k =
    Some (key,
          GenerateUmlCanvas.set_position
            (GenerateUmlCanvas.x_base (GenerateUmlCanvas.layer c))
            (GenerateUmlCanvas.y_base (GenerateUmlCanvas.layer c) +
             Z.of_nat i * GenerateUmlCanvas.NODE_SPACING_Y)%Z c).
Proof.
  intros Hk.
  set (L := GenerateUmlCanvas.layer c).
  set (objs := GenerateUmlCanvas.objects classes).
  set (g := filter (has_layer L) objs).
  assert (Hobj : In (k, c) objs).
  { unfold objs, GenerateUmlCanvas.objects. rewrite <- (length_map snd classes).
    apply nth_error_In with (n := k).
    rewrite (@nth_error_combine_seq _ (map snd classes) 0 k c); [reflexivity|].
    rewrite nth_error_map, Hk. reflexivity. }
  assert (Hing : In (k, c) g).
  { unfold g. apply filter_In. split; [exact Hobj|].
    unfold has_layer. cbn [snd]. apply str_eqb_refl. }
  assert (Hsorted : In (k, c) (GenerateUmlCanvas.sort_layer g)).
  { apply (Permutation_in _ (Permutation_sym
             (stable_sort_perm (fun a b => GenerateUmlCanvas.key_leb (snd a) (snd b)) g))).
    exact Hing. }
  apply In_nth_error in Hsorted. destruct Hsorted as [i Hi].
  exists i. split; [exact Hi|].
  assert (Hg : group_of L (GenerateUmlCanvas.by_layer objs) = g).
  { unfold GenerateUmlCanvas.by_layer. rewrite fold_push_group. reflexivity. }
  assert (Hgrp : In (L, g) (GenerateUmlCanvas.by_layer objs)).
  { unfold group_of in Hg.
    destruct (lookup L (GenerateUmlCanvas.by_layer objs)) as [g'|] eqn:E.
    - subst g'. now apply lookup_In.
    - exfalso. rewrite <- Hg in Hing. exact Hing. }
  set (placed := flat_map GenerateUmlCanvas.place_layer (GenerateUmlCanvas.by_layer objs)).
  assert (Hpos : GenerateUmlCanvas.position_of k placed =
                 Some (GenerateUmlCanvas.x_base L,
                       (GenerateUmlCanvas.y_base L +
                        Z.of_nat i * GenerateUmlCanvas.NODE_SPACING_Y)%Z)).
  { apply position_of_In; [apply placed_keys_NoDup|].
    unfold placed. apply in_flat_map. exists (L, g). split; [exact Hgrp|].
    unfold GenerateUmlCanvas.place_layer. cbn [fst snd].
    apply (@place_nth L (GenerateUmlCanvas.sort_layer g) 0 i k c Hi). }
  unfold GenerateUmlCanvas.layout_classes. fold objs. fold placed.
  rewrite nth_error_map, (@nth_error_combine_seq _ classes 0 k _ Hk).
  cbn [option_map Nat.add]. rewrite Hpos. reflexivity.
Qed.

Lemma all_apart_b_sound (l : list node) :
  all_apart_b l = true ->
  forall i j a b, i <> j -> nth_error l i = Some a -> nth_error l j = Some b -> apart a b.
Proof.
  induction l as [|x l IH]; cbn [all_apart_b]; intros H i j a b Hij Ha Hb.
  - destruct i; discriminate.
  - apply andb_prop in H. destruct H as [Hx Hl]. rewrite forallb_forall in Hx.
    destruct i as [|i], j as [|j]; cbn [nth_error] in Ha, Hb.
    + congruence.
    + inversion Ha; subst. apply apart_b_sound, Hx.
      apply nth_error_In with (n := j). exact Hb.
    + inversion Hb; subst. apply apart_sym, apart_b_sound, Hx.
      apply nth_error_In with (n := i). exact Ha.
    + apply (IH Hl i j); [congruence | assumption | assumption].
Qed.

Lemma y_base_top (layer_name : str) : GenerateUmlCanvas.y_base layer_name = 120%Z.
Proof.
  unfold GenerateUmlCanvas.y_base.
  destruct (lookup layer_name GenerateUmlCanvas.UML_LAYERS) as [info|] eqn:E;
    [|reflexivity].
  apply lookup_In in E.
  assert (T : layers_at_top_b = true) by (vm_compute; reflexivity).
  unfold layers_at_top_b in T. rewrite forallb_forall in T.
  specialize (T _ E). cbn [snd] in T. apply Z.eqb_eq in T. rewrite T. reflexivity.
Qed.

Lemma columns_apart (l1 l2 : str) :
  In l1 (map fst GenerateUmlCanvas.UML_LAYERS) ->
  In l2 (map fst GenerateUmlCanvas.UML_LAYERS) ->
  l1 <> l2 ->
  (GenerateUmlCanvas.x_base l1 + 300 <= GenerateUmlCanvas.x_base l2)%Z \/
  (GenerateUmlCanvas.x_base l2 + 300 <= GenerateUmlCanvas.x_base l1)%Z.
Proof.
  intros H1 H2 Hne.
  assert (T : columns_apart_b = true) by (vm_compute; reflexivity).
  unfold columns_apart_b in T. rewrite forallb_forall in T.
  specialize (T l1 H1). rewrite forallb_forall in T. specialize (T l2 H2).
  rewrite !orb_true_iff, !Z.leb_le, str_eqb_eq in T. tauto.
Qed.

Lemma layout_length (classes : list (str * GenerateUmlCanvas.UMLClass)) :
  length (GenerateUmlCanvas.layout_classes classes) = length classes.
Proof.
  unfold GenerateUmlCanvas.layout_classes.
  rewrite length_map, length_combine, length_seq. apply Nat.min_id.
Qed.

(** The node made for the object at the place [k]. *)
Lemma class_node_at (classes : list (str * GenerateUmlCanvas.UMLClass))
                    (k : nat) (n : node) :
  nth_error (map (fun entry => GenerateUmlCanvas.class_node (snd entry))
                 (GenerateUmlCanvas.layout_classes classes)) k = Some n ->
  exists key c i,
    nth_error classes k = Some (key, c) /\
    nth_error (GenerateUmlCanvas.sort_layer
                 (filter (has_layer (GenerateUmlCanvas.layer c))
                         (GenerateUmlCanvas.objects classes))) i = Some (k, c) /\
    node_x n = GenerateUmlCanvas.x_base (GenerateUmlCanvas.layer c) /\
    node_y n = (120 + Z.of_nat i * 150)%Z /\
    (0 < node_width n <= 300)%Z /\ (0 < node_height n <= 120)%Z.
Proof.
  intros H.
  assert (Hlt : k < length classes).
  { rewrite <- layout_length.
    rewrite <- (length_map (fun entry => GenerateUmlCanvas.class_node (snd entry))).
    apply nth_error_Some. congruence. }
  destruct (nth_error classes k) as [[key c]|] eqn:Hk;
    [|apply nth_error_None in Hk; lia].
  destruct (layout_at classes k Hk) as (i & Hi & Hl).
  rewrite nth_error_map, Hl in H. cbn [option_map snd] in H.
  inversion H; subst n. exists key, c, i.
  split; [reflexivity|]. split; [exact Hi|].
  unfold GenerateUmlCanvas.class_node.
  cbn [node_x node_y node_width node_height GenerateUmlCanvas.set_position
       GenerateUmlCanvas.x GenerateUmlCanvas.y GenerateUmlCanvas.is_abstract].
  rewrite y_base_top.
  unfold GenerateUmlCanvas.NODE_SPACING_Y, GenerateUmlCanvas.ABSTRACT_NODE_WIDTH,
    GenerateUmlCanvas.CLASS_NODE_WIDTH, GenerateUmlCanvas.ABSTRACT_NODE_HEIGHT,
    GenerateUmlCanvas.CLASS_NODE_HEIGHT.
  split; [reflexivity|]. split; [reflexivity|].
  destruct (GenerateUmlCanvas.is_abstract c); lia.
Qed.

Lemma canvas_nodes_apart (classes : list (str * GenerateUmlCanvas.UMLClass)) :
  known_layers classes ->
  forall i j a b,
    i <> j ->
    nth_error (nodes (fst (GenerateUmlCanvas.create_canvas_json
                             (GenerateUmlCanvas.layout_classes classes)))) i = Some a ->
    nth_error (nodes (fst (GenerateUmlCanvas.create_canvas_json
                             (GenerateUmlCanvas.layout_classes classes)))) j = Some b ->
    apart a b.
Proof.
  intros Hknown. unfold known_layers in Hknown. rewrite Forall_forall in Hknown.
  unfold GenerateUmlCanvas.create_canvas_json. cbn [fst nodes].
  set (headers := map GenerateUmlCanvas.header_node GenerateUmlCanvas.UML_LAYERS).
  set (cnodes := map (fun entry => GenerateUmlCanvas.class_node (snd entry))
                     (GenerateUmlCanvas.layout_classes classes)).
  assert (T : headers_fit_b = true) by (vm_compute; reflexivity).
  unfold headers_fit_b in T. fold headers in T.
  apply andb_prop in T. destruct T as [Ttop Tapart]. rewrite forallb_forall in Ttop.
  assert (HC : forall h n k,
             In h headers -> nth_error cnodes k = Some n -> apart h n).
  { intros h n k Hh Hn. apply Ttop in Hh. apply Z.leb_le in Hh.
    destruct (class_node_at classes k Hn) as (key & c & r & _ & _ & _ & Hy & _).
    right. right. left. lia. }
  assert (CC : forall k1 k2 a b,
             k1 <> k2 -> nth_error cnodes k1 = Some a -> nth_error cnodes k2 = Some b ->
             apart a b).
  { intros k1 k2 a b Hne Ha Hb.
    destruct (class_node_at classes k1 Ha)
      as (key1 & c1 & i1 & Hk1 & Hi1 & Hx1 & Hy1 & Hw1 & Hh1).
    destruct (class_node_at classes k2 Hb)
      as (key2 & c2 & i2 & Hk2 & Hi2 & Hx2 & Hy2 & Hw2 & Hh2).
    destruct (list_eq_dec ascii_dec (GenerateUmlCanvas.layer c1)
                (GenerateUmlCanvas.layer c2)) as [El|Nl].
    - rewrite El in Hi1.
      assert (Hi : i1 <> i2).
      { intros E. subst i2. rewrite Hi1 in Hi2. inversion Hi2. congruence. }
      unfold apart. right. right.
      destruct (Nat.lt_ge_cases i1 i2); [left | right]; lia.
    - assert (K1 : In (GenerateUmlCanvas.layer c1) (map fst GenerateUmlCanvas.UML_LAYERS)).
      { apply (Hknown (key1, c1)). apply nth_error_In with (n := k1). exact Hk1. }
      assert (K2 : In (GenerateUmlCanvas.layer c2) (map fst GenerateUmlCanvas.UML_LAYERS)).
      { apply (Hknown (key2, c2)). apply nth_error_In with (n := k2). exact Hk2. }
      destruct (columns_apart K1 K2 Nl) as [C|C]; unfold apart; [left | right; left]; lia. }
  intros i j a b Hij Ha Hb.
  destruct (Nat.lt_ge_cases i (length headers)) as [Li|Li],
           (Nat.lt_ge_cases j (length headers)) as [Lj|Lj].
  - rewrite nth_error_app1 in Ha, Hb by assumption.
    exact (all_apart_b_sound headers Tapart Hij Ha Hb).
  - rewrite nth_error_app1 in Ha by assumption.
    rewrite nth_error_app2 in Hb by assumption.
    apply (HC a b _ (nth_error_In _ _ Ha) Hb).
  - rewrite nth_error_app2 in Ha by assumption.
    rewrite nth_error_app1 in Hb by assumption.
    apply apart_sym. apply (HC b a _ (nth_error_In _ _ Hb) Ha).
  - rewrite nth_error_app2 in Ha, Hb by assumption.
    apply (CC (i - length headers) (j - length headers)); [lia | assumption | assumption].
Qed.

Lemma known_layers_b_sound (classes : list (str * GenerateUmlCanvas.UMLClass)) :
  known_layers_b classes = true -> known_layers classes.
Proof.
  unfold known_layers_b, known_layers. rewrite forallb_forall, Forall_forall.
  intros H entry Hin. apply mem_In. now apply H.
Qed.

Lemma find_layer_in_known (layers : list (str * GenerateUmlCanvas.layer_info))
                          (class_name : str) :
  In (GenerateUmlCanvas.find_layer_in layers class_name) (map fst layers) \/
  GenerateUmlCanvas.find_layer_in layers class_name = lit "utilities".
Proof.
  induction layers as [|[l info] layers IH]; cbn [GenerateUmlCanvas.find_layer_in map fst];
    [now right|].
  destruct (mem class_name (GenerateUmlCanvas.classes_of info)).
  - left. now left.
  - destruct IH as [IH|IH]; [left; now right | now right].
Qed.

Lemma find_layer_known (class_name : str) :
  In (GenerateUmlCanvas.find_layer class_name) (map fst GenerateUmlCanvas.UML_LAYERS).
Proof.
  unfold GenerateUmlCanvas.find_layer.
  destruct (find_layer_in_known GenerateUmlCanvas.UML_LAYERS class_name) as [H|H];
    [exact H|].
  rewrite H. apply mem_In. vm_compute. reflexivity.
Qed.

Lemma make_classes_known (ids : nat -> str) (names : list str) :
  forall k, known_layers (GenerateUmlCanvas.make_classes ids k names).
Proof.
  induction names as [|n names IH]; intros k; cbn [GenerateUmlCanvas.make_classes].
  - constructor.
  - constructor; [|apply IH].
    cbn [snd GenerateUmlCanvas.new_class GenerateUmlCanvas.layer].
    apply find_layer_known.
Qed.

Lemma link_known (classes : list (str * GenerateUmlCanvas.UMLClass))
                 (rel : str * option str) :
  known_layers classes -> known_layers (GenerateUmlCanvas.link classes rel).
Proof.
  intros H. destruct rel as [child [parent|]]; cbn [GenerateUmlCanvas.link]; [|exact H].
  destruct (negb (str_eqb parent []) && mem child (map fst classes)); [|exact H].
  unfold known_layers in *. rewrite Forall_forall in *.
  intros entry Hin.
  unfold GenerateUmlCanvas.add_child in Hin. apply in_map_iff in Hin.
  destruct Hin as ([key1 c1] & E1 & Hin).
  unfold GenerateUmlCanvas.set_parent in Hin. apply in_map_iff in Hin.
  destruct Hin as ([key0 c0] & E0 & Hin).
  specialize (H _ Hin). cbn [snd] in H.
  destruct (str_eqb key0 child); inversion E0; subst key1 c1;
    destruct (str_eqb key0 parent); inversion E1; subst entry; exact H.
Qed.

Lemma links_known (rels : list (str * option str)) :
  forall classes,
    known_layers classes ->
    known_layers (fold_left GenerateUmlCanvas.link rels classes).
Proof.
  induction rels as [|rel rels IH]; intros classes H; cbn [fold_left]; [exact H|].
  apply IH. now apply link_known.
Qed.

Lemma parse_unfold (set_iter : list str -> list str) (ids : nat -> str) :
  GenerateUmlCanvas.parse_class_definitions set_iter ids =
  fold_left GenerateUmlCanvas.link GenerateUmlCanvas.INHERITANCE
    (GenerateUmlCanvas.make_classes ids 0
       (set_iter (GenerateUmlCanvas.dedup [] GenerateUmlCanvas.all_class_names))).
Proof. reflexivity. Qed.

Lemma parse_known (set_iter : list str -> list str) (ids : nat -> str) :
  known_layers (GenerateUmlCanvas.parse_class_definitions set_iter ids).
Proof.
  rewrite parse_unfold. apply links_known. apply make_classes_known.
Qed.

(** X13.  No two nodes of the canvas that [generate_uml_canvas.py] builds
    overlap: for classes that lie in layers of [UML_LAYERS], the rectangles
    of any two nodes that [create_canvas_json] makes after
    [layout_classes], headers of layers and classes alike, are apart; this
    holds for the document that [main] writes, whatever the order in which
    the set of the class names is gone through. *)
Theorem X13_generated_nodes_do_not_overlap :
  (forall (classes : list (str * GenerateUmlCanvas.UMLClass)) (i j : nat) (a b : node),
      known_layers classes ->
      i <> j ->
      nth_error (nodes (fst (GenerateUmlCanvas.create_canvas_json
                               (GenerateUmlCanvas.layout_classes classes)))) i = Some a ->
      nth_error (nodes (fst (GenerateUmlCanvas.create_canvas_json
                               (GenerateUmlCanvas.layout_classes classes)))) j = Some b ->
      apart a b) /\
  (forall (set_iter : list str -> list str) (ids : nat -> str) (i j : nat) (a b : node),
      i <> j ->
      nth_error (nodes (GenerateUmlCanvas.main_document set_iter ids)) i = Some a ->
      nth_error (nodes (GenerateUmlCanvas.main_document set_iter ids)) j = Some b ->
      apart a b).
Proof.
  split.
  - intros classes i j a b Hk. now apply canvas_nodes_apart.
  - intros set_iter ids i j a b. unfold GenerateUmlCanvas.main_document.
    apply canvas_nodes_apart. apply parse_known.
Qed.

Lemma X13_generated_nodes_do_not_overlap_witness :
  exists a b,
    nth_error (nodes (GenerateUmlCanvas.main_document (fun l => l) str_of_nat)) 9 = Some a /\
    nth_error (nodes (GenerateUmlCanvas.main_document (fun l => l) str_of_nat)) 10 = Some b /\
    apart a b.
Proof.
  eexists. eexists. split; [vm_compute; reflexivity|].
  split; [vm_compute; reflexivity|].
  apply (proj1 X13_generated_nodes_do_not_overlap
           (GenerateUmlCanvas.parse_class_definitions (fun l => l) str_of_nat) 9 10).
  - apply known_layers_b_sound. vm_compute. reflexivity.
  - discriminate.
  - vm_compute. reflexivity.
  - vm_compute. reflexivity.
Defined.
Lemma layer_color_written (layer_name : str) :
  GenerateUmlCanvas.color_of
    (match lookup layer_name GenerateUmlCanvas.UML_LAYERS with
     | Some info => GenerateUmlCanvas.layer_color info
     | None => lit "1"
     end) = Some (lit "1").
Proof.
  destruct (lookup layer_name GenerateUmlCanvas.UML_LAYERS) as [info|] eqn:E;
    [|reflexivity].
  apply lookup_In in E.
  assert (T : layer_colors_b = true) by (vm_compute; reflexivity).
  unfold layer_colors_b in T. rewrite forallb_forall in T.
  specialize (T _ E). cbn [snd] in T.
  destruct (GenerateUmlCanvas.color_of (GenerateUmlCanvas.layer_color info));
    [|discriminate].
  apply str_eqb_eq in T. now subst.
Qed.

Lemma header_node_shape (entry : str * GenerateUmlCanvas.layer_info) :
  In entry GenerateUmlCanvas.UML_LAYERS ->
  is_text (GenerateUmlCanvas.header_node entry) = true /\
  node_color (GenerateUmlCanvas.header_node entry) = Some (lit "1").
Proof.
  intros H. destruct entry as [l info]. split; [reflexivity|].
  cbn [GenerateUmlCanvas.header_node node_color].
  assert (T : layer_colors_b = true) by (vm_compute; reflexivity).
  unfold layer_colors_b in T. rewrite forallb_forall in T.
  specialize (T _ H). cbn [snd] in T.
  destruct (GenerateUmlCanvas.color_of (GenerateUmlCanvas.layer_color info));
    [|discriminate].
  apply str_eqb_eq in T. now subst.
Qed.

Lemma link_length (classes : list (str * GenerateUmlCanvas.UMLClass))
                  (rel : str * option str) :
  length (GenerateUmlCanvas.link classes rel) = length classes.
Proof.
  destruct rel as [child [parent|]]; cbn [GenerateUmlCanvas.link]; [|reflexivity].
  destruct (_ && _); [|reflexivity].
  unfold GenerateUmlCanvas.add_child, GenerateUmlCanvas.set_parent.
  rewrite !length_map. reflexivity.
Qed.

Lemma make_classes_length (ids : nat -> str) (names : list str) :
  forall k, length (GenerateUmlCanvas.make_classes ids k names) = length names.
Proof.
  induction names as [|n names IH]; intros k; cbn [GenerateUmlCanvas.make_classes length];
    [reflexivity|].
  f_equal. apply IH.
Qed.

Lemma links_length (rels : list (str * option str)) :
  forall classes,
    length (fold_left GenerateUmlCanvas.link rels classes) = length classes.
Proof.
  induction rels as [|rel rels IH]; intros classes; cbn [fold_left]; [reflexivity|].
  rewrite IH. apply link_length.
Qed.

Lemma parse_length (set_iter : list str -> list str) (ids : nat -> str) :
  length (GenerateUmlCanvas.parse_class_definitions set_iter ids) =
  length (set_iter (GenerateUmlCanvas.dedup [] GenerateUmlCanvas.all_class_names)).
Proof.
  rewrite parse_unfold, links_length. apply make_classes_length.
Qed.

(** X14.  The document that [create_canvas_json] builds, for any classes:
    it has no edges and no metadata; its nodes are the 9 headers of the
    layers followed by one node for each class, in the order of the
    dictionary, with the identifier, the position and the display text of
    the class; every node is a text node with the colour 1, so the colours
    configured in [UML_LAYERS] are never written.  The document that
    [main] writes has 9 + 65 nodes when the set of the class names is gone
    through once. *)
Theorem X14_generated_canvas_shape :
  forall (classes : list (str * GenerateUmlCanvas.UMLClass)),
    let doc := fst (GenerateUmlCanvas.create_canvas_json classes) in
    edges doc = [] /\ metadata doc = None /\
    length (nodes doc) = 9 + length classes /\
    (forall n, In n (nodes doc) ->
       is_text n = true /\ node_color n = Some (lit "1")) /\
    (forall k key c,
       nth_error classes k = Some (key, c) ->
       exists n,
         nth_error (nodes doc) (9 + k) = Some n /\
         node_id n = GenerateUmlCanvas.class_id c /\
         text_of n = GenerateUmlCanvas.get_display_text c /\
         node_x n = GenerateUmlCanvas.x c /\ node_y n = GenerateUmlCanvas.y c) /\
    (forall set_iter ids,
       keeps_size set_iter ->
       length (nodes (GenerateUmlCanvas.main_document set_iter ids)) = 9 + 65).
Proof.
  intros classes doc. unfold doc, GenerateUmlCanvas.create_canvas_json. cbn [fst].
  cbn [edges metadata nodes].
  split; [reflexivity|]. split; [reflexivity|]. split; [|split; [|split]].
  - rewrite length_app, !length_map. reflexivity.
  - intros n Hn. apply in_app_or in Hn. destruct Hn as [Hn|Hn].
    + apply in_map_iff in Hn. destruct Hn as (entry & <- & Hin).
      now apply header_node_shape.
    + apply in_map_iff in Hn. destruct Hn as ([key c] & <- & Hin).
      split; [reflexivity|]. cbn [snd GenerateUmlCanvas.class_node node_color].
      apply layer_color_written.
  - intros k key c Hk. exists (GenerateUmlCanvas.class_node c). split.
    + rewrite nth_error_app2 by (rewrite length_map; cbn; lia).
      rewrite length_map.
      replace (9 + k - length GenerateUmlCanvas.UML_LAYERS) with k by (cbn; lia).
      rewrite nth_error_map, Hk. reflexivity.
    + repeat split; reflexivity.
  - intros set_iter ids Hs. unfold GenerateUmlCanvas.main_document,
      GenerateUmlCanvas.create_canvas_json. cbn [fst nodes].
    rewrite length_app, !length_map, layout_length, parse_length, Hs.
    vm_compute. reflexivity.
Qed.

Lemma X14_generated_canvas_shape_witness :
  length (nodes (GenerateUmlCanvas.main_document (fun l => rev l) str_of_nat)) = 9 + 65.
Proof.
  apply (@X14_generated_canvas_shape []).
  intros l. apply length_rev.
Defined.

(* ================================================================== *)
(** * Nodes created at the position of their layer *)
(* ================================================================== *)

(** In the layers [module_base] and [gui_base] a node is created at the
    position of the layer, whatever nodes there are. *)
Lemma create_missing_node_fixed (fresh_id class_name layer : str)
                                (existing : list (str * node)) :
  layer = lit "module_base" \/ layer = lit "gui_base" ->
  let n := UpdateExistingCanvas.create_missing_node fresh_id class_name layer existing in
  Some (node_x n, node_y n) = lookup layer UpdateExistingCanvas.LAYER_POSITIONS /\
  node_width n = (if mem class_name UpdateExistingCanvas.abstract_classes
                  then 300 else 260)%Z /\
  node_height n = (if mem class_name UpdateExistingCanvas.abstract_classes
                   then 200 else 60)%Z.
Proof.
  intros [E|E]; subst layer; cbv zeta; unfold UpdateExistingCanvas.create_missing_node;
    repeat split; reflexivity.
Qed.

Lemma add_missing_fixed (ids : nat -> str) (name layer : str) (todo : list str) :
  lookup name UpdateExistingCanvas.CLASS_TO_LAYER = Some layer ->
  layer = lit "module_base" \/ layer = lit "gui_base" ->
  In name todo ->
  forall made existing,
  exists n, In n (UpdateExistingCanvas.add_missing ids made todo existing) /\
            is_text n = true /\ text_of n = missing_text name /\
            Some (node_x n, node_y n) = lookup layer UpdateExistingCanvas.LAYER_POSITIONS /\
            node_width n = (if mem name UpdateExistingCanvas.abstract_classes
                            then 300 else 260)%Z /\
            node_height n = (if mem name UpdateExistingCanvas.abstract_classes
                             then 200 else 60)%Z.
Proof.
  intros Hl Hfix. induction todo as [|c todo IH]; intros Hin made existing; [destruct Hin|].
  cbn [UpdateExistingCanvas.add_missing].
  destruct (list_eq_dec ascii_dec c name) as [E|N].
  - subst c. rewrite Hl. eexists. split; [left; reflexivity|].
    destruct (create_missing_node_text (ids made) name layer existing) as [T X].
    destruct (create_missing_node_fixed (ids made) name existing Hfix) as (P & W & H).
    repeat split; assumption.
  - destruct Hin as [Hin|Hin]; [congruence|].
    destruct (IH Hin (S made)
                (UpdateExistingCanvas.dict_set c
                   (UpdateExistingCanvas.create_missing_node (ids made) c
                      match lookup c UpdateExistingCanvas.CLASS_TO_LAYER with
                      | Some l => l
                      | None => lit "utilities"
                      end existing) existing))
      as (n & Hn & R).
    exists n. split; [right; exact Hn | exact R].
Qed.

(** X15.  [Module] and [ModuleGUI], the abstract classes of the layers
    where a node is created at the position of the layer: when one of them
    is missing, the run of [update_existing_canvas.py] creates its node
    there, and a second run on the written document creates another node
    with the same text, the same position and the same size, exactly on top
    of the first one. *)
Theorem X15_abstract_base_nodes_pile_up :
  forall (set_iter : list str -> list str) (ids ids' : nat -> str) (c : canvas)
         (name : str),
    keeps_elements set_iter ->
    name = lit "Module" \/ name = lit "ModuleGUI" ->
    In name (UpdateExistingCanvas.missing_classes set_iter
               (UpdateExistingCanvas.get_existing_nodes c)) ->
    exists n1 n2,
      In n1 (UpdateExistingCanvas.new_nodes set_iter ids c) /\
      In n2 (UpdateExistingCanvas.new_nodes set_iter ids'
               (UpdateExistingCanvas.main set_iter ids c)) /\
      text_of n1 = missing_text name /\ text_of n2 = missing_text name /\
      node_x n2 = node_x n1 /\ node_y n2 = node_y n1 /\
      node_width n2 = node_width n1 /\ node_height n2 = node_height n1.
Proof.
  intros set_iter ids ids' c name Hs Hname Hmiss.
  assert (Hagain : In name (UpdateExistingCanvas.missing_classes set_iter
                     (UpdateExistingCanvas.get_existing_nodes
                        (UpdateExistingCanvas.main set_iter ids c)))).
  { apply (@second_run_missing set_iter ids c name Hs). split; [exact Hmiss|].
    destruct Hname; subst name; reflexivity. }
  assert (L : exists layer,
             lookup name UpdateExistingCanvas.CLASS_TO_LAYER = Some layer /\
             (layer = lit "module_base" \/ layer = lit "gui_base")).
  { destruct Hname; subst name.
    - exists (lit "module_base"). split; [reflexivity | now left].
    - exists (lit "gui_base"). split; [reflexivity | now right]. }
  destruct L as (layer & Hl & Hfix).
  unfold UpdateExistingCanvas.new_nodes.
  destruct (add_missing_fixed ids name _ Hl Hfix Hmiss 0
              (UpdateExistingCanvas.get_existing_nodes c))
    as (n1 & Hn1 & _ & T1 & P1 & W1 & H1).
  destruct (add_missing_fixed ids' name _ Hl Hfix Hagain 0
              (UpdateExistingCanvas.get_existing_nodes
                 (UpdateExistingCanvas.main set_iter ids c)))
    as (n2 & Hn2 & _ & T2 & P2 & W2 & H2).
  exists n1, n2. split; [exact Hn1|]. split; [exact Hn2|].
  split; [exact T1|]. split; [exact T2|].
  rewrite <- P1 in P2. inversion P2.
  repeat split; congruence.
Qed.

Lemma X15_abstract_base_nodes_pile_up_witness :
  exists n1 n2,
    In n1 (UpdateExistingCanvas.new_nodes (fun l => l) str_of_nat linked_doc) /\
    In n2 (UpdateExistingCanvas.new_nodes (fun l => l) str_of_nat
             (UpdateExistingCanvas.main (fun l => l) str_of_nat linked_doc)) /\
    text_of n1 = missing_text (lit "Module") /\
    text_of n2 = missing_text (lit "Module") /\
    node_x n2 = node_x n1 /\ node_y n2 = node_y n1 /\
    node_width n2 = node_width n1 /\ node_height n2 = node_height n1.
Proof.
  apply (@X15_abstract_base_nodes_pile_up (fun l => l) str_of_nat str_of_nat linked_doc
           (lit "Module")).
  - intros l x. tauto.
  - now left.
  - vm_compute. tauto.
Defined.

(* ================================================================== *)
(** * The source file beside a mapped header *)
(* ================================================================== *)



(* ================================================================== *)
(** * The key methods of add_shell_nodes.py *)
(* ================================================================== *)

Lemma shell_partition (all : list str) :
  Permutation (filter AddShellNodes.is_priority all ++
               filter (fun m => negb (AddShellNodes.is_priority m)) all) all.
Proof.
  induction all as [|m all IH]; cbn [filter]; [reflexivity|].
  destruct (AddShellNodes.is_priority m); cbn [negb app].
  - now constructor.
  - rewrite <- Permutation_middle. now constructor.
Qed.

(** The selection of [add_shell_nodes.py] in closed form, for a list that
    is not empty. *)
Lemma shell_key_methods_closed_form (all : list str) (info : AddShellNodes.class_info) :
  all <> [] ->
  AddShellNodes.get_key_methods all info =
  firstn 8 (firstn 6 (filter AddShellNodes.is_priority all) ++
            filter (fun m => negb (AddShellNodes.is_priority m)) all).
Proof.
  unfold AddShellNodes.get_key_methods. destruct all as [|m0 all0]; [congruence|].
  intros _. set (all := m0 :: all0).
  set (P := filter AddShellNodes.is_priority all).
  set (O := filter (fun m => negb (AddShellNodes.is_priority m)) all).
  assert (L0 : length (firstn 6 P) <= 6) by apply firstn_le_length.
  replace (length (firstn 6 P) <? 8) with true by (symmetry; apply Nat.ltb_lt; lia).
  rewrite !(firstn_app 8 (firstn 6 P)), (@firstn_all2 _ 8 (firstn 6 P)) by lia.
  rewrite firstn_firstn, Nat.min_id. reflexivity.
Qed.

(** X17.  The selection of the key methods by [get_key_methods] of
    [add_shell_nodes.py], for a list of extracted methods that is not
    empty: the result starts with the first methods of the list that hold a
    key word, up to 6, and goes on with methods that hold none; it repeats
    no method when the list repeats none; and it is a rearrangement of the
    list when that has at most 8 methods, at most 6 of them with a key
    word. *)
Theorem X17_shell_key_methods_by_priority :
  forall (all_methods : list str) (info : AddShellNodes.class_info),
    all_methods <> [] ->
    let result := AddShellNodes.get_key_methods all_methods info in
    (exists other,
        result = firstn 6 (filter AddShellNodes.is_priority all_methods) ++ other /\
        Forall (fun m => AddShellNodes.is_priority m = false) other) /\
    (NoDup all_methods -> NoDup result) /\
    (length all_methods <= 8 ->
     length (filter AddShellNodes.is_priority all_methods) <= 6 ->
     Permutation result all_methods).
Proof.
  intros all info Hne result. unfold result.
  rewrite (shell_key_methods_closed_form info Hne).
  set (P := filter AddShellNodes.is_priority all).
  set (O := filter (fun m => negb (AddShellNodes.is_priority m)) all).
  assert (L0 : length (firstn 6 P) <= 6) by apply firstn_le_length.
  split; [|split].
  - rewrite firstn_app, (@firstn_all2 _ 8 (firstn 6 P)) by lia.
    exists (firstn (8 - length (firstn 6 P)) O). split; [reflexivity|].
    apply Forall_forall. intros m Hm. apply In_firstn in Hm.
    unfold O in Hm. apply filter_In in Hm. destruct Hm as [_ Hm].
    now apply negb_true_iff.
  - intros Hnd. apply NoDup_firstn_of.
    assert (N : NoDup (P ++ O)).
    { eapply Permutation_NoDup; [symmetry; apply shell_partition | exact Hnd]. }
    rewrite <- (firstn_skipn 6 P), <- app_assoc in N.
    exact (NoDup_app_drop _ _ _ N).
  - intros L8 L6. rewrite (@firstn_all2 _ 6 P) by exact L6.
    pose proof (shell_partition all) as Q. fold P O in Q.
    rewrite firstn_all2; [exact Q|].
    rewrite (Permutation_length Q). exact L8.
Qed.

Lemma X17_shell_key_methods_by_priority_witness :
  Permutation
    (AddShellNodes.get_key_methods
       (map lit ["exit"; "handleKeyPress"; "isActive"; "setup"]%string)
       (AddShellNodes.ClassInfo [] false [] []))
    (map lit ["exit"; "handleKeyPress"; "isActive"; "setup"]%string).
Proof.
  apply (@X17_shell_key_methods_by_priority
           (map lit ["exit"; "handleKeyPress"; "isActive"; "setup"]%string)
           (AddShellNodes.ClassInfo [] false [] [])).
  - discriminate.
  - vm_compute. lia.
  - vm_compute. lia.
Defined.
